(** * A shallow embedding of the M6502 emulator core

    The development follows the C++ sources file by file:
    - [Memory.cpp]: the flat 64 KiB store with its metered accessors;
    - [CPU.cpp]: register file, flags, stack, addressing modes, ALU;
    - [Instructions.cpp]: shifts, jumps, branches, the opcode switch and
      the two [Execute] overloads.

    Fixed-width C++ integers are unbounded [Z] values; every place where
    the C++ code stores into a [Byte], [Word] or [Cycles] object is made
    explicit through [to_byte], [to_word] and [to_cycles]. *)

From Stdlib Require Import ZArith List Bool Lia.
Import ListNotations.
Local Open Scope Z_scope.

(* ================================================================== *)
(** ** Machine integers *)

Definition Byte := Z.
Definition SignedByte := Z.
Definition Word := Z.
Definition Address := Z.

(** Modelled from the spec: the header declaring [Cycles] is not part of
    the sources at hand; the specification gives the cycle counters as
    64-bit unsigned integers. *)
Definition Cycles := Z.

Definition to_byte (z : Z) : Byte := z mod 256.
Definition to_word (z : Z) : Word := z mod 65536.
Definition to_cycles (z : Z) : Cycles := z mod 2 ^ 64.

(** [static_cast<SignedByte>] of a byte. *)
Definition to_signed_byte (b : Byte) : SignedByte :=
  if to_byte b <? 128 then to_byte b else to_byte b - 256.

(** C++ truth value of an integer expression, [(e) != 0]. *)
Definition nonzero (z : Z) : bool := negb (z =? 0).

(* ================================================================== *)
(** ** Constants *)

(** Modelled from the spec: [Constants.h] is not part of the sources at
    hand.  Flag masks, vectors, stack constants and the 151 opcode bytes
    are the values the specification fixes (the canonical NMOS 6502
    encoding). *)
Definition FLAG_CARRY : Byte := 0x01.
Definition FLAG_ZERO : Byte := 0x02.
Definition FLAG_INTERRUPT : Byte := 0x04.
Definition FLAG_DECIMAL : Byte := 0x08.
Definition FLAG_BREAK : Byte := 0x10.
Definition FLAG_UNUSED : Byte := 0x20.
Definition FLAG_OVERFLOW : Byte := 0x40.
Definition FLAG_NEGATIVE : Byte := 0x80.

Definition STACK_BASE : Address := 0x0100.
Definition STACK_POINTER_RESET : Byte := 0xFD.
Definition VECTOR_NMI : Address := 0xFFFA.
Definition VECTOR_RESET : Address := 0xFFFC.
Definition VECTOR_IRQ_BRK : Address := 0xFFFE.

Definition INS_LDA_IM : Byte := 0xA9.
Definition INS_LDA_ZP : Byte := 0xA5.
Definition INS_LDA_ZPX : Byte := 0xB5.
Definition INS_LDA_ABS : Byte := 0xAD.
Definition INS_LDA_ABSX : Byte := 0xBD.
Definition INS_LDA_ABSY : Byte := 0xB9.
Definition INS_LDA_INDX : Byte := 0xA1.
Definition INS_LDA_INDY : Byte := 0xB1.
Definition INS_LDX_IM : Byte := 0xA2.
Definition INS_LDX_ZP : Byte := 0xA6.
Definition INS_LDX_ZPY : Byte := 0xB6.
Definition INS_LDX_ABS : Byte := 0xAE.
Definition INS_LDX_ABSY : Byte := 0xBE.
Definition INS_LDY_IM : Byte := 0xA0.
Definition INS_LDY_ZP : Byte := 0xA4.
Definition INS_LDY_ZPX : Byte := 0xB4.
Definition INS_LDY_ABS : Byte := 0xAC.
Definition INS_LDY_ABSX : Byte := 0xBC.
Definition INS_STA_ZP : Byte := 0x85.
Definition INS_STA_ZPX : Byte := 0x95.
Definition INS_STA_ABS : Byte := 0x8D.
Definition INS_STA_ABSX : Byte := 0x9D.
Definition INS_STA_ABSY : Byte := 0x99.
Definition INS_STA_INDX : Byte := 0x81.
Definition INS_STA_INDY : Byte := 0x91.
Definition INS_STX_ZP : Byte := 0x86.
Definition INS_STX_ZPY : Byte := 0x96.
Definition INS_STX_ABS : Byte := 0x8E.
Definition INS_STY_ZP : Byte := 0x84.
Definition INS_STY_ZPX : Byte := 0x94.
Definition INS_STY_ABS : Byte := 0x8C.
Definition INS_TAX : Byte := 0xAA.
Definition INS_TAY : Byte := 0xA8.
Definition INS_TXA : Byte := 0x8A.
Definition INS_TYA : Byte := 0x98.
Definition INS_TSX : Byte := 0xBA.
Definition INS_TXS : Byte := 0x9A.
Definition INS_PHA : Byte := 0x48.
Definition INS_PHP : Byte := 0x08.
Definition INS_PLA : Byte := 0x68.
Definition INS_PLP : Byte := 0x28.
Definition INS_AND_IM : Byte := 0x29.
Definition INS_AND_ZP : Byte := 0x25.
Definition INS_AND_ZPX : Byte := 0x35.
Definition INS_AND_ABS : Byte := 0x2D.
Definition INS_AND_ABSX : Byte := 0x3D.
Definition INS_AND_ABSY : Byte := 0x39.
Definition INS_AND_INDX : Byte := 0x21.
Definition INS_AND_INDY : Byte := 0x31.
Definition INS_ORA_IM : Byte := 0x09.
Definition INS_ORA_ZP : Byte := 0x05.
Definition INS_ORA_ZPX : Byte := 0x15.
Definition INS_ORA_ABS : Byte := 0x0D.
Definition INS_ORA_ABSX : Byte := 0x1D.
Definition INS_ORA_ABSY : Byte := 0x19.
Definition INS_ORA_INDX : Byte := 0x01.
Definition INS_ORA_INDY : Byte := 0x11.
Definition INS_EOR_IM : Byte := 0x49.
Definition INS_EOR_ZP : Byte := 0x45.
Definition INS_EOR_ZPX : Byte := 0x55.
Definition INS_EOR_ABS : Byte := 0x4D.
Definition INS_EOR_ABSX : Byte := 0x5D.
Definition INS_EOR_ABSY : Byte := 0x59.
Definition INS_EOR_INDX : Byte := 0x41.
Definition INS_EOR_INDY : Byte := 0x51.
Definition INS_BIT_ZP : Byte := 0x24.
Definition INS_BIT_ABS : Byte := 0x2C.
Definition INS_ADC_IM : Byte := 0x69.
Definition INS_ADC_ZP : Byte := 0x65.
Definition INS_ADC_ZPX : Byte := 0x75.
Definition INS_ADC_ABS : Byte := 0x6D.
Definition INS_ADC_ABSX : Byte := 0x7D.
Definition INS_ADC_ABSY : Byte := 0x79.
Definition INS_ADC_INDX : Byte := 0x61.
Definition INS_ADC_INDY : Byte := 0x71.
Definition INS_SBC_IM : Byte := 0xE9.
Definition INS_SBC_ZP : Byte := 0xE5.
Definition INS_SBC_ZPX : Byte := 0xF5.
Definition INS_SBC_ABS : Byte := 0xED.
Definition INS_SBC_ABSX : Byte := 0xFD.
Definition INS_SBC_ABSY : Byte := 0xF9.
Definition INS_SBC_INDX : Byte := 0xE1.
Definition INS_SBC_INDY : Byte := 0xF1.
Definition INS_CMP_IM : Byte := 0xC9.
Definition INS_CMP_ZP : Byte := 0xC5.
Definition INS_CMP_ZPX : Byte := 0xD5.
Definition INS_CMP_ABS : Byte := 0xCD.
Definition INS_CMP_ABSX : Byte := 0xDD.
Definition INS_CMP_ABSY : Byte := 0xD9.
Definition INS_CMP_INDX : Byte := 0xC1.
Definition INS_CMP_INDY : Byte := 0xD1.
Definition INS_CPX_IM : Byte := 0xE0.
Definition INS_CPX_ZP : Byte := 0xE4.
Definition INS_CPX_ABS : Byte := 0xEC.
Definition INS_CPY_IM : Byte := 0xC0.
Definition INS_CPY_ZP : Byte := 0xC4.
Definition INS_CPY_ABS : Byte := 0xCC.
Definition INS_INC_ZP : Byte := 0xE6.
Definition INS_INC_ZPX : Byte := 0xF6.
Definition INS_INC_ABS : Byte := 0xEE.
Definition INS_INC_ABSX : Byte := 0xFE.
Definition INS_INX : Byte := 0xE8.
Definition INS_INY : Byte := 0xC8.
Definition INS_DEC_ZP : Byte := 0xC6.
Definition INS_DEC_ZPX : Byte := 0xD6.
Definition INS_DEC_ABS : Byte := 0xCE.
Definition INS_DEC_ABSX : Byte := 0xDE.
Definition INS_DEX : Byte := 0xCA.
Definition INS_DEY : Byte := 0x88.
Definition INS_ASL_ACC : Byte := 0x0A.
Definition INS_ASL_ZP : Byte := 0x06.
Definition INS_ASL_ZPX : Byte := 0x16.
Definition INS_ASL_ABS : Byte := 0x0E.
Definition INS_ASL_ABSX : Byte := 0x1E.
Definition INS_LSR_ACC : Byte := 0x4A.
Definition INS_LSR_ZP : Byte := 0x46.
Definition INS_LSR_ZPX : Byte := 0x56.
Definition INS_LSR_ABS : Byte := 0x4E.
Definition INS_LSR_ABSX : Byte := 0x5E.
Definition INS_ROL_ACC : Byte := 0x2A.
Definition INS_ROL_ZP : Byte := 0x26.
Definition INS_ROL_ZPX : Byte := 0x36.
Definition INS_ROL_ABS : Byte := 0x2E.
Definition INS_ROL_ABSX : Byte := 0x3E.
Definition INS_ROR_ACC : Byte := 0x6A.
Definition INS_ROR_ZP : Byte := 0x66.
Definition INS_ROR_ZPX : Byte := 0x76.
Definition INS_ROR_ABS : Byte := 0x6E.
Definition INS_ROR_ABSX : Byte := 0x7E.
Definition INS_JMP_ABS : Byte := 0x4C.
Definition INS_JMP_IND : Byte := 0x6C.
Definition INS_JSR : Byte := 0x20.
Definition INS_RTS : Byte := 0x60.
Definition INS_RTI : Byte := 0x40.
Definition INS_BCC : Byte := 0x90.
Definition INS_BCS : Byte := 0xB0.
Definition INS_BEQ : Byte := 0xF0.
Definition INS_BMI : Byte := 0x30.
Definition INS_BNE : Byte := 0xD0.
Definition INS_BPL : Byte := 0x10.
Definition INS_BVC : Byte := 0x50.
Definition INS_BVS : Byte := 0x70.
Definition INS_CLC : Byte := 0x18.
Definition INS_CLD : Byte := 0xD8.
Definition INS_CLI : Byte := 0x58.
Definition INS_CLV : Byte := 0xB8.
Definition INS_SEC : Byte := 0x38.
Definition INS_SED : Byte := 0xF8.
Definition INS_SEI : Byte := 0x78.
Definition INS_BRK : Byte := 0x00.
Definition INS_NOP : Byte := 0xEA.

(** Modelled from the spec: [CPU.h] is not part of the sources at hand.
    The indexed addressing helpers are called without their last argument
    by every read instruction, and the specification has those pay the
    page-cross penalty, so the default of [addCycleOnPageCross] is [true]. *)
Definition addCycleOnPageCross_default : bool := true.

(* ================================================================== *)
(** ** Memory.cpp *)

(** [std::array<Byte, 65536> data], indexed by a 16-bit address. *)
Record Memory : Type := mkMemory { data : Address -> Byte }.

Definition store (m : Memory) (address : Address) (value : Byte) : Memory :=
  mkMemory (fun a => if a =? address then value else data m a).

Module Mem.

Definition Initialize (_ : Memory) : Memory := mkMemory (fun _ => 0).

Definition ReadByte (m : Memory) (address : Address) (cycles : Cycles)
  : Byte * Cycles :=
  (data m address, to_cycles (cycles + 1)).

Definition ReadByteNoCycles (m : Memory) (address : Address) : Byte :=
  data m address.

Definition WriteByte (m : Memory) (address : Address) (value : Byte)
           (cycles : Cycles) : Memory * Cycles :=
  (store m address value, to_cycles (cycles + 1)).

Definition ReadWord (m : Memory) (address : Address) (cycles : Cycles)
  : Word * Cycles :=
  let '(lowByte, cycles) := ReadByte m address cycles in
  let '(highByte, cycles) := ReadByte m (to_word (address + 1)) cycles in
  (to_word (Z.lor (Z.shiftl highByte 8) lowByte), cycles).

Definition WriteWord (m : Memory) (address : Address) (value : Word)
           (cycles : Cycles) : Memory * Cycles :=
  let lowByte := Z.land value 0xFF in
  let highByte := Z.land (Z.shiftr value 8) 0xFF in
  let '(m, cycles) := WriteByte m address lowByte cycles in
  WriteByte m (to_word (address + 1)) highByte cycles.

End Mem.

(** The constructor [Memory::Memory]. *)
Definition Memory_new : Memory := Mem.Initialize (mkMemory (fun _ => 0)).

(* ================================================================== *)
(** ** CPU.cpp: state *)

Record CPU : Type := mkCPU {
  A : Byte;
  X : Byte;
  Y : Byte;
  PC : Word;
  SP : Byte;
  P : Byte;
  TotalCycles : Cycles
}.

(** [CPU::CPU] *)
Definition CPU_new : CPU := mkCPU 0 0 0 0 0 0 0.

Definition set_A (v : Byte) (c : CPU) : CPU :=
  mkCPU v (X c) (Y c) (PC c) (SP c) (P c) (TotalCycles c).
Definition set_X (v : Byte) (c : CPU) : CPU :=
  mkCPU (A c) v (Y c) (PC c) (SP c) (P c) (TotalCycles c).
Definition set_Y (v : Byte) (c : CPU) : CPU :=
  mkCPU (A c) (X c) v (PC c) (SP c) (P c) (TotalCycles c).
Definition set_PC (v : Word) (c : CPU) : CPU :=
  mkCPU (A c) (X c) (Y c) v (SP c) (P c) (TotalCycles c).
Definition set_SP (v : Byte) (c : CPU) : CPU :=
  mkCPU (A c) (X c) (Y c) (PC c) v (P c) (TotalCycles c).
Definition set_P (v : Byte) (c : CPU) : CPU :=
  mkCPU (A c) (X c) (Y c) (PC c) (SP c) v (TotalCycles c).
Definition set_TotalCycles (v : Cycles) (c : CPU) : CPU :=
  mkCPU (A c) (X c) (Y c) (PC c) (SP c) (P c) v.

(** What a member function of [CPU] taking [Memory& memory] and
    [Cycles& cycles] can read and change. *)
Record State : Type := mkState {
  cpu : CPU;
  memory : Memory;
  cycles : Cycles
}.

Definition M (T : Type) : Type := State -> T * State.

Definition ret {T} (x : T) : M T := fun s => (x, s).
Definition bind {T U} (m : M T) (k : T -> M U) : M U :=
  fun s => let '(x, s') := m s in k x s'.

Notation "x <- m ;; k" := (bind m (fun x => k))
  (at level 61, m at next level, right associativity).
Notation "m ;; k" := (bind m (fun _ => k))
  (at level 61, right associativity).

Definition get {T} (f : CPU -> T) : M T := fun s => (f (cpu s), s).
Definition modify (f : CPU -> CPU) : M unit :=
  fun s => (tt, mkState (f (cpu s)) (memory s) (cycles s)).
Definition when (b : bool) (m : M unit) : M unit := if b then m else ret tt.

(** [cycles += n] *)
Definition tick (n : Z) : M unit :=
  fun s => (tt, mkState (cpu s) (memory s) (to_cycles (cycles s + n))).

(** [memory.ReadByte(address, cycles)] *)
Definition ReadByte (address : Address) : M Byte :=
  fun s => let '(v, cy) := Mem.ReadByte (memory s) address (cycles s) in
           (v, mkState (cpu s) (memory s) cy).

(** [memory.WriteByte(address, value, cycles)] *)
Definition WriteByte (address : Address) (value : Byte) : M unit :=
  fun s => let '(m, cy) := Mem.WriteByte (memory s) address value (cycles s) in
           (tt, mkState (cpu s) m cy).

(** [memory.ReadWord(address, cycles)] *)
Definition ReadWord (address : Address) : M Word :=
  fun s => let '(v, cy) := Mem.ReadWord (memory s) address (cycles s) in
           (v, mkState (cpu s) (memory s) cy).

(* ================================================================== *)
(** ** CPU.cpp: flag operations *)

(** Member functions that touch the register file only are functions on
    [CPU]; they are lifted into [M] with [modify] and [get]. *)
Definition SetFlag (flag : Byte) (condition : bool) (c : CPU) : CPU :=
  if condition
  then set_P (to_byte (Z.lor (P c) flag)) c
  else set_P (to_byte (Z.land (P c) (Z.lnot flag))) c.

Definition GetFlag (flag : Byte) (c : CPU) : bool :=
  nonzero (Z.land (P c) flag).

Definition UpdateZeroAndNegativeFlags (value : Byte) (c : CPU) : CPU :=
  let c := SetFlag FLAG_ZERO (value =? 0) c in
  SetFlag FLAG_NEGATIVE (nonzero (Z.land value 0x80)) c.

(* ================================================================== *)
(** ** CPU.cpp: reset *)

(** [CPU::Reset].  The vector read is metered against [TotalCycles]
    itself, and the memory is handed back as the reference leaves it. *)
Definition Reset (c : CPU) (m : Memory) : CPU * Memory :=
  let '(pc, total) := Mem.ReadWord m VECTOR_RESET (TotalCycles c) in
  let c := set_PC pc (set_TotalCycles total c) in
  let c := set_SP STACK_POINTER_RESET c in
  let c := set_P FLAG_UNUSED c in
  let c := SetFlag FLAG_INTERRUPT true c in
  let c := set_Y 0 (set_X 0 (set_A 0 c)) in
  let c := set_TotalCycles (to_cycles (TotalCycles c + 6)) c in
  (c, m).

(* ================================================================== *)
(** ** CPU.cpp: stack operations *)

Definition PushByteToStack (value : Byte) : M unit :=
  sp <- get SP ;;
  let stackAddress := to_word (STACK_BASE + sp) in
  WriteByte stackAddress value ;;
  modify (fun c => set_SP (to_byte (SP c - 1)) c).

Definition PushWordToStack (value : Word) : M unit :=
  PushByteToStack (Z.land (Z.shiftr value 8) 0xFF) ;;
  PushByteToStack (Z.land value 0xFF).

Definition PopByteFromStack : M Byte :=
  modify (fun c => set_SP (to_byte (SP c + 1)) c) ;;
  sp <- get SP ;;
  let stackAddress := to_word (STACK_BASE + sp) in
  ReadByte stackAddress.

Definition PopWordFromStack : M Word :=
  lowByte <- PopByteFromStack ;;
  highByte <- PopByteFromStack ;;
  ret (to_word (Z.lor (Z.shiftl highByte 8) lowByte)).

(* ================================================================== *)
(** ** CPU.cpp: memory access helpers *)

Definition FetchByte : M Byte :=
  pc <- get PC ;;
  value <- ReadByte pc ;;
  modify (fun c => set_PC (to_word (PC c + 1)) c) ;;
  ret value.

Definition FetchWord : M Word :=
  pc <- get PC ;;
  value <- ReadWord pc ;;
  modify (fun c => set_PC (to_word (PC c + 2)) c) ;;
  ret value.

(* ================================================================== *)
(** ** CPU.cpp: addressing modes *)

Definition AddrImmediate : M Address :=
  address <- get PC ;;
  modify (fun c => set_PC (to_word (PC c + 1)) c) ;;
  tick 1 ;;
  ret address.

Definition AddrZeroPage : M Address :=
  zpAddress <- FetchByte ;;
  ret zpAddress.

Definition AddrZeroPageX : M Address :=
  zpAddress <- FetchByte ;;
  x <- get X ;;
  let finalAddress := to_byte (zpAddress + x) in
  tick 1 ;;
  ret finalAddress.

Definition AddrZeroPageY : M Address :=
  zpAddress <- FetchByte ;;
  y <- get Y ;;
  let finalAddress := to_byte (zpAddress + y) in
  tick 1 ;;
  ret finalAddress.

Definition AddrAbsolute : M Address := FetchWord.

(** The page test shared by the three indexed modes:
    [(baseAddress & 0xFF00) != (finalAddress & 0xFF00)]. *)
Definition page_differs (a b : Address) : bool :=
  negb (Z.land a 0xFF00 =? Z.land b 0xFF00).

Definition AddrAbsoluteX (addCycleOnPageCross : bool) : M Address :=
  baseAddress <- FetchWord ;;
  x <- get X ;;
  let finalAddress := to_word (baseAddress + x) in
  when addCycleOnPageCross
    (when (page_differs baseAddress finalAddress) (tick 1)) ;;
  ret finalAddress.

Definition AddrAbsoluteY (addCycleOnPageCross : bool) : M Address :=
  baseAddress <- FetchWord ;;
  y <- get Y ;;
  let finalAddress := to_word (baseAddress + y) in
  when addCycleOnPageCross
    (when (page_differs baseAddress finalAddress) (tick 1)) ;;
  ret finalAddress.

Definition AddrIndexedIndirect : M Address :=
  zpAddress <- FetchByte ;;
  x <- get X ;;
  let finalZpAddress := to_byte (zpAddress + x) in
  tick 1 ;;
  lowByte <- ReadByte finalZpAddress ;;
  highByte <- ReadByte (Z.land (finalZpAddress + 1) 0xFF) ;;
  ret (to_word (Z.lor (Z.shiftl highByte 8) lowByte)).

Definition AddrIndirectIndexed (addCycleOnPageCross : bool) : M Address :=
  zpAddress <- FetchByte ;;
  lowByte <- ReadByte zpAddress ;;
  highByte <- ReadByte (Z.land (zpAddress + 1) 0xFF) ;;
  let baseAddress := to_word (Z.lor (Z.shiftl highByte 8) lowByte) in
  y <- get Y ;;
  let finalAddress := to_word (baseAddress + y) in
  when addCycleOnPageCross
    (when (page_differs baseAddress finalAddress) (tick 1)) ;;
  ret finalAddress.

(* ================================================================== *)
(** ** CPU.cpp: load / store *)

Definition LDA (address : Address) : M unit :=
  v <- ReadByte address ;;
  modify (set_A v) ;;
  modify (UpdateZeroAndNegativeFlags v).

Definition LDX (address : Address) : M unit :=
  v <- ReadByte address ;;
  modify (set_X v) ;;
  modify (UpdateZeroAndNegativeFlags v).

Definition LDY (address : Address) : M unit :=
  v <- ReadByte address ;;
  modify (set_Y v) ;;
  modify (UpdateZeroAndNegativeFlags v).

Definition STA (address : Address) : M unit :=
  a <- get A ;; WriteByte address a.

Definition STX (address : Address) : M unit :=
  x <- get X ;; WriteByte address x.

Definition STY (address : Address) : M unit :=
  y <- get Y ;; WriteByte address y.

(* ================================================================== *)
(** ** CPU.cpp: register transfers *)

Definition TAX : M unit :=
  modify (fun c => set_X (A c) c) ;; tick 1 ;;
  x <- get X ;; modify (UpdateZeroAndNegativeFlags x).

Definition TAY : M unit :=
  modify (fun c => set_Y (A c) c) ;; tick 1 ;;
  y <- get Y ;; modify (UpdateZeroAndNegativeFlags y).

Definition TXA : M unit :=
  modify (fun c => set_A (X c) c) ;; tick 1 ;;
  a <- get A ;; modify (UpdateZeroAndNegativeFlags a).

Definition TYA : M unit :=
  modify (fun c => set_A (Y c) c) ;; tick 1 ;;
  a <- get A ;; modify (UpdateZeroAndNegativeFlags a).

Definition TSX : M unit :=
  modify (fun c => set_X (SP c) c) ;; tick 1 ;;
  x <- get X ;; modify (UpdateZeroAndNegativeFlags x).

Definition TXS : M unit :=
  modify (fun c => set_SP (X c) c) ;; tick 1.

(* ================================================================== *)
(** ** CPU.cpp: stack instructions *)

Definition PHA : M unit :=
  tick 1 ;;
  a <- get A ;; PushByteToStack a.

Definition PHP : M unit :=
  tick 1 ;;
  p <- get P ;;
  let statusToStore := to_byte (Z.lor (Z.lor p FLAG_BREAK) FLAG_UNUSED) in
  PushByteToStack statusToStore.

Definition PLA : M unit :=
  tick 2 ;;
  v <- PopByteFromStack ;;
  modify (set_A v) ;;
  modify (UpdateZeroAndNegativeFlags v).

Definition PLP : M unit :=
  tick 2 ;;
  v <- PopByteFromStack ;;
  modify (set_P v) ;;
  modify (SetFlag FLAG_UNUSED true).

(* ================================================================== *)
(** ** CPU.cpp: logical instructions *)

Definition AND (address : Address) : M unit :=
  value <- ReadByte address ;;
  modify (fun c => set_A (to_byte (Z.land (A c) value)) c) ;;
  a <- get A ;; modify (UpdateZeroAndNegativeFlags a).

Definition ORA (address : Address) : M unit :=
  value <- ReadByte address ;;
  modify (fun c => set_A (to_byte (Z.lor (A c) value)) c) ;;
  a <- get A ;; modify (UpdateZeroAndNegativeFlags a).

Definition EOR (address : Address) : M unit :=
  value <- ReadByte address ;;
  modify (fun c => set_A (to_byte (Z.lxor (A c) value)) c) ;;
  a <- get A ;; modify (UpdateZeroAndNegativeFlags a).

Definition BIT (address : Address) : M unit :=
  value <- ReadByte address ;;
  a <- get A ;;
  modify (SetFlag FLAG_ZERO (Z.land a value =? 0)) ;;
  modify (SetFlag FLAG_NEGATIVE (nonzero (Z.land value 0x80))) ;;
  modify (SetFlag FLAG_OVERFLOW (nonzero (Z.land value 0x40))).

(* ================================================================== *)
(** ** CPU.cpp: arithmetic *)

Definition ADC (address : Address) : M unit :=
  operand <- ReadByte address ;;
  decimal <- get (GetFlag FLAG_DECIMAL) ;;
  a <- get A ;;
  carry <- get (GetFlag FLAG_CARRY) ;;
  if decimal then
    let sum := to_word (Z.land a 0x0F + Z.land operand 0x0F
                        + (if carry then 1 else 0)) in
    let sum := if sum >? 0x09 then to_word (sum + 0x06) else sum in
    let sum := to_word (Z.land a 0xF0 + Z.land operand 0xF0
                        + (if sum >? 0x0F then 0x10 else 0)
                        + Z.land sum 0x0F) in
    modify (SetFlag FLAG_NEGATIVE (nonzero (Z.land sum 0x80))) ;;
    modify (SetFlag FLAG_ZERO (Z.land sum 0xFF =? 0)) ;;
    let overflow :=
      nonzero (Z.land (Z.land (Z.lxor a sum) (Z.lxor operand sum)) 0x80) in
    modify (SetFlag FLAG_OVERFLOW overflow) ;;
    let sum := if Z.land sum 0xF0 >? 0x90 then to_word (sum + 0x60) else sum in
    modify (SetFlag FLAG_CARRY (sum >? 0x99)) ;;
    modify (set_A (to_byte (Z.land sum 0xFF)))
  else
    let sum := to_word (a + operand + (if carry then 1 else 0)) in
    modify (SetFlag FLAG_CARRY (sum >? 0xFF)) ;;
    let overflow :=
      nonzero (Z.land (Z.land (Z.lxor a sum) (Z.lxor operand sum)) 0x80) in
    modify (SetFlag FLAG_OVERFLOW overflow) ;;
    modify (set_A (to_byte (Z.land sum 0xFF))) ;;
    a' <- get A ;; modify (UpdateZeroAndNegativeFlags a').

Definition SBC (address : Address) : M unit :=
  operand <- ReadByte address ;;
  decimal <- get (GetFlag FLAG_DECIMAL) ;;
  a <- get A ;;
  carry <- get (GetFlag FLAG_CARRY) ;;
  if decimal then
    let diff := to_word (Z.land a 0x0F - Z.land operand 0x0F
                         - (if carry then 0 else 1)) in
    let diff :=
      if nonzero (Z.land diff 0x10)
      then to_word (Z.lor (Z.land (diff - 0x06) 0x0F)
                          (Z.land a 0xF0 - Z.land operand 0xF0 - 0x10))
      else to_word (Z.lor (Z.land diff 0x0F)
                          (Z.land a 0xF0 - Z.land operand 0xF0)) in
    let diff :=
      if nonzero (Z.land diff 0x100) then to_word (diff - 0x60) else diff in
    modify (SetFlag FLAG_CARRY (Z.land diff 0x100 =? 0)) ;;
    modify (set_A (to_byte (Z.land diff 0xFF))) ;;
    a' <- get A ;; modify (UpdateZeroAndNegativeFlags a')
  else
    let sum := to_word (a + Z.lxor operand 0xFF + (if carry then 1 else 0)) in
    modify (SetFlag FLAG_CARRY (sum >? 0xFF)) ;;
    let overflow :=
      nonzero (Z.land (Z.land (Z.lxor a sum)
                              (Z.lxor (Z.lxor operand 0xFF) sum)) 0x80) in
    modify (SetFlag FLAG_OVERFLOW overflow) ;;
    modify (set_A (to_byte (Z.land sum 0xFF))) ;;
    a' <- get A ;; modify (UpdateZeroAndNegativeFlags a').

Definition CompareRegister (regValue memValue : Byte) (c : CPU) : CPU :=
  let result := to_word (regValue - memValue) in
  let c := SetFlag FLAG_CARRY (regValue >=? memValue) c in
  let c := SetFlag FLAG_ZERO (regValue =? memValue) c in
  SetFlag FLAG_NEGATIVE (nonzero (Z.land result 0x80)) c.

Definition CMP (address : Address) : M unit :=
  value <- ReadByte address ;;
  a <- get A ;; modify (CompareRegister a value).

Definition CPX (address : Address) : M unit :=
  value <- ReadByte address ;;
  x <- get X ;; modify (CompareRegister x value).

Definition CPY (address : Address) : M unit :=
  value <- ReadByte address ;;
  y <- get Y ;; modify (CompareRegister y value).

(* ================================================================== *)
(** ** CPU.cpp: increment / decrement *)

Definition INC (address : Address) : M unit :=
  value <- ReadByte address ;;
  let value := to_byte (value + 1) in
  tick 1 ;;
  WriteByte address value ;;
  modify (UpdateZeroAndNegativeFlags value).

Definition INX : M unit :=
  modify (fun c => set_X (to_byte (X c + 1)) c) ;; tick 1 ;;
  x <- get X ;; modify (UpdateZeroAndNegativeFlags x).

Definition INY : M unit :=
  modify (fun c => set_Y (to_byte (Y c + 1)) c) ;; tick 1 ;;
  y <- get Y ;; modify (UpdateZeroAndNegativeFlags y).

Definition DEC (address : Address) : M unit :=
  value <- ReadByte address ;;
  let value := to_byte (value - 1) in
  tick 1 ;;
  WriteByte address value ;;
  modify (UpdateZeroAndNegativeFlags value).

Definition DEX : M unit :=
  modify (fun c => set_X (to_byte (X c - 1)) c) ;; tick 1 ;;
  x <- get X ;; modify (UpdateZeroAndNegativeFlags x).

Definition DEY : M unit :=
  modify (fun c => set_Y (to_byte (Y c - 1)) c) ;; tick 1 ;;
  y <- get Y ;; modify (UpdateZeroAndNegativeFlags y).

(* ================================================================== *)
(** ** Instructions.cpp: shifts and rotates *)

Definition ASL_ACC : M unit :=
  a <- get A ;;
  modify (SetFlag FLAG_CARRY (nonzero (Z.land a 0x80))) ;;
  modify (set_A (to_byte (Z.shiftl a 1))) ;;
  tick 1 ;;
  a' <- get A ;; modify (UpdateZeroAndNegativeFlags a').

Definition ASL_MEM (address : Address) : M unit :=
  value <- ReadByte address ;;
  modify (SetFlag FLAG_CARRY (nonzero (Z.land value 0x80))) ;;
  let value := to_byte (Z.shiftl value 1) in
  tick 1 ;;
  WriteByte address value ;;
  modify (UpdateZeroAndNegativeFlags value).

Definition LSR_ACC : M unit :=
  a <- get A ;;
  modify (SetFlag FLAG_CARRY (nonzero (Z.land a 0x01))) ;;
  modify (set_A (to_byte (Z.shiftr a 1))) ;;
  tick 1 ;;
  a' <- get A ;; modify (UpdateZeroAndNegativeFlags a').

Definition LSR_MEM (address : Address) : M unit :=
  value <- ReadByte address ;;
  modify (SetFlag FLAG_CARRY (nonzero (Z.land value 0x01))) ;;
  let value := to_byte (Z.shiftr value 1) in
  tick 1 ;;
  WriteByte address value ;;
  modify (UpdateZeroAndNegativeFlags value).

Definition ROL_ACC : M unit :=
  oldCarry <- get (GetFlag FLAG_CARRY) ;;
  a <- get A ;;
  modify (SetFlag FLAG_CARRY (nonzero (Z.land a 0x80))) ;;
  modify (set_A (to_byte (Z.lor (Z.shiftl a 1) (if oldCarry then 1 else 0)))) ;;
  tick 1 ;;
  a' <- get A ;; modify (UpdateZeroAndNegativeFlags a').

Definition ROL_MEM (address : Address) : M unit :=
  value <- ReadByte address ;;
  oldCarry <- get (GetFlag FLAG_CARRY) ;;
  modify (SetFlag FLAG_CARRY (nonzero (Z.land value 0x80))) ;;
  let value :=
    to_byte (Z.lor (Z.shiftl value 1) (if oldCarry then 1 else 0)) in
  tick 1 ;;
  WriteByte address value ;;
  modify (UpdateZeroAndNegativeFlags value).

Definition ROR_ACC : M unit :=
  oldCarry <- get (GetFlag FLAG_CARRY) ;;
  a <- get A ;;
  modify (SetFlag FLAG_CARRY (nonzero (Z.land a 0x01))) ;;
  modify (set_A (to_byte (Z.lor (Z.shiftr a 1)
                                (if oldCarry then 0x80 else 0)))) ;;
  tick 1 ;;
  a' <- get A ;; modify (UpdateZeroAndNegativeFlags a').

Definition ROR_MEM (address : Address) : M unit :=
  value <- ReadByte address ;;
  oldCarry <- get (GetFlag FLAG_CARRY) ;;
  modify (SetFlag FLAG_CARRY (nonzero (Z.land value 0x01))) ;;
  let value :=
    to_byte (Z.lor (Z.shiftr value 1) (if oldCarry then 0x80 else 0)) in
  tick 1 ;;
  WriteByte address value ;;
  modify (UpdateZeroAndNegativeFlags value).

(* ================================================================== *)
(** ** Instructions.cpp: jumps, calls, branches *)

Definition JMP (address : Word) : M unit := modify (set_PC address).

Definition JSR (address : Address) : M unit :=
  tick 1 ;;
  pc <- get PC ;;
  let returnAddress := to_word (pc - 1) in
  PushWordToStack returnAddress ;;
  modify (set_PC address).

Definition RTS : M unit :=
  tick 2 ;;
  returnAddress <- PopWordFromStack ;;
  modify (set_PC (to_word (returnAddress + 1))) ;;
  tick 1.

Definition RTI : M unit :=
  tick 1 ;;
  p <- PopByteFromStack ;;
  modify (set_P p) ;;
  modify (SetFlag FLAG_UNUSED true) ;;
  pc <- PopWordFromStack ;;
  modify (set_PC pc).

Definition BranchIf (condition : bool) : M unit :=
  b <- FetchByte ;;
  let offset := to_signed_byte b in
  when condition
    (tick 1 ;;
     oldPC <- get PC ;;
     modify (set_PC (to_word (oldPC + offset))) ;;
     newPC <- get PC ;;
     when (page_differs oldPC newPC) (tick 1)).

(* ================================================================== *)
(** ** Instructions.cpp: flag and system instructions *)

Definition CLC : M unit := modify (SetFlag FLAG_CARRY false) ;; tick 1.
Definition CLD : M unit := modify (SetFlag FLAG_DECIMAL false) ;; tick 1.
Definition CLI : M unit := modify (SetFlag FLAG_INTERRUPT false) ;; tick 1.
Definition CLV : M unit := modify (SetFlag FLAG_OVERFLOW false) ;; tick 1.
Definition SEC : M unit := modify (SetFlag FLAG_CARRY true) ;; tick 1.
Definition SED : M unit := modify (SetFlag FLAG_DECIMAL true) ;; tick 1.
Definition SEI : M unit := modify (SetFlag FLAG_INTERRUPT true) ;; tick 1.

Definition BRK : M unit :=
  modify (fun c => set_PC (to_word (PC c + 1)) c) ;;
  tick 1 ;;
  pc <- get PC ;;
  PushWordToStack pc ;;
  p <- get P ;;
  let statusToStore := to_byte (Z.lor (Z.lor p FLAG_BREAK) FLAG_UNUSED) in
  PushByteToStack statusToStore ;;
  modify (SetFlag FLAG_INTERRUPT true) ;;
  pc' <- ReadWord VECTOR_IRQ_BRK ;;
  modify (set_PC pc').

Definition NOP : M unit := tick 1.

(* ================================================================== *)
(** ** Instructions.cpp: the execution loop *)

(** A C++ [switch] over integer labels: the first matching [case] runs,
    otherwise the [default]. *)
Fixpoint switch {T} (x : Z) (cases : list (Z * T)) (default : T) : T :=
  match cases with
  | [] => default
  | (label, body) :: rest =>
      if x =? label then body else switch x rest default
  end.

Notation "m >>= f" := (bind m f) (at level 50, left associativity).

(** Calls that leave out [addCycleOnPageCross]. *)
Abbreviation AddrAbsoluteX_dflt := (AddrAbsoluteX addCycleOnPageCross_default).
Abbreviation AddrAbsoluteY_dflt := (AddrAbsoluteY addCycleOnPageCross_default).
Abbreviation AddrIndirectIndexed_dflt :=
  (AddrIndirectIndexed addCycleOnPageCross_default).

(** The body of [case INS_JMP_IND]. *)
Definition JMP_IND : M unit :=
  indirectAddr <- FetchWord ;;
  if Z.land indirectAddr 0x00FF =? 0x00FF then
    lowByte <- ReadByte indirectAddr ;;
    highByte <- ReadByte (Z.land indirectAddr 0xFF00) ;;
    let targetAddr := to_word (Z.lor (Z.shiftl highByte 8) lowByte) in
    JMP targetAddr
  else
    targetAddr <- ReadWord indirectAddr ;;
    JMP targetAddr.

(** The [case] labels of [CPU::Execute] with their bodies, in source
    order. *)
Definition Execute_cases : list (Byte * M unit) :=
  [ (INS_LDA_IM, AddrImmediate >>= LDA);
    (INS_LDA_ZP, AddrZeroPage >>= LDA);
    (INS_LDA_ZPX, AddrZeroPageX >>= LDA);
    (INS_LDA_ABS, AddrAbsolute >>= LDA);
    (INS_LDA_ABSX, AddrAbsoluteX_dflt >>= LDA);
    (INS_LDA_ABSY, AddrAbsoluteY_dflt >>= LDA);
    (INS_LDA_INDX, AddrIndexedIndirect >>= LDA);
    (INS_LDA_INDY, AddrIndirectIndexed_dflt >>= LDA);

    (INS_LDX_IM, AddrImmediate >>= LDX);
    (INS_LDX_ZP, AddrZeroPage >>= LDX);
    (INS_LDX_ZPY, AddrZeroPageY >>= LDX);
    (INS_LDX_ABS, AddrAbsolute >>= LDX);
    (INS_LDX_ABSY, AddrAbsoluteY_dflt >>= LDX);

    (INS_LDY_IM, AddrImmediate >>= LDY);
    (INS_LDY_ZP, AddrZeroPage >>= LDY);
    (INS_LDY_ZPX, AddrZeroPageX >>= LDY);
    (INS_LDY_ABS, AddrAbsolute >>= LDY);
    (INS_LDY_ABSX, AddrAbsoluteX_dflt >>= LDY);

    (INS_STA_ZP, AddrZeroPage >>= STA);
    (INS_STA_ZPX, AddrZeroPageX >>= STA);
    (INS_STA_ABS, AddrAbsolute >>= STA);
    (INS_STA_ABSX, AddrAbsoluteX false >>= STA);
    (INS_STA_ABSY, AddrAbsoluteY false >>= STA);
    (INS_STA_INDX, AddrIndexedIndirect >>= STA);
    (INS_STA_INDY, AddrIndirectIndexed false >>= STA);

    (INS_STX_ZP, AddrZeroPage >>= STX);
    (INS_STX_ZPY, AddrZeroPageY >>= STX);
    (INS_STX_ABS, AddrAbsolute >>= STX);

    (INS_STY_ZP, AddrZeroPage >>= STY);
    (INS_STY_ZPX, AddrZeroPageX >>= STY);
    (INS_STY_ABS, AddrAbsolute >>= STY);

    (INS_TAX, TAX);
    (INS_TAY, TAY);
    (INS_TXA, TXA);
    (INS_TYA, TYA);
    (INS_TSX, TSX);
    (INS_TXS, TXS);

    (INS_PHA, PHA);
    (INS_PHP, PHP);
    (INS_PLA, PLA);
    (INS_PLP, PLP);

    (INS_AND_IM, AddrImmediate >>= AND);
    (INS_AND_ZP, AddrZeroPage >>= AND);
    (INS_AND_ZPX, AddrZeroPageX >>= AND);
    (INS_AND_ABS, AddrAbsolute >>= AND);
    (INS_AND_ABSX, AddrAbsoluteX_dflt >>= AND);
    (INS_AND_ABSY, AddrAbsoluteY_dflt >>= AND);
    (INS_AND_INDX, AddrIndexedIndirect >>= AND);
    (INS_AND_INDY, AddrIndirectIndexed_dflt >>= AND);

    (INS_ORA_IM, AddrImmediate >>= ORA);
    (INS_ORA_ZP, AddrZeroPage >>= ORA);
    (INS_ORA_ZPX, AddrZeroPageX >>= ORA);
    (INS_ORA_ABS, AddrAbsolute >>= ORA);
    (INS_ORA_ABSX, AddrAbsoluteX_dflt >>= ORA);
    (INS_ORA_ABSY, AddrAbsoluteY_dflt >>= ORA);
    (INS_ORA_INDX, AddrIndexedIndirect >>= ORA);
    (INS_ORA_INDY, AddrIndirectIndexed_dflt >>= ORA);

    (INS_EOR_IM, AddrImmediate >>= EOR);
    (INS_EOR_ZP, AddrZeroPage >>= EOR);
    (INS_EOR_ZPX, AddrZeroPageX >>= EOR);
    (INS_EOR_ABS, AddrAbsolute >>= EOR);
    (INS_EOR_ABSX, AddrAbsoluteX_dflt >>= EOR);
    (INS_EOR_ABSY, AddrAbsoluteY_dflt >>= EOR);
    (INS_EOR_INDX, AddrIndexedIndirect >>= EOR);
    (INS_EOR_INDY, AddrIndirectIndexed_dflt >>= EOR);

    (INS_BIT_ZP, AddrZeroPage >>= BIT);
    (INS_BIT_ABS, AddrAbsolute >>= BIT);

    (INS_ADC_IM, AddrImmediate >>= ADC);
    (INS_ADC_ZP, AddrZeroPage >>= ADC);
    (INS_ADC_ZPX, AddrZeroPageX >>= ADC);
    (INS_ADC_ABS, AddrAbsolute >>= ADC);
    (INS_ADC_ABSX, AddrAbsoluteX_dflt >>= ADC);
    (INS_ADC_ABSY, AddrAbsoluteY_dflt >>= ADC);
    (INS_ADC_INDX, AddrIndexedIndirect >>= ADC);
    (INS_ADC_INDY, AddrIndirectIndexed_dflt >>= ADC);

    (INS_SBC_IM, AddrImmediate >>= SBC);
    (INS_SBC_ZP, AddrZeroPage >>= SBC);
    (INS_SBC_ZPX, AddrZeroPageX >>= SBC);
    (INS_SBC_ABS, AddrAbsolute >>= SBC);
    (INS_SBC_ABSX, AddrAbsoluteX_dflt >>= SBC);
    (INS_SBC_ABSY, AddrAbsoluteY_dflt >>= SBC);
    (INS_SBC_INDX, AddrIndexedIndirect >>= SBC);
    (INS_SBC_INDY, AddrIndirectIndexed_dflt >>= SBC);

    (INS_CMP_IM, AddrImmediate >>= CMP);
    (INS_CMP_ZP, AddrZeroPage >>= CMP);
    (INS_CMP_ZPX, AddrZeroPageX >>= CMP);
    (INS_CMP_ABS, AddrAbsolute >>= CMP);
    (INS_CMP_ABSX, AddrAbsoluteX_dflt >>= CMP);
    (INS_CMP_ABSY, AddrAbsoluteY_dflt >>= CMP);
    (INS_CMP_INDX, AddrIndexedIndirect >>= CMP);
    (INS_CMP_INDY, AddrIndirectIndexed_dflt >>= CMP);

    (INS_CPX_IM, AddrImmediate >>= CPX);
    (INS_CPX_ZP, AddrZeroPage >>= CPX);
    (INS_CPX_ABS, AddrAbsolute >>= CPX);

    (INS_CPY_IM, AddrImmediate >>= CPY);
    (INS_CPY_ZP, AddrZeroPage >>= CPY);
    (INS_CPY_ABS, AddrAbsolute >>= CPY);

    (INS_INC_ZP, AddrZeroPage >>= INC);
    (INS_INC_ZPX, AddrZeroPageX >>= INC);
    (INS_INC_ABS, AddrAbsolute >>= INC);
    (INS_INC_ABSX, AddrAbsoluteX false >>= INC);

    (INS_INX, INX);
    (INS_INY, INY);

    (INS_DEC_ZP, AddrZeroPage >>= DEC);
    (INS_DEC_ZPX, AddrZeroPageX >>= DEC);
    (INS_DEC_ABS, AddrAbsolute >>= DEC);
    (INS_DEC_ABSX, AddrAbsoluteX false >>= DEC);

    (INS_DEX, DEX);
    (INS_DEY, DEY);

    (INS_ASL_ACC, ASL_ACC);
    (INS_ASL_ZP, AddrZeroPage >>= ASL_MEM);
    (INS_ASL_ZPX, AddrZeroPageX >>= ASL_MEM);
    (INS_ASL_ABS, AddrAbsolute >>= ASL_MEM);
    (INS_ASL_ABSX, AddrAbsoluteX false >>= ASL_MEM);

    (INS_LSR_ACC, LSR_ACC);
    (INS_LSR_ZP, AddrZeroPage >>= LSR_MEM);
    (INS_LSR_ZPX, AddrZeroPageX >>= LSR_MEM);
    (INS_LSR_ABS, AddrAbsolute >>= LSR_MEM);
    (INS_LSR_ABSX, AddrAbsoluteX false >>= LSR_MEM);

    (INS_ROL_ACC, ROL_ACC);
    (INS_ROL_ZP, AddrZeroPage >>= ROL_MEM);
    (INS_ROL_ZPX, AddrZeroPageX >>= ROL_MEM);
    (INS_ROL_ABS, AddrAbsolute >>= ROL_MEM);
    (INS_ROL_ABSX, AddrAbsoluteX false >>= ROL_MEM);

    (INS_ROR_ACC, ROR_ACC);
    (INS_ROR_ZP, AddrZeroPage >>= ROR_MEM);
    (INS_ROR_ZPX, AddrZeroPageX >>= ROR_MEM);
    (INS_ROR_ABS, AddrAbsolute >>= ROR_MEM);
    (INS_ROR_ABSX, AddrAbsoluteX false >>= ROR_MEM);

    (INS_JMP_ABS, AddrAbsolute >>= JMP);
    (INS_JMP_IND, JMP_IND);
    (INS_JSR, AddrAbsolute >>= JSR);
    (INS_RTS, RTS);
    (INS_RTI, RTI);

    (INS_BCC, f <- get (GetFlag FLAG_CARRY) ;; BranchIf (negb f));
    (INS_BCS, f <- get (GetFlag FLAG_CARRY) ;; BranchIf f);
    (INS_BEQ, f <- get (GetFlag FLAG_ZERO) ;; BranchIf f);
    (INS_BMI, f <- get (GetFlag FLAG_NEGATIVE) ;; BranchIf f);
    (INS_BNE, f <- get (GetFlag FLAG_ZERO) ;; BranchIf (negb f));
    (INS_BPL, f <- get (GetFlag FLAG_NEGATIVE) ;; BranchIf (negb f));
    (INS_BVC, f <- get (GetFlag FLAG_OVERFLOW) ;; BranchIf (negb f));
    (INS_BVS, f <- get (GetFlag FLAG_OVERFLOW) ;; BranchIf f);

    (INS_CLC, CLC);
    (INS_CLD, CLD);
    (INS_CLI, CLI);
    (INS_CLV, CLV);
    (INS_SEC, SEC);
    (INS_SED, SED);
    (INS_SEI, SEI);

    (INS_BRK, BRK);
    (INS_NOP, NOP) ].

(** The [default:] label of the switch: [cyclesUsed++]. *)
Definition Execute_default : M unit := tick 1.

(** [Cycles CPU::Execute(Memory& memory)]: one instruction. *)
Definition Execute (c : CPU) (m : Memory) : Cycles * CPU * Memory :=
  let s := mkState c m 0 in
  let '(opcode, s) := FetchByte s in
  let '(_, s) := switch opcode Execute_cases Execute_default s in
  let c := cpu s in
  let c := set_TotalCycles (to_cycles (TotalCycles c + cycles s)) c in
  (cycles s, c, memory s).

(** [Cycles CPU::Execute(Cycles cycles, Memory& memory)]: the [while]
    loop, unrolled at most [fuel] times; [None] when the loop is still
    running after [fuel] instructions. *)
Fixpoint Execute_loop (fuel : nat) (cycles cyclesExecuted : Cycles)
         (c : CPU) (m : Memory) : option (Cycles * CPU * Memory) :=
  if cyclesExecuted <? cycles then
    match fuel with
    | O => None
    | S fuel =>
        let '(instructionCycles, c, m) := Execute c m in
        Execute_loop fuel cycles
                     (to_cycles (cyclesExecuted + instructionCycles)) c m
    end
  else Some (cyclesExecuted, c, m).

Definition Execute_cycles (fuel : nat) (cycles : Cycles)
           (c : CPU) (m : Memory) : option (Cycles * CPU * Memory) :=
  Execute_loop fuel cycles 0 c m.

(* ================================================================== *)
(** ** Host-side helpers, after [main.cpp] *)

Definition poke (m : Memory) (address : Address) (bytes : list Byte) : Memory :=
  fst (fold_left (fun '(m, a) b => (store m a b, a + 1)) bytes (m, address)).

Fixpoint steps (n : nat) (c : CPU) (m : Memory) : CPU * Memory :=
  match n with
  | O => (c, m)
  | S n => let '(_, c, m) := Execute c m in steps n c m
  end.

Definition boot (program : list Byte) : CPU * Memory :=
  let m := poke Memory_new VECTOR_RESET [0x00; 0x10] in
  let m := poke m 0x1000 program in
  Reset CPU_new m.


(* ================================================================== *)
(** * Definitions used in the statements *)

(** ** Well-formed data *)

Definition is_byte (b : Z) : Prop := 0 <= b < 256.
Definition is_word (w : Z) : Prop := 0 <= w < 65536.

(** Every cell of the array holds a [Byte]. *)
Definition wf_memory (m : Memory) : Prop := forall a, is_byte (data m a).

(** ** Opcodes *)

(** The opcodes the switch knows: its [case] labels. *)
Definition legal_opcodes : list Byte := map fst Execute_cases.

Definition is_legal_opcode (opcode : Byte) : bool :=
  existsb (Z.eqb opcode) legal_opcodes.

Fixpoint distinct (l : list Z) : bool :=
  match l with
  | [] => true
  | x :: l => negb (existsb (Z.eqb x) l) && distinct l
  end.

(** ** Branches *)

(** The condition each branch opcode tests. *)
Definition branch_condition (opcode : Byte) (c : CPU) : option bool :=
  if opcode =? INS_BCC then Some (negb (GetFlag FLAG_CARRY c))
  else if opcode =? INS_BCS then Some (GetFlag FLAG_CARRY c)
  else if opcode =? INS_BEQ then Some (GetFlag FLAG_ZERO c)
  else if opcode =? INS_BNE then Some (negb (GetFlag FLAG_ZERO c))
  else if opcode =? INS_BMI then Some (GetFlag FLAG_NEGATIVE c)
  else if opcode =? INS_BPL then Some (negb (GetFlag FLAG_NEGATIVE c))
  else if opcode =? INS_BVC then Some (negb (GetFlag FLAG_OVERFLOW c))
  else if opcode =? INS_BVS then Some (GetFlag FLAG_OVERFLOW c)
  else None.

(** What a branch is specified to do, given the PC just past its offset
    byte and the sign-extended offset: the cycles of the step and the new
    PC.  Two addresses are on the same page when their high bytes agree. *)
Definition branch_outcome (taken : bool) (next : Address) (offset : SignedByte)
  : Cycles * Word :=
  if taken then
    let target := to_word (next + offset) in
    (if next / 256 =? target / 256 then 3 else 4, target)
  else (2, next).

(** ** The Unused flag *)

(** Bit 5 of P reads 1. *)
Definition unused_set (c : CPU) : Prop := Z.testbit (P c) 5 = true.

(** A computation keeps a property of the register file. *)
Definition preserves (I : CPU -> Prop) {T} (m : M T) : Prop :=
  forall s, I (cpu s) -> I (cpu (snd (m s))).

(** ** Cycle accounting *)

(** A computation adds between [lo] and [hi] cycles to the counter it is
    given, as long as the counter cannot overflow on the way. *)
Definition charges (lo hi : Z) {T} (m : M T) : Prop :=
  forall s, 0 <= cycles s -> cycles s + hi < 2 ^ 64 ->
            cycles s + lo <= cycles (snd (m s)) <= cycles s + hi.

(** [n] whole instructions in a row, their cycles added up in a 64-bit
    counter that starts at [executed]. *)
Fixpoint Execute_n (n : nat) (executed : Cycles) (c : CPU) (m : Memory)
  : Cycles * CPU * Memory :=
  match n with
  | O => (executed, c, m)
  | S n => let '(k, c, m) := Execute c m in
           Execute_n n (to_cycles (executed + k)) c m
  end.

(** What the loop of [Execute_cycles] has done when it stops: it ran [n]
    whole instructions; if [n] is not 0, before the last one the count was
    still under the budget, and the returned count adds that instruction's
    cycles to it. *)
Definition stops_after (budget executed : Cycles) (c : CPU) (m : Memory)
           (n : nat) : Prop :=
  match n with
  | O => budget <= executed
  | S n' =>
      let '(e0, c0, m0) := Execute_n n' executed c m in
      let k := fst (fst (Execute c0 m0)) in
      e0 < budget /\ budget <= e0 + k /\
      fst (fst (Execute_n n executed c m)) = e0 + k
  end.

(** A memory holding NOP in every cell. *)
Definition nop_memory : Memory := mkMemory (fun _ => INS_NOP).

(** ** Decimal arithmetic *)

(** What an ADC or SBC leaves to be seen: A and the flags C, N, Z, V. *)
Record ALU : Type := mkALU {
  alu_A : Byte; alu_C : bool; alu_N : bool; alu_Z : bool; alu_V : bool
}.

Definition observe (c : CPU) : ALU :=
  mkALU (A c) (GetFlag FLAG_CARRY c) (GetFlag FLAG_NEGATIVE c)
        (GetFlag FLAG_ZERO c) (GetFlag FLAG_OVERFLOW c).

(** The intermediate result of decimal ADC: the low nibbles and the carry
    are added, 6 is added if that exceeds 9, and the outcome is combined
    with the high nibbles. *)
Definition ADC_decimal_intermediate (a m : Byte) (carry : bool) : Z :=
  let lo := a mod 16 + m mod 16 + (if carry then 1 else 0) in
  let lo := if 9 <? lo then lo + 6 else lo in
  16 * (a / 16) + 16 * (m / 16) + (if 15 <? lo then 16 else 0) + lo mod 16.

(** Decimal ADC in the words of the specification, the BCD addition of
    the NMOS 6502: N, Z and V come from the intermediate result [r]; 0x60
    is added if the part of [r] above its low nibble exceeds 9, that is
    if [r] is 0xA0 or more; C is set iff the final result exceeds 0x99. *)
Definition ADC_decimal_spec (a m : Byte) (carry : bool) : ALU :=
  let r := ADC_decimal_intermediate a m carry in
  let final := if 9 <? r / 16 then r + 0x60 else r in
  mkALU (final mod 256) (0x99 <? final)
        (Z.testbit r 7) (r mod 256 =? 0)
        (Z.testbit (Z.land (Z.lxor a r) (Z.lxor m r)) 7).

(** The overflow rule of binary SBC:
    [(A ^ sum) & ((M ^ 0xFF) ^ sum) & 0x80], with [sum = A + (M ^ 0xFF) + C]. *)
Definition SBC_overflow_rule (a m : Byte) (carry : bool) : bool :=
  let sum := a + Z.lxor m 0xFF + (if carry then 1 else 0) in
  nonzero (Z.land (Z.land (Z.lxor a sum) (Z.lxor (Z.lxor m 0xFF) sum)) 0x80).

(** ** Concrete machines *)

(** ADC #$27 with A = 0x15, D set and C clear. *)
Definition bcd_add_case : CPU * Memory :=
  (set_PC 0x1000 (set_A 0x15 (set_P 0x28 CPU_new)),
   poke Memory_new 0x1000 [INS_ADC_IM; 0x27]).

(** ADC #$90 with A = 0x90, D set and C clear: 90 + 90 in decimal. *)
Definition bcd_carry_case : CPU * Memory :=
  (set_PC 0x1000 (set_A 0x90 (set_P 0x28 CPU_new)),
   poke Memory_new 0x1000 [INS_ADC_IM; 0x90]).

(** SBC #$01 with A = 0x80, D and C set, V clear: 80 - 01 in decimal. *)
Definition sbc_overflow_case : CPU * Memory :=
  (set_PC 0x1000 (set_A 0x80 (set_P 0x29 CPU_new)),
   poke Memory_new 0x1000 [INS_SBC_IM; 0x01]).


(** STA $10F0,X with X = 0x20: the store crosses into page 0x11. *)
Definition crossing_store : CPU * Memory :=
  (set_X 0x20 (set_PC 0x1000 CPU_new),
   poke Memory_new 0x1000 [INS_STA_ABSX; 0xF0; 0x10]).

(** BNE -5 at 0x1005 with Z clear, the loop of [main.cpp]. *)
Definition loop_branch : CPU * Memory :=
  (set_PC 0x1005 (set_P 0x20 CPU_new),
   poke Memory_new 0x1005 [INS_BNE; 0xFB]).

(** JMP ($10FF) with 0x34 at 0x10FF, 0x56 at 0x1000 and 0x12 at 0x1100. *)
Definition jmp_page_end : CPU * Memory :=
  (set_PC 0x2000 CPU_new,
   poke (poke (poke (poke Memory_new 0x2000 [INS_JMP_IND; 0xFF; 0x10])
                    0x10FF [0x34]) 0x1000 [0x56]) 0x1100 [0x12]).

(** ** Flags and registers *)

(** The eight masks of [StatusFlags]. *)
Definition all_flags : list Byte :=
  [FLAG_CARRY; FLAG_ZERO; FLAG_INTERRUPT; FLAG_DECIMAL;
   FLAG_BREAK; FLAG_UNUSED; FLAG_OVERFLOW; FLAG_NEGATIVE].

(** ** More concrete machines *)

(** PHA; PLA at 0x1000 with A = 0x42. *)
Definition pha_pla_case : CPU * Memory :=
  (set_A 0x42 (set_SP 0xFD (set_PC 0x1000 CPU_new)),
   poke Memory_new 0x1000 [INS_PHA; INS_PLA]).

(** JSR $2000 at 0x1000 and RTS at 0x2000. *)
Definition jsr_rts_case : CPU * Memory :=
  (set_SP 0xFD (set_PC 0x1000 CPU_new),
   poke (poke Memory_new 0x1000 [INS_JSR; 0x00; 0x20]) 0x2000 [INS_RTS]).


(** ** What a step leaves alone *)

(** A computation relates the state it leaves to the state it found. *)
Definition frame (R : State -> State -> Prop) {T} (m : M T) : Prop :=
  forall s, R s (snd (m s)).

Definition same_memory (s s' : State) : Prop := memory s' = memory s.
Definition same_TotalCycles (s s' : State) : Prop :=
  TotalCycles (cpu s') = TotalCycles (cpu s).

(** The opcodes whose instruction writes to memory. *)
Definition writing_opcodes : list Byte :=
  [INS_STA_ZP; INS_STA_ZPX; INS_STA_ABS; INS_STA_ABSX; INS_STA_ABSY;
   INS_STA_INDX; INS_STA_INDY;
   INS_STX_ZP; INS_STX_ZPY; INS_STX_ABS; INS_STY_ZP; INS_STY_ZPX; INS_STY_ABS;
   INS_INC_ZP; INS_INC_ZPX; INS_INC_ABS; INS_INC_ABSX;
   INS_DEC_ZP; INS_DEC_ZPX; INS_DEC_ABS; INS_DEC_ABSX;
   INS_ASL_ZP; INS_ASL_ZPX; INS_ASL_ABS; INS_ASL_ABSX;
   INS_LSR_ZP; INS_LSR_ZPX; INS_LSR_ABS; INS_LSR_ABSX;
   INS_ROL_ZP; INS_ROL_ZPX; INS_ROL_ABS; INS_ROL_ABSX;
   INS_ROR_ZP; INS_ROR_ZPX; INS_ROR_ABS; INS_ROR_ABSX;
   INS_PHA; INS_PHP; INS_JSR; INS_BRK].

Definition is_writing_opcode (opcode : Byte) : bool :=
  existsb (Z.eqb opcode) writing_opcodes.


(** ** Loads *)

(** What a load leaves in the flags. *)
Definition loaded (v : Byte) (c' : CPU) : Prop :=
  GetFlag FLAG_ZERO c' = (v =? 0) /\ GetFlag FLAG_NEGATIVE c' = Z.testbit v 7.

(** LDA $10F0,X with X = 0x20 and 0x99 at 0x1110. *)
Definition lda_absx_case : CPU * Memory :=
  (set_X 0x20 (set_PC 0x1000 CPU_new),
   poke (poke Memory_new 0x1000 [INS_LDA_ABSX; 0xF0; 0x10]) 0x1110 [0x99]).

(** LDA $F0,X with X = 0x20: the address wraps to 0x10. *)
Definition lda_zpx_case : CPU * Memory :=
  (set_X 0x20 (set_PC 0x1000 CPU_new),
   poke (poke Memory_new 0x1000 [INS_LDA_ZPX; 0xF0]) 0x0010 [0x77]).

(** LDA ($FF,X) with X = 0: the pointer's high byte comes from 0x00. *)
Definition lda_indx_case : CPU * Memory :=
  (set_PC 0x1000 CPU_new,
   poke (poke (poke (poke Memory_new 0x1000 [INS_LDA_INDX; 0xFF])
                    0x00FF [0x34]) 0x0000 [0x12]) 0x1234 [0x5A]).

(** LDA ($FF),Y with Y = 0x10: base 0x12F8, crossing into page 0x13. *)
Definition lda_indy_case : CPU * Memory :=
  (set_Y 0x10 (set_PC 0x1000 CPU_new),
   poke (poke (poke (poke Memory_new 0x1000 [INS_LDA_INDY; 0xFF])
                    0x00FF [0xF8]) 0x0000 [0x12]) 0x1308 [0x5A]).


(** ** Binary arithmetic and comparisons *)

(** Binary ADC as arithmetic: the 9-bit sum gives A and C, and V tells
    whether the sum of the operands read as signed bytes leaves
    -128..127. *)
Definition ADC_binary_spec (a m : Byte) (carry : bool) : ALU :=
  let cin := if carry then 1 else 0 in
  let sum := a + m + cin in
  let signed := to_signed_byte a + to_signed_byte m + cin in
  mkALU (sum mod 256) (255 <? sum)
        (128 <=? sum mod 256) (sum mod 256 =? 0)
        (negb ((-128 <=? signed) && (signed <=? 127))).

(** Binary SBC as arithmetic: A - M - (1 - C), with C telling that no
    borrow was needed and V that the signed difference leaves -128..127. *)
Definition SBC_binary_spec (a m : Byte) (carry : bool) : ALU :=
  let borrow := if carry then 0 else 1 in
  let diff := a - m - borrow in
  let signed := to_signed_byte a - to_signed_byte m - borrow in
  mkALU (diff mod 256) (0 <=? diff)
        (128 <=? diff mod 256) (diff mod 256 =? 0)
        (negb ((-128 <=? signed) && (signed <=? 127))).

(** What a comparison leaves in the flags. *)
Definition compared (r m : Byte) (c' : CPU) : Prop :=
  GetFlag FLAG_CARRY c' = (m <=? r) /\
  GetFlag FLAG_ZERO c' = (r =? m) /\
  GetFlag FLAG_NEGATIVE c' = (128 <=? (r - m) mod 256).

(** Every register but P and the cycle total is as it was. *)
Definition same_registers (c c' : CPU) : Prop :=
  A c' = A c /\ X c' = X c /\ Y c' = Y c /\ SP c' = SP c /\ PC c' = PC c.

(** 0x50 + 0x50 with C clear: signed overflow. *)
Definition adc_binary_case : State :=
  mkState (set_A 0x50 (set_P 0x20 CPU_new)) (store Memory_new 0x0010 0x50) 0.

(** 0x50 - 0xB0 with C set: borrow and signed overflow. *)
Definition sbc_binary_case : State :=
  mkState (set_A 0x50 (set_P 0x21 CPU_new)) (store Memory_new 0x0010 0xB0) 0.


(** ** Binary-coded decimal *)

(** A byte whose two nibbles are decimal digits. *)
Definition is_bcd (b : Z) : Prop := 0 <= b / 16 <= 9 /\ b mod 16 <= 9.

(** The number 0..99 a BCD byte stands for, and back. *)
Definition bcd_value (b : Byte) : Z := 10 * (b / 16) + b mod 16.
Definition bcd_encode (n : Z) : Byte := 16 * (n / 10) + n mod 10.

(** The hundred BCD bytes. *)
Definition bcd_bytes : list Byte := map bcd_encode (map Z.of_nat (seq 0 100)).

(** 90 + 90 in decimal mode, C clear. *)
Definition bcd_overflow_case : State :=
  mkState (set_A 0x90 (set_P 0x28 CPU_new)) (store Memory_new 0x0010 0x90) 0.

(** 42 - 17 in decimal mode, C set. *)
Definition bcd_sub_case : State :=
  mkState (set_A 0x42 (set_P 0x29 CPU_new)) (store Memory_new 0x0010 0x17) 0.

(** ** Further scenarios and tables *)

(** The 256 byte values. *)
Definition all_bytes : list Byte := map Z.of_nat (seq 0 256).

(** ROL A at 0x1000 and ROR A at 0x1001. *)
Definition rol_ror_case : CPU * Memory :=
  (set_A 0xB5 (set_P 0x21 (set_PC 0x1000 CPU_new)),
   poke Memory_new 0x1000 [INS_ROL_ACC; INS_ROR_ACC]).

(** ROL then ROR on a byte, as a check to run on every byte. *)
Definition rotate_check (carry : bool) (a : Z) : bool :=
  let a' := to_byte (Z.lor (Z.shiftl a 1) (if carry then 1 else 0)) in
  (to_byte (Z.lor (Z.shiftr a' 1)
                  (if nonzero (Z.land a 0x80) then 0x80 else 0)) =? a)
  && Bool.eqb (nonzero (Z.land a' 0x01)) carry.

(** PHP at 0x1000 and PLP at 0x1001. *)
Definition php_plp_case : CPU * Memory :=
  (set_P 0xC3 (set_SP 0xFD (set_PC 0x1000 CPU_new)),
   poke Memory_new 0x1000 [INS_PHP; INS_PLP]).

(** BRK at 0x1000 with the IRQ/BRK vector pointing to an RTI at 0x3000. *)
Definition brk_rti_case : CPU * Memory :=
  (set_P 0x21 (set_SP 0xFD (set_PC 0x1000 CPU_new)),
   poke (poke (poke Memory_new 0x1000 [INS_BRK]) 0x3000 [INS_RTI])
        VECTOR_IRQ_BRK [0x00; 0x30]).

(** The status byte PHP and BRK store, and what PLP and RTI make of it. *)
Definition status_check (p : Z) : bool :=
  to_byte (Z.lor (to_byte (Z.lor (Z.lor p FLAG_BREAK) FLAG_UNUSED)) FLAG_UNUSED)
  =? Z.lor p 0x30.

Definition stored_check (p : Z) : bool :=
  to_byte (Z.lor (Z.lor p FLAG_BREAK) FLAG_UNUSED) =? Z.lor p 0x30.

(** [main.cpp], Example_LoopTest: the program it writes at 0x1000, its
    [while (cpu.PC != 0x1007 && iteration < maxIterations)] loop and the
    step after it. *)
Definition LoopTest_program : list Byte :=
  [INS_LDX_IM; 0x00; INS_INX; INS_CPX_IM; 0x05; INS_BNE; 0xFA; INS_NOP].

(** [remaining] is [maxIterations - iteration]. *)
Fixpoint LoopTest_while (remaining : nat) (iteration : Z)
         (c : CPU) (m : Memory) : Z * CPU * Memory :=
  match remaining with
  | O => (iteration, c, m)
  | S remaining =>
      if negb (PC c =? 0x1007) then
        let '(_, c, m) := Execute c m in
        LoopTest_while remaining (iteration + 1) c m
      else (iteration, c, m)
  end.

Definition LoopTest_run (maxIterations : nat) : Z * CPU * Memory :=
  let '(c, m) := boot LoopTest_program in
  let '(iteration, c, m) := LoopTest_while maxIterations 0 c m in
  let '(_, c, m) := Execute c m in
  (iteration, c, m).

Definition Example_LoopTest : Z * CPU * Memory := LoopTest_run 50.

(** The state the example falls into: PC at 0x0000 where a BRK lies, and
    the IRQ/BRK vector pointing back to 0x0000. *)
Definition breaking (c : CPU) (m : Memory) : Prop :=
  PC c = 0 /\ X c = 1 /\ is_byte (SP c) /\ data m 0 = INS_BRK /\
  data m VECTOR_IRQ_BRK = 0 /\ data m (to_word (VECTOR_IRQ_BRK + 1)) = 0.

(** Every register holds a value of its C++ type: [Byte] registers below
    2^8, [PC] below 2^16, [TotalCycles] below 2^64. *)
Definition wf_cpu (c : CPU) : Prop :=
  is_byte (A c) /\ is_byte (X c) /\ is_byte (Y c) /\ is_word (PC c) /\
  is_byte (SP c) /\ is_byte (P c) /\ 0 <= TotalCycles c < 2 ^ 64.

Definition wf_state (s : State) : Prop :=
  wf_cpu (cpu s) /\ wf_memory (memory s) /\ 0 <= cycles s < 2 ^ 64.

(** A computation keeps the state within those widths and returns a
    value satisfying [Q]. *)
Definition in_range {T} (Q : T -> Prop) (m : M T) : Prop :=
  forall s, wf_state s -> Q (fst (m s)) /\ wf_state (snd (m s)).

(** STA $10 at 0x1000 and LDX $10 at 0x1002. *)
Definition sta_ldx_case : CPU * Memory :=
  (set_A 0x9C (set_PC 0x1000 CPU_new),
   poke Memory_new 0x1000 [INS_STA_ZP; 0x10; INS_LDX_ZP; 0x10]).

(** INC $10 at 0x1000 and DEC $10 at 0x1002, with 0xFF in the cell. *)
Definition inc_dec_case : CPU * Memory :=
  (set_PC 0x1000 CPU_new,
   poke (poke Memory_new 0x1000 [INS_INC_ZP; 0x10; INS_DEC_ZP; 0x10])
        0x10 [0xFF]).

(** EOR #$5A twice. *)
Definition eor_eor_case : CPU * Memory :=
  (set_A 0xC3 (set_PC 0x1000 CPU_new),
   poke Memory_new 0x1000 [INS_EOR_IM; 0x5A; INS_EOR_IM; 0x5A]).

(** The opcodes whose cost depends on the state: the reads with a
    page-cross penalty and the branches. *)
Definition variable_cost_opcodes : list Byte :=
  [INS_LDA_ABSX; INS_LDA_ABSY; INS_LDA_INDY; INS_LDX_ABSY; INS_LDY_ABSX;
   INS_AND_ABSX; INS_AND_ABSY; INS_AND_INDY;
   INS_ORA_ABSX; INS_ORA_ABSY; INS_ORA_INDY;
   INS_EOR_ABSX; INS_EOR_ABSY; INS_EOR_INDY;
   INS_ADC_ABSX; INS_ADC_ABSY; INS_ADC_INDY;
   INS_SBC_ABSX; INS_SBC_ABSY; INS_SBC_INDY;
   INS_CMP_ABSX; INS_CMP_ABSY; INS_CMP_INDY;
   INS_BCC; INS_BCS; INS_BEQ; INS_BMI; INS_BNE; INS_BPL; INS_BVC; INS_BVS].

Definition has_variable_cost (opcode : Byte) : bool :=
  existsb (Z.eqb opcode) variable_cost_opcodes.

(** The opcodes that load PC with something else than the address of the
    next instruction. *)
Definition control_flow_opcodes : list Byte :=
  [INS_JMP_ABS; INS_JMP_IND; INS_JSR; INS_RTS; INS_RTI; INS_BRK;
   INS_BCC; INS_BCS; INS_BEQ; INS_BMI; INS_BNE; INS_BPL; INS_BVC; INS_BVS].

Definition changes_flow (opcode : Byte) : bool :=
  existsb (Z.eqb opcode) control_flow_opcodes.

(** Cost and length of an opcode, read off a step on registers as
    constructed over a memory holding the opcode byte in every cell. *)
Definition opcode_cost (opcode : Byte) : Cycles :=
  fst (fst (Execute CPU_new (mkMemory (fun _ => opcode)))).

Definition opcode_length (opcode : Byte) : Z :=
  PC (snd (fst (Execute CPU_new (mkMemory (fun _ => opcode))))).

(** LDA #$80 at 0x1000. *)
Definition lda_im_case : CPU * Memory :=
  (set_PC 0x1000 CPU_new, poke Memory_new 0x1000 [INS_LDA_IM; 0x80]).

(** A computation moves PC on by [n] bytes (in 16-bit arithmetic). *)
Definition advances (n : Z) {T} (m : M T) : Prop :=
  forall s, is_word (PC (cpu s)) ->
            PC (cpu (snd (m s))) = to_word (PC (cpu s) + n).

(* ================================================================== *)
(** * Properties *)

(** ** The scenarios of [main.cpp] *)

Example LoadStoreTest :
  let '(c, m) := boot [INS_LDA_IM; 0x42; INS_STA_ABS; 0x00; 0x02;
                       INS_LDA_ABS; 0x00; 0x02; INS_LDX_IM; 0xFF;
                       INS_LDY_IM; 0x0E; INS_NOP] in
  let '(c, m) := steps 5 c m in
  (A c, X c, Y c, data m 0x0200, PC c) = (0x42, 0xFF, 0x0E, 0x42, 0x100C).
Proof. vm_compute. reflexivity. Qed.

Example ArithmeticTest :
  let '(c, m) := boot [INS_CLC; INS_LDA_IM; 0x05; INS_ADC_IM; 0x03; INS_NOP] in
  let '(c, m) := steps 3 c m in
  (A c, GetFlag FLAG_CARRY c, GetFlag FLAG_ZERO c) = (0x08, false, false).
Proof. vm_compute. reflexivity. Qed.

Example LoopTest :
  let '(c, m) := boot [INS_LDX_IM; 0x00; INS_INX; INS_CPX_IM; 0x05;
                       INS_BNE; 0xFB; INS_NOP] in
  let '(c, m) := steps 16 c m in
  (X c, PC c, GetFlag FLAG_ZERO c) = (0x05, 0x1007, true).
Proof. vm_compute. reflexivity. Qed.

(** ** Well-formed data *)

Lemma to_byte_is_byte z : is_byte (to_byte z).
Proof. unfold is_byte, to_byte. apply Z.mod_pos_bound. lia. Qed.

Lemma to_word_is_word z : is_word (to_word z).
Proof. unfold is_word, to_word. apply Z.mod_pos_bound. lia. Qed.

Lemma to_cycles_range z : 0 <= to_cycles z < 2 ^ 64.
Proof. unfold to_cycles. apply Z.mod_pos_bound. lia. Qed.

Lemma to_cycles_small z : 0 <= z < 2 ^ 64 -> to_cycles z = z.
Proof. intros. unfold to_cycles. apply Z.mod_small. assumption. Qed.

Lemma to_word_small z : is_word z -> to_word z = z.
Proof. intros. unfold to_word. apply Z.mod_small. assumption. Qed.

Lemma to_byte_small z : is_byte z -> to_byte z = z.
Proof. intros. unfold to_byte. apply Z.mod_small. assumption. Qed.

Lemma to_cycles_add_l a b : to_cycles (to_cycles a + b) = to_cycles (a + b).
Proof. unfold to_cycles. apply Zplus_mod_idemp_l. Qed.

Lemma to_word_add_l a b : to_word (to_word a + b) = to_word (a + b).
Proof. unfold to_word. apply Zplus_mod_idemp_l. Qed.

Lemma wf_memory_new : wf_memory Memory_new.
Proof. intros a. cbn. unfold is_byte. lia. Qed.

Lemma wf_memory_store m a v : wf_memory m -> is_byte v -> wf_memory (store m a v).
Proof.
  intros Hm Hv x. cbn. destruct (x =? a); [assumption | apply Hm].
Qed.

(** ** Bits *)

Lemma byte_bits_high b n : is_byte b -> 8 <= n -> Z.testbit b n = false.
Proof.
  intros Hb Hn. rewrite <- (Z.mod_small b (2 ^ 8)) by exact Hb.
  apply Z.mod_pow2_bits_high. lia.
Qed.

(** The little-endian word built from two bytes, as the code builds it with
    a shift and an or, is [lo + 256 * hi]. *)
Lemma word_of_bytes lo hi :
  is_byte lo -> is_byte hi ->
  to_word (Z.lor (Z.shiftl hi 8) lo) = lo + 256 * hi.
Proof.
  intros Hlo Hhi.
  assert (Hdisj : Z.land (Z.shiftl hi 8) lo = 0).
  { apply Z.bits_inj'. intros n Hn.
    rewrite Z.land_spec, Z.bits_0.
    destruct (Z.ltb_spec n 8).
    - rewrite Z.shiftl_spec_low by assumption. reflexivity.
    - rewrite (byte_bits_high lo n) by assumption. apply andb_false_r. }
  rewrite <- Z.lxor_lor, <- Z.add_nocarry_lxor by assumption.
  rewrite Z.shiftl_mul_pow2 by lia.
  unfold is_byte in *. change (2 ^ 8) with 256.
  rewrite to_word_small by (unfold is_word; lia). lia.
Qed.

Lemma land_pow2 p i :
  0 <= i -> Z.land p (2 ^ i) = if Z.testbit p i then 2 ^ i else 0.
Proof.
  intros Hi. apply Z.bits_inj'. intros n Hn.
  rewrite Z.land_spec, Z.pow2_bits_eqb by assumption.
  destruct (Z.eqb_spec i n) as [->|Hne].
  - rewrite andb_true_r. destruct (Z.testbit p n) eqn:E.
    + rewrite Z.pow2_bits_true by assumption. reflexivity.
    + rewrite Z.bits_0. reflexivity.
  - rewrite andb_false_r. destruct (Z.testbit p i).
    + rewrite Z.pow2_bits_false by assumption. reflexivity.
    + rewrite Z.bits_0. reflexivity.
Qed.

Lemma nonzero_land_pow2 p i : 0 <= i -> nonzero (Z.land p (2 ^ i)) = Z.testbit p i.
Proof.
  intros Hi. unfold nonzero. rewrite land_pow2 by assumption.
  destruct (Z.testbit p i); [|reflexivity].
  assert (0 < 2 ^ i) by (apply Z.pow_pos_nonneg; lia).
  destruct (Z.eqb_spec (2 ^ i) 0); [lia | reflexivity].
Qed.

(** ** Flags, bit by bit *)

Lemma GetFlag_testbit i c : 0 <= i -> GetFlag (2 ^ i) c = Z.testbit (P c) i.
Proof. intros. unfold GetFlag. apply nonzero_land_pow2. assumption. Qed.

Lemma SetFlag_testbit i b c j :
  0 <= i -> 0 <= j < 8 ->
  Z.testbit (P (SetFlag (2 ^ i) b c)) j =
  if j =? i then b else Z.testbit (P c) j.
Proof.
  intros Hi Hj. unfold SetFlag, to_byte.
  destruct b; cbn [P set_P]; change 256 with (2 ^ 8);
    rewrite Z.mod_pow2_bits_low by lia.
  - rewrite Z.lor_spec, Z.pow2_bits_eqb by assumption.
    rewrite (Z.eqb_sym i j). destruct (j =? i); [apply orb_true_r | apply orb_false_r].
  - rewrite Z.land_spec, Z.lnot_spec, Z.pow2_bits_eqb by lia.
    rewrite (Z.eqb_sym i j). destruct (j =? i); [apply andb_false_r | apply andb_true_r].
Qed.

Lemma GetFlag_SetFlag i j b c :
  0 <= i -> 0 <= j < 8 ->
  GetFlag (2 ^ j) (SetFlag (2 ^ i) b c) =
  if j =? i then b else GetFlag (2 ^ j) c.
Proof.
  intros Hi Hj. rewrite !GetFlag_testbit by lia. apply SetFlag_testbit; assumption.
Qed.

Lemma SetFlag_regs flag b c :
  A (SetFlag flag b c) = A c /\ X (SetFlag flag b c) = X c /\
  Y (SetFlag flag b c) = Y c /\ PC (SetFlag flag b c) = PC c /\
  SP (SetFlag flag b c) = SP c /\
  TotalCycles (SetFlag flag b c) = TotalCycles c.
Proof. unfold SetFlag. destruct b; cbn; repeat split. Qed.

(** ** Running one instruction symbolically *)

Lemma to_cycles_add_add a b c :
  to_cycles (to_cycles (a + b) + c) = to_cycles (a + (b + c)).
Proof. rewrite to_cycles_add_l. apply (f_equal to_cycles). lia. Qed.

(** [Execute] after its opcode fetch: what remains is the switch. *)
Lemma Execute_eq c m :
  Execute c m =
  let s1 := mkState (set_PC (to_word (PC c + 1)) c) m (to_cycles (0 + 1)) in
  let s2 := snd (switch (data m (PC c)) Execute_cases Execute_default s1) in
  (cycles s2,
   set_TotalCycles (to_cycles (TotalCycles (cpu s2) + cycles s2)) (cpu s2),
   memory s2).
Proof.
  unfold Execute.
  cbv [FetchByte bind get ReadByte Mem.ReadByte modify ret].
  cbn [cpu memory cycles PC set_PC].
  destruct (@switch (M unit) _ _ _ _) as [u s2]. reflexivity.
Qed.

Ltac proj :=
  cbn [cpu memory cycles fst snd A X Y PC SP P TotalCycles
       set_A set_X set_Y set_PC set_SP set_P set_TotalCycles].

(** Unfold the monadic code down to register, memory and counter
    expressions; flag and width functions stay folded. *)
Ltac run :=
  cbv [bind ret get modify when tick ReadByte WriteByte ReadWord
       Mem.ReadByte Mem.WriteByte Mem.ReadWord
       FetchByte FetchWord PushByteToStack PushWordToStack
       PopByteFromStack PopWordFromStack
       AddrImmediate AddrZeroPage AddrZeroPageX AddrZeroPageY AddrAbsolute
       AddrAbsoluteX AddrAbsoluteY AddrIndexedIndirect AddrIndirectIndexed
       LDA LDX LDY STA STX STY TAX TAY TXA TYA TSX TXS PHA PHP PLA PLP
       AND ORA EOR BIT ADC SBC CMP CPX CPY INC INX INY DEC DEX DEY
       ASL_ACC ASL_MEM LSR_ACC LSR_MEM ROL_ACC ROL_MEM ROR_ACC ROR_MEM
       JMP JMP_IND JSR RTS RTI BranchIf CLC CLD CLI CLV SEC SED SEI BRK NOP
       Execute_default];
  proj.

(** Select a [case]: the opcode at PC is given by [H], and [body] is the
    body the switch runs for it. *)
Ltac dispatch H body :=
  rewrite Execute_eq, H;
  match goal with
  | |- context [@switch ?T ?x ?cs ?d] => change (@switch T x cs d) with body
  end.

(* ------------------------------------------------------------------ *)
(** ** Reset *)

(** C8: for every memory image, [Reset] loads PC with the little-endian
    word stored at 0xFFFC/0xFFFD, sets SP to 0xFD and P to 0x24, zeroes A,
    X and Y, and adds 8 to the 64-bit counter [TotalCycles]. *)
Theorem Reset_state c m :
  wf_memory m ->
  let c' := fst (Reset c m) in
  PC c' = data m 0xFFFC + 256 * data m 0xFFFD /\
  SP c' = 0xFD /\ P c' = 0x24 /\
  A c' = 0 /\ X c' = 0 /\ Y c' = 0 /\
  TotalCycles c' = to_cycles (TotalCycles c + 8).
Proof.
  intros Hm. cbv [Reset Mem.ReadWord Mem.ReadByte]. proj.
  change (to_word (VECTOR_RESET + 1)) with 0xFFFD.
  change VECTOR_RESET with 0xFFFC.
  rewrite word_of_bytes by apply Hm.
  cbv [SetFlag]. proj.
  repeat split.
  rewrite !to_cycles_add_add. reflexivity.
Qed.

Lemma Reset_state_witness :
  wf_memory (poke Memory_new VECTOR_RESET [0x00; 0x10]) /\
  PC (fst (Reset CPU_new (poke Memory_new VECTOR_RESET [0x00; 0x10]))) = 0x1000.
Proof.
  assert (H : wf_memory (poke Memory_new VECTOR_RESET [0x00; 0x10])).
  { cbn. repeat apply wf_memory_store;
      try apply wf_memory_new; unfold is_byte; lia. }
  split; [exact H|].
  exact (proj1 (Reset_state CPU_new _ H)).
Defined.

(** C10: [Reset] leaves every byte of memory as it was, and the only
    bytes it looks at are the two of the reset vector: memories that agree
    at 0xFFFC and 0xFFFD give the same registers. *)
Theorem Reset_frame c m :
  (forall a, data (snd (Reset c m)) a = data m a) /\
  (forall m2, data m2 0xFFFC = data m 0xFFFC ->
              data m2 0xFFFD = data m 0xFFFD ->
              fst (Reset c m2) = fst (Reset c m)).
Proof.
  split.
  - intros a. reflexivity.
  - intros m2 H0 H1. cbv [Reset Mem.ReadWord Mem.ReadByte]. proj.
    change (to_word (VECTOR_RESET + 1)) with 0xFFFD.
    change VECTOR_RESET with 0xFFFC.
    rewrite H0, H1. reflexivity.
Qed.

Lemma Reset_frame_witness :
  fst (Reset CPU_new (store Memory_new 0x0200 0x55)) = fst (Reset CPU_new Memory_new).
Proof.
  apply (proj2 (Reset_frame CPU_new Memory_new)); reflexivity.
Defined.

(* ------------------------------------------------------------------ *)
(** ** Stores through indexed addressing *)

(** C1: a step executing STA absolute,X, STA absolute,Y or STA
    (indirect),Y charges a count that does not depend on page crossing;
    as the code stands that count is 4, 4 and 5 cycles (opcode fetch,
    operand fetches and the write, with no cycle for the index addition),
    whereas the documented cost of STA absolute,X is 5. *)
Theorem STA_indexed_cycles c m :
  (data m (PC c) = INS_STA_ABSX -> fst (fst (Execute c m)) = 4) /\
  (data m (PC c) = INS_STA_ABSY -> fst (fst (Execute c m)) = 4) /\
  (data m (PC c) = INS_STA_INDY -> fst (fst (Execute c m)) = 5).
Proof.
  repeat split; intros H.
  - dispatch H (AddrAbsoluteX false >>= STA). run. reflexivity.
  - dispatch H (AddrAbsoluteY false >>= STA). run. reflexivity.
  - dispatch H (AddrIndirectIndexed false >>= STA). run. reflexivity.
Qed.

Lemma STA_indexed_cycles_witness :
  data (snd crossing_store) (PC (fst crossing_store)) = INS_STA_ABSX /\
  page_differs 0x10F0 (0x10F0 + X (fst crossing_store)) = true /\
  fst (fst (Execute (fst crossing_store) (snd crossing_store))) = 4.
Proof.
  split; [reflexivity|]. split; [reflexivity|].
  apply (proj1 (STA_indexed_cycles (fst crossing_store) (snd crossing_store))).
  reflexivity.
Defined.

(** [is_byte] of a literal or of a named constant. *)
Ltac byte_literal :=
  unfold is_byte; split; [apply Z.leb_le | apply Z.ltb_lt]; reflexivity.

Lemma wf_memory_poke bytes : forall m a,
  wf_memory m -> Forall is_byte bytes -> wf_memory (poke m a bytes).
Proof.
  unfold poke. induction bytes as [|b bytes IH]; intros m a Hm Hb.
  - exact Hm.
  - cbn [fold_left]. inversion Hb; subst.
    apply IH; [apply wf_memory_store|]; assumption.
Qed.

(* ------------------------------------------------------------------ *)
(** ** Unknown opcodes *)

Lemma distinct_NoDup l : distinct l = true -> NoDup l.
Proof.
  induction l as [|x l IH]; cbn; intros H.
  - constructor.
  - apply andb_true_iff in H. destruct H as [Hx Hl].
    constructor; [|apply IH; assumption].
    intros Hin. apply negb_true_iff in Hx.
    assert (existsb (Z.eqb x) l = true).
    { apply existsb_exists. exists x. split; [assumption | apply Z.eqb_refl]. }
    congruence.
Qed.

Lemma legal_opcodes_count :
  length legal_opcodes = 151%nat /\ NoDup legal_opcodes /\
  Forall is_byte legal_opcodes.
Proof.
  split; [reflexivity|]. split.
  - apply distinct_NoDup. vm_compute. reflexivity.
  - unfold is_byte. apply Forall_forall. intros x Hx.
    assert (H : forallb (fun x => (0 <=? x) && (x <? 256)) legal_opcodes = true)
      by (vm_compute; reflexivity).
    rewrite forallb_forall in H. specialize (H x Hx).
    apply andb_true_iff in H. lia.
Qed.

Lemma switch_default {T} x (cases : list (Z * T)) d :
  existsb (Z.eqb x) (map fst cases) = false -> switch x cases d = d.
Proof.
  induction cases as [|[label body] rest IH]; cbn; intros H.
  - reflexivity.
  - apply orb_false_iff in H. destruct H as [-> H]. apply IH. exact H.
Qed.

(** C7: a step whose opcode byte is not one of the 151 case labels of the
    switch returns 2 cycles, moves PC one byte on (in 16-bit arithmetic),
    and leaves A, X, Y, SP, P and every byte of memory as they were. *)
Theorem unknown_opcode c m :
  is_legal_opcode (data m (PC c)) = false ->
  let '(used, c', m') := Execute c m in
  used = 2 /\ PC c' = to_word (PC c + 1) /\
  A c' = A c /\ X c' = X c /\ Y c' = Y c /\ SP c' = SP c /\ P c' = P c /\
  forall a, data m' a = data m a.
Proof.
  intros H. rewrite Execute_eq.
  unfold is_legal_opcode, legal_opcodes in H.
  rewrite (switch_default _ _ _ H). run.
  repeat split.
Qed.

Lemma unknown_opcode_witness :
  is_legal_opcode 0x02 = false /\
  fst (fst (Execute CPU_new (store Memory_new 0 0x02))) = 2.
Proof.
  split; [reflexivity|].
  generalize (unknown_opcode CPU_new (store Memory_new 0 0x02) eq_refl).
  destruct (Execute CPU_new (store Memory_new 0 0x02)) as [[used c'] m'].
  intros H. exact (proj1 H).
Defined.

(* ------------------------------------------------------------------ *)
(** ** Indirect JMP *)

Lemma land_FF z : Z.land z 0xFF = z mod 256.
Proof. change 0xFF with (Z.ones 8). apply Z.land_ones. lia. Qed.

(** C4: a step executing JMP (indirect) reads its 16-bit operand pointer;
    when the pointer's low byte is 0xFF the new PC has its low byte from
    the pointer address and its high byte from [pointer AND 0xFF00], the
    start of the same page; otherwise the new PC is the little-endian
    word stored at the pointer. *)
Theorem JMP_indirect c m :
  wf_memory m ->
  data m (PC c) = INS_JMP_IND ->
  let operand := to_word (PC c + 1) in
  let pointer := data m operand + 256 * data m (to_word (operand + 1)) in
  let c' := snd (fst (Execute c m)) in
  (pointer mod 256 = 0xFF ->
     PC c' mod 256 = data m pointer /\
     PC c' / 256 = data m (Z.land pointer 0xFF00)) /\
  (pointer mod 256 <> 0xFF ->
     PC c' = data m pointer + 256 * data m (pointer + 1)).
Proof.
  intros Hm H operand pointer.
  assert (Hp : is_word pointer).
  { unfold pointer, is_word. pose proof (Hm operand).
    pose proof (Hm (to_word (operand + 1))). unfold is_byte in *. lia. }
  dispatch H JMP_IND. run.
  fold operand. rewrite (word_of_bytes _ _ (Hm _) (Hm _)). fold pointer.
  rewrite land_FF.
  destruct (Z.eqb_spec (pointer mod 256) 0xFF) as [E|E]; proj.
  - split; [intros _ | intros; contradiction].
    rewrite (word_of_bytes _ _ (Hm _) (Hm _)).
    pose proof (Hm pointer). pose proof (Hm (Z.land pointer 0xFF00)).
    unfold is_byte in *.
    split; Z.div_mod_to_equations; lia.
  - split; [intros; contradiction | intros _].
    rewrite (word_of_bytes _ _ (Hm _) (Hm _)).
    rewrite (to_word_small (pointer + 1)); [reflexivity|].
    unfold is_word in *.
    assert (pointer <> 65535) by (intros ->; apply E; reflexivity). lia.
Qed.

Lemma JMP_indirect_witness :
  wf_memory (snd jmp_page_end) /\
  PC (snd (fst (Execute (fst jmp_page_end) (snd jmp_page_end)))) / 256 = 0x56.
Proof.
  assert (H : wf_memory (snd jmp_page_end)).
  { cbn [snd jmp_page_end].
    repeat apply wf_memory_poke; try apply wf_memory_new.
    all: repeat (apply Forall_cons || apply Forall_nil); byte_literal. }
  split; [exact H|].
  destruct (JMP_indirect (fst jmp_page_end) (snd jmp_page_end) H eq_refl)
    as [Hbug _].
  exact (proj2 (Hbug eq_refl)).
Defined.

(* ------------------------------------------------------------------ *)
(** ** Branches *)

Lemma land_FF00 w : is_word w -> Z.land w 0xFF00 = 256 * (w / 256).
Proof.
  intros Hw. apply Z.bits_inj'. intros n Hn.
  rewrite Z.land_spec.
  change 256 with (2 ^ 8) at 1. rewrite Z.mul_comm, Z.mul_pow2_bits by lia.
  change 256 with (2 ^ 8). rewrite <- Z.shiftr_div_pow2 by lia.
  destruct (Z.ltb_spec n 8).
  - rewrite (Z.testbit_neg_r _ (n - 8)) by lia.
    replace (Z.testbit 0xFF00 n) with false; [apply andb_false_r|].
    change 0xFF00 with (Z.shiftl 0xFF 8). rewrite Z.shiftl_spec_low by lia.
    reflexivity.
  - rewrite Z.shiftr_spec by lia. replace (n - 8 + 8) with n by lia.
    destruct (Z.ltb_spec n 16).
    + replace (Z.testbit 0xFF00 n) with true; [apply andb_true_r|].
      change 0xFF00 with (Z.shiftl (Z.ones 8) 8).
      rewrite Z.shiftl_spec by lia. rewrite Z.ones_spec_low by lia. reflexivity.
    + replace (Z.testbit w n) with false; [reflexivity|].
      symmetry. rewrite <- (Z.mod_small w (2 ^ 16)) by exact Hw.
      apply Z.mod_pow2_bits_high. lia.
Qed.

Lemma page_differs_div a b :
  is_word a -> is_word b -> page_differs a b = negb (a / 256 =? b / 256).
Proof.
  intros Ha Hb. unfold page_differs. rewrite !land_FF00 by assumption.
  f_equal. destruct (Z.eqb_spec (a / 256) (b / 256)) as [->|E].
  - apply Z.eqb_refl.
  - apply Z.eqb_neq. lia.
Qed.

Lemma BranchIf_step c m taken :
  let operand := to_word (PC c + 1) in
  let s1 := mkState (set_PC operand c) m (to_cycles (0 + 1)) in
  let next := to_word (operand + 1) in
  let s2 := snd (BranchIf taken s1) in
  (cycles s2, PC (cpu s2)) =
  branch_outcome taken next (to_signed_byte (data m operand)).
Proof.
  intros operand s1 next s2. subst s2 s1. unfold branch_outcome.
  run. fold operand. fold next.
  destruct taken; run; [|reflexivity].
  rewrite page_differs_div by apply to_word_is_word.
  destruct (next / 256 =? _); reflexivity.
Qed.

Ltac branch_case E body :=
  dispatch E body; cbv zeta; proj; refine (BranchIf_step _ _ _).

(** C6: for each of BCC, BCS, BEQ, BNE, BMI, BPL, BVC and BVS: when the
    condition is false the step costs 2 cycles and PC stands just past the
    offset byte; when it is true PC is that address plus the sign-extended
    offset (in 16-bit arithmetic) and the step costs 3 cycles if the two
    are on the same page and 4 otherwise. *)
Theorem branch_step c m taken :
  branch_condition (data m (PC c)) c = Some taken ->
  let operand := to_word (PC c + 1) in
  let next := to_word (operand + 1) in
  let offset := to_signed_byte (data m operand) in
  let '(used, c', _) := Execute c m in
  (used, PC c') = branch_outcome taken next offset.
Proof.
  intros H. cbv zeta. unfold branch_condition in H.
  destruct (Z.eqb_spec (data m (PC c)) INS_BCC) as [E|_].
  { injection H as <-.
    branch_case E (f <- get (GetFlag FLAG_CARRY) ;; BranchIf (negb f)). }
  destruct (Z.eqb_spec (data m (PC c)) INS_BCS) as [E|_].
  { injection H as <-.
    branch_case E (f <- get (GetFlag FLAG_CARRY) ;; BranchIf f). }
  destruct (Z.eqb_spec (data m (PC c)) INS_BEQ) as [E|_].
  { injection H as <-.
    branch_case E (f <- get (GetFlag FLAG_ZERO) ;; BranchIf f). }
  destruct (Z.eqb_spec (data m (PC c)) INS_BNE) as [E|_].
  { injection H as <-.
    branch_case E (f <- get (GetFlag FLAG_ZERO) ;; BranchIf (negb f)). }
  destruct (Z.eqb_spec (data m (PC c)) INS_BMI) as [E|_].
  { injection H as <-.
    branch_case E (f <- get (GetFlag FLAG_NEGATIVE) ;; BranchIf f). }
  destruct (Z.eqb_spec (data m (PC c)) INS_BPL) as [E|_].
  { injection H as <-.
    branch_case E (f <- get (GetFlag FLAG_NEGATIVE) ;; BranchIf (negb f)). }
  destruct (Z.eqb_spec (data m (PC c)) INS_BVC) as [E|_].
  { injection H as <-.
    branch_case E (f <- get (GetFlag FLAG_OVERFLOW) ;; BranchIf (negb f)). }
  destruct (Z.eqb_spec (data m (PC c)) INS_BVS) as [E|_].
  { injection H as <-.
    branch_case E (f <- get (GetFlag FLAG_OVERFLOW) ;; BranchIf f). }
  discriminate.
Qed.

Lemma branch_step_witness :
  branch_condition (data (snd loop_branch) (PC (fst loop_branch)))
                   (fst loop_branch) = Some true /\
  (let '(used, c', _) := Execute (fst loop_branch) (snd loop_branch) in
   (used, PC c')) = (3, 0x1002).
Proof.
  split; [reflexivity|].
  generalize (branch_step (fst loop_branch) (snd loop_branch) true eq_refl).
  cbv zeta.
  destruct (Execute (fst loop_branch) (snd loop_branch)) as [[used c'] m'].
  intros H. exact H.
Defined.

(* ------------------------------------------------------------------ *)
(** ** The Unused flag *)

Section Preserves.
Variable I : CPU -> Prop.

Lemma preserves_ret {T} (x : T) : preserves I (ret x).
Proof. intros s H. exact H. Qed.

Lemma preserves_bind {T U} (m : M T) (k : T -> M U) :
  preserves I m -> (forall x, preserves I (k x)) -> preserves I (bind m k).
Proof.
  intros Hm Hk s H. unfold bind. specialize (Hm s H).
  destruct (m s) as [x s']. apply Hk. exact Hm.
Qed.

Lemma preserves_get {T} (f : CPU -> T) : preserves I (get f).
Proof. intros s H. exact H. Qed.

Lemma preserves_modify f : (forall c, I c -> I (f c)) -> preserves I (modify f).
Proof. intros Hf s H. apply Hf. exact H. Qed.

Lemma preserves_tick n : preserves I (tick n).
Proof. intros s H. exact H. Qed.

Lemma preserves_ReadByte a : preserves I (ReadByte a).
Proof. intros s H. exact H. Qed.

Lemma preserves_WriteByte a v : preserves I (WriteByte a v).
Proof. intros s H. exact H. Qed.

Lemma preserves_ReadWord a : preserves I (ReadWord a).
Proof. intros s H. exact H. Qed.

Lemma preserves_when b m : preserves I m -> preserves I (when b m).
Proof. intros Hm. destruct b; [exact Hm | apply preserves_ret]. Qed.

Lemma preserves_switch x (cases : list (Z * M unit)) d :
  Forall (fun cb => preserves I (snd cb)) cases -> preserves I d ->
  preserves I (switch x cases d).
Proof.
  intros Hc Hd. induction Hc as [|[label body] rest Hb _ IH]; cbn.
  - exact Hd.
  - destruct (x =? label); [exact Hb | exact IH].
Qed.
End Preserves.



Lemma unused_SetFlag flag b c :
  Z.testbit flag 5 = false -> unused_set c -> unused_set (SetFlag flag b c).
Proof.
  unfold unused_set, SetFlag, to_byte. intros Hf Hc.
  destruct b; cbn [P set_P]; change 256 with (2 ^ 8);
    rewrite Z.mod_pow2_bits_low by lia.
  - rewrite Z.lor_spec, Hc. reflexivity.
  - rewrite Z.land_spec, Z.lnot_spec, Hc, Hf by lia. reflexivity.
Qed.

Lemma SetFlag_unused_true c : unused_set (SetFlag FLAG_UNUSED true c).
Proof.
  unfold unused_set. change FLAG_UNUSED with (2 ^ 5).
  rewrite SetFlag_testbit by lia. reflexivity.
Qed.

Lemma unused_UpdateZN v c :
  unused_set c -> unused_set (UpdateZeroAndNegativeFlags v c).
Proof.
  intros H. unfold UpdateZeroAndNegativeFlags.
  repeat apply unused_SetFlag; trivial.
Qed.

Lemma unused_CompareRegister r v c :
  unused_set c -> unused_set (CompareRegister r v c).
Proof.
  intros H. unfold CompareRegister.
  repeat apply unused_SetFlag; trivial.
Qed.

(** The unused bit survives whatever leaves P alone. *)
Ltac unused_cpu :=
  first [ assumption
        | apply unused_UpdateZN; assumption
        | apply unused_CompareRegister; assumption
        | apply unused_SetFlag; [reflexivity | assumption] ].

Ltac preserve_step :=
  lazymatch goal with
  | |- preserves _ (bind _ _) => apply preserves_bind; [|intro]
  | |- preserves _ (ret _) => apply preserves_ret
  | |- preserves _ (get _) => apply preserves_get
  | |- preserves _ (tick _) => apply preserves_tick
  | |- preserves _ (ReadByte _) => apply preserves_ReadByte
  | |- preserves _ (WriteByte _ _) => apply preserves_WriteByte
  | |- preserves _ (ReadWord _) => apply preserves_ReadWord
  | |- preserves _ (when _ _) => apply preserves_when
  | |- preserves _ (modify _) =>
      apply preserves_modify; intros ? ?; unused_cpu
  | |- preserves _ (if ?b then _ else _) => destruct b
  | |- preserves _ (let _ := _ in _) => cbv zeta
  end.

Ltac preserve := repeat preserve_step.

Lemma PLP_sets_unused s : unused_set (cpu (snd (PLP s))).
Proof. run. apply SetFlag_unused_true. Qed.

Lemma RTI_sets_unused s : unused_set (cpu (snd (RTI s))).
Proof.
  run. unfold unused_set. proj.
  apply SetFlag_unused_true.
Qed.

Ltac unfold_helpers :=
  unfold AddrImmediate, AddrZeroPage, AddrZeroPageX, AddrZeroPageY,
    AddrAbsolute, AddrAbsoluteX, AddrAbsoluteY, AddrIndexedIndirect,
    AddrIndirectIndexed;
  unfold PushWordToStack, PopWordFromStack;
  unfold PushByteToStack, PopByteFromStack, FetchByte, FetchWord.

Ltac unfold_instructions :=
  unfold LDA, LDX, LDY, STA, STX, STY, TAX, TAY, TXA, TYA, TSX, TXS,
    PHA, PHP, PLA, AND, ORA, EOR, BIT, ADC, SBC, CMP, CPX, CPY,
    INC, INX, INY, DEC, DEX, DEY,
    ASL_ACC, ASL_MEM, LSR_ACC, LSR_MEM, ROL_ACC, ROL_MEM, ROR_ACC, ROR_MEM,
    JMP_IND, JMP, JSR, RTS, BranchIf,
    CLC, CLD, CLI, CLV, SEC, SED, SEI, BRK, NOP.

Lemma Execute_cases_preserve_unused :
  Forall (fun cb => preserves unused_set (snd cb)) Execute_cases.
Proof.
  unfold Execute_cases.
  repeat (apply Forall_cons; [cbn [snd]|]); try apply Forall_nil.
  all: lazymatch goal with
       | |- preserves _ PLP => intros s _; apply PLP_sets_unused
       | |- preserves _ RTI => intros s _; apply RTI_sets_unused
       | |- _ => unfold_instructions; unfold_helpers; preserve
       end.
Qed.

Lemma Execute_preserves_unused c m :
  unused_set c -> unused_set (snd (fst (Execute c m))).
Proof.
  intros H. rewrite Execute_eq. cbv zeta. proj. unfold unused_set. proj.
  apply (preserves_switch unused_set _ _ _ Execute_cases_preserve_unused).
  - apply preserves_tick.
  - exact H.
Qed.

Lemma Execute_loop_preserves_unused fuel : forall budget executed c m r,
  unused_set c -> Execute_loop fuel budget executed c m = Some r ->
  unused_set (snd (fst r)).
Proof.
  induction fuel as [|fuel IH]; intros budget executed c m r Hc; cbn [Execute_loop].
  - destruct (executed <? budget); [discriminate|].
    intros [= <-]. exact Hc.
  - destruct (executed <? budget).
    + pose proof (Execute_preserves_unused c m Hc) as Hs.
      destruct (Execute c m) as [[k c1] m1]. apply IH. exact Hs.
    + intros [= <-]. exact Hc.
Qed.

(** After construction alone P is 0, so its bit 5 reads 0. *)
Lemma construction_clears_unused : ~ unused_set CPU_new.
Proof. unfold unused_set. cbn. discriminate. Qed.

Lemma pushed_status_unused p :
  Z.testbit (to_byte (Z.lor (Z.lor p FLAG_BREAK) FLAG_UNUSED)) 5 = true.
Proof.
  unfold to_byte. change 256 with (2 ^ 8).
  rewrite Z.mod_pow2_bits_low by lia.
  rewrite Z.lor_spec. apply orb_true_r.
Qed.

(** As [run], for a register file given field by field: every projection
    reduces on the way, which keeps long instruction bodies small. *)
Ltac exec :=
  cbv [bind ret get modify when tick ReadByte WriteByte ReadWord
       Mem.ReadByte Mem.WriteByte Mem.ReadWord store data
       FetchByte FetchWord PushByteToStack PushWordToStack
       PopByteFromStack PopWordFromStack
       AddrImmediate AddrZeroPage AddrZeroPageX AddrZeroPageY AddrAbsolute
       AddrAbsoluteX AddrAbsoluteY AddrIndexedIndirect AddrIndirectIndexed
       LDA LDX LDY STA STX STY TAX TAY TXA TYA TSX TXS PHA PHP PLA PLP
       AND ORA EOR BIT ADC SBC CMP CPX CPY INC INX INY DEC DEX DEY
       ASL_ACC ASL_MEM LSR_ACC LSR_MEM ROL_ACC ROL_MEM ROR_ACC ROR_MEM
       JMP JMP_IND JSR RTS RTI BranchIf CLC CLD CLI CLV SEC SED SEI BRK NOP
       Execute_default
       cpu memory cycles fst snd A X Y PC SP P TotalCycles
       set_A set_X set_Y set_PC set_SP set_P set_TotalCycles].

(** C3, as the code has it: bit 5 of P is 1 after [Reset]; a step, and a
    run of steps under a cycle budget, keep it 1 once it is 1; a step
    executing PLP or RTI sets it whatever P was before; and the status
    byte that PHP and BRK push on the stack has it set. *)
Theorem unused_bit_invariant :
  (forall c m, unused_set (fst (Reset c m))) /\
  (forall c m, unused_set c -> unused_set (snd (fst (Execute c m)))) /\
  (forall fuel budget c m used c' m',
      unused_set c -> Execute_cycles fuel budget c m = Some (used, c', m') ->
      unused_set c') /\
  (forall c m, data m (PC c) = INS_PLP -> unused_set (snd (fst (Execute c m)))) /\
  (forall c m, data m (PC c) = INS_RTI -> unused_set (snd (fst (Execute c m)))) /\
  (forall c m, data m (PC c) = INS_PHP ->
      Z.testbit (data (snd (Execute c m)) (to_word (STACK_BASE + SP c))) 5 = true) /\
  (forall c m, data m (PC c) = INS_BRK ->
      Z.testbit (data (snd (Execute c m))
                      (to_word (STACK_BASE + to_byte (to_byte (SP c - 1) - 1)))) 5
      = true).
Proof.
  repeat apply conj.
  - intros c m. cbv [Reset Mem.ReadWord Mem.ReadByte]. proj.
    unfold unused_set. cbv [SetFlag]. proj. reflexivity.
  - exact Execute_preserves_unused.
  - intros fuel budget c m used c' m' Hc H.
    exact (Execute_loop_preserves_unused fuel budget 0 c m _ Hc H).
  - intros c m H. dispatch H PLP. cbv zeta. proj. unfold unused_set. proj.
    apply PLP_sets_unused.
  - intros c m H. dispatch H RTI. cbv zeta. proj. unfold unused_set. proj.
    apply RTI_sets_unused.
  - intros [a x y pc sp p total] [mem] H.
    dispatch H PHP. exec.
    rewrite Z.eqb_refl. apply pushed_status_unused.
  - intros [a x y pc sp p total] [mem] H.
    dispatch H BRK. exec.
    rewrite Z.eqb_refl. apply pushed_status_unused.
Qed.

(* ------------------------------------------------------------------ *)
(** ** Cycles of one step, and the budget loop *)

Section Charges.
Context {T : Type}.

Lemma charges_ret (x : T) : charges 0 0 (ret x).
Proof. intros s H0 H1. cbn. lia. Qed.

Lemma charges_get (f : CPU -> T) : charges 0 0 (get f).
Proof. intros s H0 H1. cbn. lia. Qed.

Lemma charges_bind {U} lo1 hi1 lo2 hi2 (m : M T) (k : T -> M U) :
  charges lo1 hi1 m -> (forall x, charges lo2 hi2 (k x)) ->
  0 <= lo1 -> 0 <= hi2 ->
  charges (lo1 + lo2) (hi1 + hi2) (bind m k).
Proof.
  intros Hm Hk Hlo Hhi s H0 H1. unfold bind.
  specialize (Hm s H0). destruct (m s) as [x s1]. cbn [snd] in Hm.
  specialize (Hk x s1). lia.
Qed.

Lemma charges_weaken lo hi lo' hi' (m : M T) :
  charges lo hi m -> lo' <= lo -> hi <= hi' -> charges lo' hi' m.
Proof. intros Hm Hlo Hhi s H0 H1. specialize (Hm s). lia. Qed.

Lemma charges_if lo1 hi1 lo2 hi2 (b : bool) (m1 m2 : M T) :
  charges lo1 hi1 m1 -> charges lo2 hi2 m2 ->
  charges (Z.min lo1 lo2) (Z.max hi1 hi2) (if b then m1 else m2).
Proof.
  intros H1 H2. destruct b; [eapply charges_weaken; try exact H1
                            |eapply charges_weaken; try exact H2]; lia.
Qed.
End Charges.

Lemma charges_modify f : charges 0 0 (modify f).
Proof. intros s H0 H1. cbn. lia. Qed.

Lemma charges_tick n : 0 <= n -> charges n n (tick n).
Proof.
  intros Hn s H0 H1. cbn. rewrite to_cycles_small by lia. lia.
Qed.

Lemma charges_ReadByte a : charges 1 1 (ReadByte a).
Proof. intros s H0 H1. cbn. rewrite to_cycles_small by lia. lia. Qed.

Lemma charges_WriteByte a v : charges 1 1 (WriteByte a v).
Proof. intros s H0 H1. cbn. rewrite to_cycles_small by lia. lia. Qed.

Lemma charges_ReadWord a : charges 2 2 (ReadWord a).
Proof.
  intros s H0 H1. cbv [ReadWord Mem.ReadWord Mem.ReadByte]. cbn [snd cycles].
  rewrite (to_cycles_small (cycles s + 1)) by lia.
  rewrite to_cycles_small by lia. lia.
Qed.

Lemma charges_when lo hi b (m : M unit) :
  charges lo hi m -> 0 <= lo -> 0 <= hi -> charges 0 hi (when b m).
Proof.
  intros Hm Hlo Hhi. unfold when.
  eapply charges_weaken; [apply charges_if; [exact Hm | apply charges_ret]|..]; lia.
Qed.

Lemma charges_switch lo hi x (cases : list (Z * M unit)) d :
  Forall (fun cb => charges lo hi (snd cb)) cases -> charges lo hi d ->
  charges lo hi (switch x cases d).
Proof.
  intros Hc Hd. induction Hc as [|[label body] rest Hb _ IH]; cbn.
  - exact Hd.
  - destruct (x =? label); [exact Hb | exact IH].
Qed.

Ltac charge :=
  lazymatch goal with
  | |- charges _ _ (bind _ _) =>
      eapply charges_bind; [charge | intro; charge | lia | lia]
  | |- charges _ _ (ret _) => apply charges_ret
  | |- charges _ _ (get _) => apply charges_get
  | |- charges _ _ (modify _) => apply charges_modify
  | |- charges _ _ (tick _) => apply charges_tick; lia
  | |- charges _ _ (ReadByte _) => apply charges_ReadByte
  | |- charges _ _ (WriteByte _ _) => apply charges_WriteByte
  | |- charges _ _ (ReadWord _) => apply charges_ReadWord
  | |- charges _ _ (when _ _) => eapply charges_when; [charge | lia | lia]
  | |- charges _ _ (if _ then _ else _) => eapply charges_if; charge
  | |- charges _ _ (let _ := _ in _) => cbv zeta; charge
  end.

Lemma Execute_cases_charge :
  Forall (fun cb => charges 1 6 (snd cb)) Execute_cases.
Proof.
  unfold Execute_cases.
  repeat (apply Forall_cons; [cbn [snd]|]); try apply Forall_nil.
  all: unfold PLP, RTI; unfold_instructions; unfold_helpers.
  all: eapply charges_weaken; [charge | lia | lia].
Qed.

(** Every step returns between 2 and 7 cycles. *)
Lemma Execute_cycles_bounds c m : 2 <= fst (fst (Execute c m)) <= 7.
Proof.
  rewrite Execute_eq. cbv zeta. cbn [fst].
  assert (H : charges 1 6 (switch (data m (PC c)) Execute_cases Execute_default)).
  { apply charges_switch; [exact Execute_cases_charge|].
    unfold Execute_default. eapply charges_weaken; [apply charges_tick|..]; lia. }
  specialize (H (mkState (set_PC (to_word (PC c + 1)) c) m (to_cycles (0 + 1)))).
  change (to_cycles (0 + 1)) with 1 in *.
  cbn [cycles] in H. lia.
Qed.

Lemma Execute_n_last n : forall executed c m,
  Execute_n (S n) executed c m =
  let '(e0, c0, m0) := Execute_n n executed c m in
  let '(k, c1, m1) := Execute c0 m0 in
  (to_cycles (e0 + k), c1, m1).
Proof.
  induction n as [|n IH]; intros executed c m.
  - cbn. destruct (Execute c m) as [[k c1] m1]. reflexivity.
  - change (Execute_n (S (S n)) executed c m)
      with (let '(k, c, m) := Execute c m in
            Execute_n (S n) (to_cycles (executed + k)) c m).
    cbn [Execute_n]. destruct (Execute c m) as [[k c1] m1].
    rewrite <- IH. reflexivity.
Qed.

Lemma Execute_loop_terminates budget :
  0 <= budget <= 2 ^ 64 - 7 ->
  forall (bound : nat) executed c m,
    0 <= executed -> budget - executed <= Z.of_nat bound ->
    exists n, (n <= bound)%nat /\
      (forall fuel, (n <= fuel)%nat ->
         Execute_loop fuel budget executed c m = Some (Execute_n n executed c m)) /\
      stops_after budget executed c m n.
Proof.
  intros Hb. induction bound as [|bound IH]; intros executed c m He Hd.
  - exists O. repeat split; [lia | | cbn; lia].
    intros fuel _. assert (E : (executed <? budget) = false) by (apply Z.ltb_ge; lia).
    destruct fuel; cbn [Execute_loop Execute_n]; rewrite E; reflexivity.
  - destruct (Z.ltb_spec executed budget) as [Hlt|Hge].
    + pose proof (Execute_cycles_bounds c m) as Hk.
      destruct (Execute c m) as [[k c1] m1] eqn:Ex. cbn [fst] in Hk.
      assert (Hs : to_cycles (executed + k) = executed + k)
        by (apply to_cycles_small; lia).
      destruct (IH (executed + k) c1 m1) as (n & Hn & Hrun & Hstop); [lia | lia |].
      exists (S n). split; [lia|]. split.
      * intros fuel Hf. destruct fuel as [|fuel]; [lia|].
        cbn [Execute_loop Execute_n].
        assert (E : (executed <? budget) = true) by (apply Z.ltb_lt; lia).
        rewrite E, Ex, Hs. apply Hrun. lia.
      * destruct n as [|n'].
        -- cbn [stops_after Execute_n]. rewrite Ex. cbn [fst].
           rewrite Hs. cbn in Hstop. lia.
        -- unfold stops_after in *.
           change (Execute_n (S n') executed c m)
             with (let '(k, c, m) := Execute c m in
                   Execute_n n' (to_cycles (executed + k)) c m).
           change (Execute_n (S (S n')) executed c m)
             with (let '(k, c, m) := Execute c m in
                   Execute_n (S n') (to_cycles (executed + k)) c m).
           rewrite Ex, Hs. exact Hstop.
    + exists O. repeat split; [lia | | cbn; lia].
      intros fuel _. assert (E : (executed <? budget) = false) by (apply Z.ltb_ge; lia).
      destruct fuel; cbn [Execute_loop Execute_n]; rewrite E; reflexivity.
Qed.

(** C9, as the code has it: for a budget of at most 2^64 - 7 cycles the
    loop stops after [n] whole instructions, [n] no more than the budget
    (every step returns at least 2 cycles); the count it returns is at
    least the budget; and before the last instruction the count was still
    under the budget, so the overshoot is less than that instruction's
    cycles. *)
Theorem Execute_cycles_terminates budget c m :
  0 <= budget <= 2 ^ 64 - 7 ->
  exists n, (Z.of_nat n <= budget) /\
    (forall fuel, (n <= fuel)%nat ->
       Execute_cycles fuel budget c m = Some (Execute_n n 0 c m)) /\
    budget <= fst (fst (Execute_n n 0 c m)) /\
    stops_after budget 0 c m n.
Proof.
  intros Hb.
  destruct (Execute_loop_terminates budget Hb (Z.to_nat budget) 0 c m)
    as (n & Hn & Hrun & Hstop); [lia | lia |].
  exists n. split; [lia|]. split; [exact Hrun|]. split; [|exact Hstop].
  destruct n as [|n']; cbn [stops_after] in Hstop.
  - cbn. lia.
  - destruct (Execute_n n' 0 c m) as [[e0 c0] m0]. lia.
Qed.


Lemma Execute_cycles_terminates_witness :
  0 <= 4 <= 2 ^ 64 - 7 /\
  exists n, (Z.of_nat n <= 4) /\
    (forall fuel, (n <= fuel)%nat ->
       Execute_cycles fuel 4 CPU_new nop_memory
       = Some (Execute_n n 0 CPU_new nop_memory)) /\
    4 <= fst (fst (Execute_n n 0 CPU_new nop_memory)) /\
    stops_after 4 0 CPU_new nop_memory n.
Proof.
  assert (H : 0 <= 4 <= 2 ^ 64 - 7) by (split; discriminate).
  split; [exact H|].
  exact (Execute_cycles_terminates 4 CPU_new nop_memory H).
Defined.

Lemma Execute_nop c : Execute c nop_memory =
  (2, set_TotalCycles (to_cycles (TotalCycles c + 2)) (set_PC (to_word (PC c + 1)) c),
   nop_memory).
Proof.
  assert (H : data nop_memory (PC c) = INS_NOP) by reflexivity.
  dispatch H NOP. run. reflexivity.
Qed.

Lemma even_to_cycles z : Z.even (to_cycles z) = Z.even z.
Proof.
  unfold to_cycles. rewrite Z.mod_eq by lia.
  rewrite Z.even_sub, Z.even_mul.
  change (Z.even (2 ^ 64)) with true. cbn [orb].
  destruct (Z.even z); reflexivity.
Qed.

Lemma nop_loop_runs_on fuel : forall executed c,
  0 <= executed < 2 ^ 64 -> Z.even executed = true ->
  Execute_loop fuel (2 ^ 64 - 1) executed c nop_memory = None.
Proof.
  induction fuel as [|fuel IH]; intros executed c He Hev;
    assert (E : (executed <? 2 ^ 64 - 1) = true)
      by (apply Z.ltb_lt;
          assert (executed <> 2 ^ 64 - 1) by (intros ->; discriminate Hev); lia);
    cbn [Execute_loop]; rewrite E; [reflexivity|].
  rewrite Execute_nop. apply IH.
  - apply to_cycles_range.
  - rewrite even_to_cycles, Z.even_add, Hev. reflexivity.
Qed.

(** With a budget of 2^64 - 1 and NOPs everywhere the count goes up two
    by two, wraps around inside the 64-bit counter, and never reaches the
    budget: no amount of fuel lets the loop end. *)
Lemma Execute_cycles_can_run_forever :
  ~ exists fuel r, Execute_cycles fuel (2 ^ 64 - 1) CPU_new nop_memory = Some r.
Proof.
  intros (fuel & r & H). unfold Execute_cycles in H.
  rewrite nop_loop_runs_on in H; [discriminate | lia | reflexivity].
Qed.

Lemma unused_bit_invariant_witness :
  unused_set (fst (Reset CPU_new Memory_new)) /\
  unused_set (snd (fst (Execute (fst (Reset CPU_new Memory_new)) Memory_new))).
Proof.
  destruct unused_bit_invariant as (Hreset & Hstep & _).
  split; [apply Hreset|]. apply Hstep. apply Hreset.
Defined.

(* ------------------------------------------------------------------ *)
(** ** Decimal mode *)

Ltac flag_bits :=
  change FLAG_CARRY with (2 ^ 0) in *; change FLAG_ZERO with (2 ^ 1) in *;
  change FLAG_INTERRUPT with (2 ^ 2) in *; change FLAG_DECIMAL with (2 ^ 3) in *;
  change FLAG_BREAK with (2 ^ 4) in *; change FLAG_UNUSED with (2 ^ 5) in *;
  change FLAG_OVERFLOW with (2 ^ 6) in *; change FLAG_NEGATIVE with (2 ^ 7) in *.

Lemma GetFlag_set_A f v c : GetFlag f (set_A v c) = GetFlag f c.
Proof. reflexivity. Qed.

Lemma observe_after_ADC v bC bV bZ bN c :
  observe (set_A v (SetFlag FLAG_CARRY bC (SetFlag FLAG_OVERFLOW bV
            (SetFlag FLAG_ZERO bZ (SetFlag FLAG_NEGATIVE bN c))))) =
  mkALU v bC bN bZ bV.
Proof.
  unfold observe. rewrite !GetFlag_set_A. cbn [A set_A]. flag_bits.
  rewrite !GetFlag_SetFlag by lia. reflexivity.
Qed.


(** Masking with [w] ones shifted left by [k] keeps the bits [k] to
    [k + w - 1]. *)
Lemma land_shifted_ones x k w :
  0 <= k -> 0 <= w ->
  Z.land x (Z.shiftl (Z.ones w) k) = 2 ^ k * ((x / 2 ^ k) mod 2 ^ w).
Proof.
  intros Hk Hw. apply Z.bits_inj'. intros n Hn.
  rewrite Z.land_spec, Z.mul_comm, Z.mul_pow2_bits by assumption.
  rewrite <- Z.shiftr_div_pow2 by assumption.
  destruct (Z.ltb_spec n k).
  - rewrite Z.shiftl_spec_low, (Z.testbit_neg_r _ (n - k)) by lia.
    apply andb_false_r.
  - rewrite Z.shiftl_spec by lia.
    destruct (Z.ltb_spec (n - k) w).
    + rewrite Z.ones_spec_low, Z.mod_pow2_bits_low by lia.
      rewrite Z.shiftr_spec by lia. rewrite andb_true_r. f_equal. lia.
    + rewrite Z.ones_spec_high, Z.mod_pow2_bits_high by lia.
      apply andb_false_r.
Qed.

Lemma land_0F x : Z.land x 0x0F = x mod 16.
Proof. change 0x0F with (Z.ones 4). apply Z.land_ones. lia. Qed.

Lemma land_F0 x : Z.land x 0xF0 = 16 * ((x / 16) mod 16).
Proof.
  change 0xF0 with (Z.shiftl (Z.ones 4) 4).
  rewrite land_shifted_ones by lia. reflexivity.
Qed.

Lemma land_F0_byte b : is_byte b -> Z.land b 0xF0 = 16 * (b / 16).
Proof.
  intros Hb. rewrite land_F0. rewrite (Z.mod_small (b / 16)); [reflexivity|].
  unfold is_byte in Hb. Z.div_mod_to_equations. lia.
Qed.

Lemma nonzero_land_80 x : nonzero (Z.land x 0x80) = Z.testbit x 7.
Proof. change 0x80 with (2 ^ 7). apply nonzero_land_pow2. lia. Qed.

(** Decimal ADC as the code computes it: the +0x60 adjustment is decided
    on the high nibble of the intermediate result alone, bit 8 masked
    away. *)
Lemma ADC_decimal_code s address :
  GetFlag FLAG_DECIMAL (cpu s) = true ->
  is_byte (A (cpu s)) -> is_byte (data (memory s) address) ->
  let a := A (cpu s) in
  let v := data (memory s) address in
  let r := ADC_decimal_intermediate a v (GetFlag FLAG_CARRY (cpu s)) in
  let final := if 9 <? (r / 16) mod 16 then r + 0x60 else r in
  0 <= r <= 511 /\
  observe (cpu (snd (ADC address s))) =
  mkALU (final mod 256) (0x99 <? final)
        (Z.testbit r 7) (r mod 256 =? 0)
        (Z.testbit (Z.land (Z.lxor a r) (Z.lxor v r)) 7).
Proof.
  intros HD Ha Hv. cbv zeta. run. rewrite HD.
  remember (A (cpu s)) as a eqn:Ea. remember (data (memory s) address) as v eqn:Ev.
  unfold ADC_decimal_intermediate.
  remember (if GetFlag FLAG_CARRY (cpu s) then 1 else 0) as cin eqn:Ec.
  assert (Hc : 0 <= cin <= 1) by (rewrite Ec; destruct (GetFlag FLAG_CARRY (cpu s)); lia).
  run. rewrite observe_after_ADC.
  clear Ea Ev Ec.
  rewrite !(land_F0_byte a), !(land_F0_byte v) by assumption.
  rewrite !land_0F, !land_F0, !land_FF, !nonzero_land_80, !Z.gtb_ltb.
  unfold is_byte in *. cbv delta [Byte Word] in *.
  set (lo0 := a mod 16 + v mod 16 + cin).
  assert (H0 : 0 <= lo0 <= 31) by (subst lo0; Z.div_mod_to_equations; lia).
  rewrite (to_word_small lo0) by (unfold is_word; lia).
  rewrite (to_word_small (lo0 + 6)) by (unfold is_word; lia).
  set (lo := if 9 <? lo0 then lo0 + 6 else lo0).
  assert (H1 : 0 <= lo <= 37) by (subst lo; destruct (9 <? lo0); lia).
  set (r := 16 * (a / 16) + 16 * (v / 16) + (if 15 <? lo then 16 else 0) + lo mod 16).
  assert (H2 : 0 <= r <= 511)
    by (subst r; destruct (15 <? lo); Z.div_mod_to_equations; lia).
  split; [exact H2|].
  rewrite (to_word_small r) by (unfold is_word; lia).
  rewrite (to_word_small (r + 96)) by (unfold is_word; lia).
  replace (9 <? (r / 16) mod 16) with (144 <? 16 * ((r / 16) mod 16))
    by (destruct (Z.ltb_spec 144 (16 * ((r / 16) mod 16)));
        destruct (Z.ltb_spec 9 ((r / 16) mod 16)); try reflexivity; lia).
  f_equal. apply to_byte_small. apply to_byte_is_byte.
Qed.

(** C5: with D set, ADC on bytes A and M and carry C leaves the flags C,
    N, Z and V as the decimal addition of the specification prescribes,
    but A only when the intermediate result [r] stays below 0x100 or has
    a high nibble above 9: for [r] of 0x100 or more with a high nibble of
    9 or less the +0x60 adjustment is skipped and A is [r mod 256]. A
    step executing ADC #$90 with D = 1, C = 0, A = 0x90 leaves A = 0x20
    where the specification gives 0x80; ADC #$27 with A = 0x15 gives
    A = 0x42 with C, N, Z (and V) clear. *)
Theorem ADC_decimal :
  (forall s address,
     GetFlag FLAG_DECIMAL (cpu s) = true ->
     is_byte (A (cpu s)) -> is_byte (data (memory s) address) ->
     let a := A (cpu s) in
     let v := data (memory s) address in
     let carry := GetFlag FLAG_CARRY (cpu s) in
     let r := ADC_decimal_intermediate a v carry in
     let code := observe (cpu (snd (ADC address s))) in
     let spec := ADC_decimal_spec a v carry in
     alu_C code = alu_C spec /\ alu_N code = alu_N spec /\
     alu_Z code = alu_Z spec /\ alu_V code = alu_V spec /\
     alu_A code =
       (if (0xFF <? r) && ((r / 16) mod 16 <=? 9) then r mod 256
        else alu_A spec)) /\
  (observe (snd (fst (Execute (fst bcd_carry_case) (snd bcd_carry_case))))
   = mkALU 0x20 true false false true /\
   ADC_decimal_spec 0x90 0x90 false = mkALU 0x80 true false false true) /\
  observe (snd (fst (Execute (fst bcd_add_case) (snd bcd_add_case)))) =
  mkALU 0x42 false false false false.
Proof.
  split; [|split; [split|]; vm_compute; reflexivity].
  intros s address HD Ha Hv. cbv zeta.
  destruct (ADC_decimal_code s address HD Ha Hv) as [Hr E]. cbv zeta in Hr, E.
  rewrite E. unfold ADC_decimal_spec. cbv zeta. cbn [alu_A alu_C alu_N alu_Z alu_V].
  set (r := ADC_decimal_intermediate (A (cpu s)) (data (memory s) address)
                                     (GetFlag FLAG_CARRY (cpu s))) in *.
  clearbody r.
  assert (Hq : 0 <= r / 16 <= 31) by (Z.div_mod_to_equations; lia).
  assert (Hm : 0 <= (r / 16) mod 16 <= 15) by (Z.div_mod_to_equations; lia).
  assert (Hs : r <= 0xFF -> (r / 16) mod 16 = r / 16)
    by (intros; apply Z.mod_small; Z.div_mod_to_equations; lia).
  assert (Hb : 0xFF < r -> 16 <= r / 16) by (intros; Z.div_mod_to_equations; lia).
  destruct (Z.ltb_spec 0xFF r) as [Hbig|Hsmall]; cbn [andb].
  - specialize (Hb Hbig).
    assert (E1 : (9 <? r / 16) = true) by (apply Z.ltb_lt; lia). rewrite E1.
    destruct (Z.leb_spec ((r / 16) mod 16) 9) as [Hle|Hgt].
    + assert (E2 : (9 <? (r / 16) mod 16) = false) by (apply Z.ltb_ge; lia).
      rewrite E2.
      assert (E3 : (0x99 <? r) = true) by (apply Z.ltb_lt; lia).
      assert (E4 : (0x99 <? r + 0x60) = true) by (apply Z.ltb_lt; lia).
      rewrite E3, E4. repeat split.
    + assert (E2 : (9 <? (r / 16) mod 16) = true) by (apply Z.ltb_lt; lia).
      rewrite E2. repeat split.
  - rewrite (Hs Hsmall). repeat split.
Qed.

Lemma ADC_decimal_witness :
  alu_A (observe (cpu (snd (ADC 0x1001 (mkState (fst bcd_carry_case)
                                                (snd bcd_carry_case) 0)))))
  = 0x20.
Proof.
  destruct (proj1 ADC_decimal
              (mkState (fst bcd_carry_case) (snd bcd_carry_case) 0) 0x1001
              eq_refl ltac:(cbn; byte_literal) ltac:(cbn; byte_literal))
    as (_ & _ & _ & _ & HA).
  exact HA.
Defined.

Lemma GetFlag_UpdateZN f v c :
  f = FLAG_CARRY \/ f = FLAG_OVERFLOW \/ f = FLAG_DECIMAL \/
  f = FLAG_INTERRUPT \/ f = FLAG_BREAK \/ f = FLAG_UNUSED ->
  GetFlag f (UpdateZeroAndNegativeFlags v c) = GetFlag f c.
Proof.
  unfold UpdateZeroAndNegativeFlags. flag_bits.
  intros [-> | [-> | [-> | [-> | [-> | ->]]]]];
    rewrite !GetFlag_SetFlag by lia; reflexivity.
Qed.

Lemma SBC_decimal_keeps_overflow s address :
  GetFlag FLAG_DECIMAL (cpu s) = true ->
  GetFlag FLAG_OVERFLOW (cpu (snd (SBC address s))) =
  GetFlag FLAG_OVERFLOW (cpu s).
Proof.
  intros HD. run. rewrite HD. run.
  rewrite GetFlag_UpdateZN by tauto. rewrite GetFlag_set_A.
  flag_bits. rewrite GetFlag_SetFlag by lia. reflexivity.
Qed.

(** C2: decimal-mode SBC leaves V as it was, whereas the rule of binary
    mode, which the documented behaviour applies in decimal mode too, asks
    for V = 1 at A = 0x80, M = 0x01, C = 1; there the step leaves V = 0. *)
Theorem SBC_decimal_overflow :
  (forall s address,
     GetFlag FLAG_DECIMAL (cpu s) = true ->
     GetFlag FLAG_OVERFLOW (cpu (snd (SBC address s))) =
     GetFlag FLAG_OVERFLOW (cpu s)) /\
  (let '(c, m) := sbc_overflow_case in
   GetFlag FLAG_DECIMAL c = true /\
   SBC_overflow_rule (A c) 0x01 (GetFlag FLAG_CARRY c) = true /\
   GetFlag FLAG_OVERFLOW (snd (fst (Execute c m))) = false).
Proof.
  split; [exact SBC_decimal_keeps_overflow|].
  vm_compute. repeat split.
Qed.

Lemma SBC_decimal_overflow_witness :
  GetFlag FLAG_OVERFLOW
    (cpu (snd (SBC 0x1001 (mkState (fst sbc_overflow_case)
                                   (snd sbc_overflow_case) 0)))) = false.
Proof.
  exact (proj1 SBC_decimal_overflow
           (mkState (fst sbc_overflow_case) (snd sbc_overflow_case) 0)
           0x1001 eq_refl).
Defined.

(* ================================================================== *)
(** * Further properties of the code *)

(** ** Rewriting through register and flag updates *)

Create Rewrite HintDb regs.

Lemma GetFlag_set_A' f v c : GetFlag f (set_A v c) = GetFlag f c.
Proof. reflexivity. Qed.

Lemma GetFlag_set_X' f v c : GetFlag f (set_X v c) = GetFlag f c.
Proof. reflexivity. Qed.

Lemma GetFlag_set_Y' f v c : GetFlag f (set_Y v c) = GetFlag f c.
Proof. reflexivity. Qed.

Lemma GetFlag_set_PC' f v c : GetFlag f (set_PC v c) = GetFlag f c.
Proof. reflexivity. Qed.

Lemma GetFlag_set_SP' f v c : GetFlag f (set_SP v c) = GetFlag f c.
Proof. reflexivity. Qed.

Lemma GetFlag_set_TotalCycles' f v c : GetFlag f (set_TotalCycles v c) = GetFlag f c.
Proof. reflexivity. Qed.

#[export] Hint Rewrite GetFlag_set_A' GetFlag_set_X' GetFlag_set_Y' GetFlag_set_PC' GetFlag_set_SP' GetFlag_set_TotalCycles' : regs.

(** Flag updates leave every register but P alone. *)
Lemma SetFlag_A f b c : A (SetFlag f b c) = A c.
Proof. unfold SetFlag. destruct b; reflexivity. Qed.

Lemma SetFlag_X f b c : X (SetFlag f b c) = X c.
Proof. unfold SetFlag. destruct b; reflexivity. Qed.

Lemma SetFlag_Y f b c : Y (SetFlag f b c) = Y c.
Proof. unfold SetFlag. destruct b; reflexivity. Qed.

Lemma SetFlag_PC f b c : PC (SetFlag f b c) = PC c.
Proof. unfold SetFlag. destruct b; reflexivity. Qed.

Lemma SetFlag_SP f b c : SP (SetFlag f b c) = SP c.
Proof. unfold SetFlag. destruct b; reflexivity. Qed.

Lemma SetFlag_TotalCycles f b c : TotalCycles (SetFlag f b c) = TotalCycles c.
Proof. unfold SetFlag. destruct b; reflexivity. Qed.

Lemma UpdateZN_A v c : A (UpdateZeroAndNegativeFlags v c) = A c.
Proof. unfold UpdateZeroAndNegativeFlags. rewrite !SetFlag_A. reflexivity. Qed.

Lemma UpdateZN_X v c : X (UpdateZeroAndNegativeFlags v c) = X c.
Proof. unfold UpdateZeroAndNegativeFlags. rewrite !SetFlag_X. reflexivity. Qed.

Lemma UpdateZN_Y v c : Y (UpdateZeroAndNegativeFlags v c) = Y c.
Proof. unfold UpdateZeroAndNegativeFlags. rewrite !SetFlag_Y. reflexivity. Qed.

Lemma UpdateZN_PC v c : PC (UpdateZeroAndNegativeFlags v c) = PC c.
Proof. unfold UpdateZeroAndNegativeFlags. rewrite !SetFlag_PC. reflexivity. Qed.

Lemma UpdateZN_SP v c : SP (UpdateZeroAndNegativeFlags v c) = SP c.
Proof. unfold UpdateZeroAndNegativeFlags. rewrite !SetFlag_SP. reflexivity. Qed.

Lemma UpdateZN_TotalCycles v c : TotalCycles (UpdateZeroAndNegativeFlags v c) = TotalCycles c.
Proof. unfold UpdateZeroAndNegativeFlags. rewrite !SetFlag_TotalCycles. reflexivity. Qed.

Lemma CompareRegister_A r v c : A (CompareRegister r v c) = A c.
Proof. unfold CompareRegister. rewrite !SetFlag_A. reflexivity. Qed.

Lemma CompareRegister_X r v c : X (CompareRegister r v c) = X c.
Proof. unfold CompareRegister. rewrite !SetFlag_X. reflexivity. Qed.

Lemma CompareRegister_Y r v c : Y (CompareRegister r v c) = Y c.
Proof. unfold CompareRegister. rewrite !SetFlag_Y. reflexivity. Qed.

Lemma CompareRegister_PC r v c : PC (CompareRegister r v c) = PC c.
Proof. unfold CompareRegister. rewrite !SetFlag_PC. reflexivity. Qed.

Lemma CompareRegister_SP r v c : SP (CompareRegister r v c) = SP c.
Proof. unfold CompareRegister. rewrite !SetFlag_SP. reflexivity. Qed.

Lemma CompareRegister_TotalCycles r v c : TotalCycles (CompareRegister r v c) = TotalCycles c.
Proof. unfold CompareRegister. rewrite !SetFlag_TotalCycles. reflexivity. Qed.

#[export] Hint Rewrite SetFlag_A UpdateZN_A CompareRegister_A SetFlag_X UpdateZN_X CompareRegister_X SetFlag_Y UpdateZN_Y CompareRegister_Y SetFlag_PC UpdateZN_PC CompareRegister_PC SetFlag_SP UpdateZN_SP CompareRegister_SP SetFlag_TotalCycles UpdateZN_TotalCycles CompareRegister_TotalCycles : regs.

Lemma UpdateZN_Z v c :
  GetFlag FLAG_ZERO (UpdateZeroAndNegativeFlags v c) = (v =? 0).
Proof.
  unfold UpdateZeroAndNegativeFlags. flag_bits.
  rewrite !GetFlag_SetFlag by lia. reflexivity.
Qed.

Lemma UpdateZN_N v c :
  GetFlag FLAG_NEGATIVE (UpdateZeroAndNegativeFlags v c) = Z.testbit v 7.
Proof.
  unfold UpdateZeroAndNegativeFlags. flag_bits.
  rewrite !GetFlag_SetFlag by lia.
  cbn [Z.eqb Pos.eqb]. change 128 with (2 ^ 7). apply nonzero_land_pow2. lia.
Qed.

(* ------------------------------------------------------------------ *)
(** ** Memory.cpp: what is written is what is read *)

(** X1: a byte written with [WriteByte] is the byte [ReadByte] returns
    from the same address, every other cell keeps its content, and the
    two accesses cost 2 cycles. *)
Theorem WriteByte_ReadByte m a v cy :
  let '(m', cy') := Mem.WriteByte m a v cy in
  Mem.ReadByte m' a cy' = (v, to_cycles (cy + 2)) /\
  (forall b, b <> a -> data m' b = data m b).
Proof.
  cbv [Mem.WriteByte Mem.ReadByte store]. cbn [data]. split.
  - rewrite Z.eqb_refl, to_cycles_add_add. reflexivity.
  - intros b Hb. apply Z.eqb_neq in Hb. rewrite Hb. reflexivity.
Qed.

Lemma WriteByte_ReadByte_witness :
  data (fst (Mem.WriteByte Memory_new 0x0200 0x42 0)) 0x0201 = 0.
Proof.
  generalize (WriteByte_ReadByte Memory_new 0x0200 0x42 0).
  destruct (Mem.WriteByte Memory_new 0x0200 0x42 0) as [m' cy'] eqn:E.
  injection E as <- <-. intros [_ H].
  exact (H 0x0201 ltac:(discriminate)).
Defined.

Lemma to_word_succ_neq a : a <> to_word (a + 1).
Proof.
  unfold to_word. intros H.
  pose proof (Z.mod_pos_bound (a + 1) 65536 ltac:(lia)).
  Z.div_mod_to_equations. lia.
Qed.

Lemma word_bytes w :
  is_word w -> Z.land w 0xFF + 256 * Z.land (Z.shiftr w 8) 0xFF = w.
Proof.
  intros Hw. unfold is_word in Hw. rewrite !land_FF.
  rewrite Z.shiftr_div_pow2 by lia. change (2 ^ 8) with 256.
  Z.div_mod_to_equations. lia.
Qed.

(** X2: [WriteWord] lays a 16-bit word out little-endian, low byte at the
    address and high byte at the next one (wrapping from 0xFFFF to 0),
    touches no other cell, and [ReadWord] at the same address returns the
    word; the four accesses cost 4 cycles. *)
Theorem WriteWord_ReadWord m a w cy :
  is_word w ->
  let '(m', cy') := Mem.WriteWord m a w cy in
  Mem.ReadWord m' a cy' = (w, to_cycles (cy + 4)) /\
  data m' a = w mod 256 /\ data m' (to_word (a + 1)) = w / 256 /\
  (forall b, b <> a -> b <> to_word (a + 1) -> data m' b = data m b).
Proof.
  intros Hw. cbv [Mem.WriteWord Mem.WriteByte Mem.ReadWord Mem.ReadByte store].
  cbn [data].
  assert (Hne : (a =? to_word (a + 1)) = false)
    by (apply Z.eqb_neq, to_word_succ_neq).
  rewrite Hne, !Z.eqb_refl.
  assert (Hlo : is_byte (Z.land w 0xFF))
    by (rewrite land_FF; apply to_byte_is_byte).
  assert (Hhi : is_byte (Z.land (Z.shiftr w 8) 0xFF))
    by (rewrite land_FF; apply to_byte_is_byte).
  repeat split.
  - rewrite word_of_bytes, word_bytes by assumption.
    rewrite !to_cycles_add_add. reflexivity.
  - apply land_FF.
  - rewrite land_FF, Z.shiftr_div_pow2 by lia. change (2 ^ 8) with 256.
    unfold is_word in Hw. Z.div_mod_to_equations. lia.
  - intros b H1 H2. apply Z.eqb_neq in H1, H2. rewrite H1, H2. reflexivity.
Qed.

Lemma WriteWord_ReadWord_witness :
  Mem.ReadWord (fst (Mem.WriteWord Memory_new 0xFFFF 0x1234 0)) 0xFFFF 2
  = (0x1234, 4).
Proof.
  generalize (WriteWord_ReadWord Memory_new 0xFFFF 0x1234 0
                ltac:(split; [discriminate | reflexivity])).
  destruct (Mem.WriteWord Memory_new 0xFFFF 0x1234 0) as [m' cy'] eqn:E.
  injection E as <- <-. intros [H _]. exact H.
Defined.

(* ------------------------------------------------------------------ *)
(** ** CPU.cpp: flags *)

(** X3: for the eight flag masks, [GetFlag] after [SetFlag] returns the
    condition just written for the same flag and the old value for every
    other flag, and P stays within 8 bits. *)
Theorem SetFlag_GetFlag f g b c :
  In f all_flags -> In g all_flags ->
  GetFlag g (SetFlag f b c) = (if g =? f then b else GetFlag g c) /\
  is_byte (P (SetFlag f b c)).
Proof.
  intros Hf Hg. split.
  - unfold all_flags in *. cbn [In] in Hf, Hg. flag_bits.
    repeat (destruct Hf as [<- | Hf]; [|]); try contradiction;
    repeat (destruct Hg as [<- | Hg]; [|]); try contradiction;
    rewrite GetFlag_SetFlag by lia; reflexivity.
  - unfold SetFlag. destruct b; cbn [P set_P]; apply to_byte_is_byte.
Qed.

Lemma SetFlag_GetFlag_witness :
  GetFlag FLAG_ZERO (SetFlag FLAG_CARRY true CPU_new) = false.
Proof.
  exact (proj1 (SetFlag_GetFlag FLAG_CARRY FLAG_ZERO true CPU_new
                  ltac:(cbn; tauto) ltac:(cbn; tauto))).
Defined.

(* ------------------------------------------------------------------ *)
(** ** CPU.cpp: the stack *)

Lemma byte_pred_succ b : is_byte b -> to_byte (to_byte (b - 1) + 1) = b.
Proof. unfold is_byte, to_byte. intros. Z.div_mod_to_equations. lia. Qed.

Lemma stack_cell_word sp : is_byte sp -> to_word (STACK_BASE + sp) = STACK_BASE + sp.
Proof.
  intros H. apply to_word_small. unfold is_word, is_byte, STACK_BASE in *. lia.
Qed.

(** X4: a byte pushed and popped again comes back unchanged and SP
    returns to where it was, for every SP including the wrap from 0x00 to
    0xFF; the byte sits at 0x0100 + SP and the pair costs 2 cycles. *)
Theorem push_pop_byte v s :
  is_byte (SP (cpu s)) ->
  let '(r, s') := (PushByteToStack v ;; PopByteFromStack) s in
  r = v /\ SP (cpu s') = SP (cpu s) /\
  data (memory s') (STACK_BASE + SP (cpu s)) = v /\
  cycles s' = to_cycles (cycles s + 2).
Proof.
  destruct s as [[a x y pc sp p total] [mem] cy]. cbn [cpu SP]. intros Hsp.
  exec. rewrite byte_pred_succ by assumption.
  assert (Hw : to_word (STACK_BASE + sp) = STACK_BASE + sp).
  { apply to_word_small. unfold is_word, is_byte, STACK_BASE in *. lia. }
  rewrite Hw, Z.eqb_refl, to_cycles_add_add. repeat split.
Qed.

Lemma push_pop_byte_witness :
  fst ((PushByteToStack 0x7E ;; PopByteFromStack) (mkState CPU_new Memory_new 0))
  = 0x7E.
Proof.
  generalize (push_pop_byte 0x7E (mkState CPU_new Memory_new 0)
                ltac:(split; [discriminate | reflexivity])).
  destruct ((PushByteToStack 0x7E ;; PopByteFromStack)
              (mkState CPU_new Memory_new 0)) as [r s'].
  intros [H _]. exact H.
Defined.

(** X5: a word pushed and popped again comes back unchanged with SP
    restored; the high byte is pushed first, so it lies at 0x0100 + SP and
    the low byte one cell below (wrapping inside page 1). *)
Theorem push_pop_word w s :
  is_byte (SP (cpu s)) -> is_word w ->
  let '(r, s') := (PushWordToStack w ;; PopWordFromStack) s in
  r = w /\ SP (cpu s') = SP (cpu s) /\
  data (memory s') (STACK_BASE + SP (cpu s)) = w / 256 /\
  data (memory s') (STACK_BASE + to_byte (SP (cpu s) - 1)) = w mod 256.
Proof.
  destruct s as [[a x y pc sp p total] [mem] cy]. cbn [cpu SP]. intros Hsp Hw.
  exec.
  assert (H1 : to_byte (to_byte (to_byte (sp - 1) - 1) + 1) = to_byte (sp - 1))
    by (apply byte_pred_succ, to_byte_is_byte).
  rewrite H1, byte_pred_succ by assumption.
  assert (E1 : to_word (STACK_BASE + sp) = STACK_BASE + sp).
  { apply to_word_small. unfold is_word, is_byte, STACK_BASE in *. lia. }
  assert (E2 : to_word (STACK_BASE + to_byte (sp - 1)) = STACK_BASE + to_byte (sp - 1)).
  { apply to_word_small. pose proof (to_byte_is_byte (sp - 1)).
    unfold is_word, is_byte, STACK_BASE in *. lia. }
  rewrite E1, E2.
  assert (Hne : (STACK_BASE + sp =? STACK_BASE + to_byte (sp - 1)) = false).
  { apply Z.eqb_neq. unfold to_byte, is_byte in *. Z.div_mod_to_equations. lia. }
  rewrite !Z.eqb_refl, !Hne.
  assert (Hlo : is_byte (Z.land w 0xFF))
    by (rewrite land_FF; apply to_byte_is_byte).
  assert (Hhi : is_byte (Z.land (Z.shiftr w 8) 0xFF))
    by (rewrite land_FF; apply to_byte_is_byte).
  rewrite word_of_bytes by assumption.
  unfold is_word in Hw. rewrite !land_FF, Z.shiftr_div_pow2 by lia.
  change (2 ^ 8) with 256.
  repeat split; Z.div_mod_to_equations; lia.
Qed.

Lemma push_pop_word_witness :
  fst ((PushWordToStack 0x1234 ;; PopWordFromStack)
         (mkState CPU_new Memory_new 0)) = 0x1234.
Proof.
  generalize (push_pop_word 0x1234 (mkState CPU_new Memory_new 0)
                ltac:(split; [discriminate | reflexivity])
                ltac:(split; [discriminate | reflexivity])).
  destruct ((PushWordToStack 0x1234 ;; PopWordFromStack)
              (mkState CPU_new Memory_new 0)) as [r s'].
  intros [H _]. exact H.
Defined.

(* ------------------------------------------------------------------ *)
(** ** PHA and PLA *)

Lemma Execute_PHA c m :
  data m (PC c) = INS_PHA ->
  Execute c m =
  (3, set_TotalCycles (to_cycles (TotalCycles c + 3))
        (set_SP (to_byte (SP c - 1)) (set_PC (to_word (PC c + 1)) c)),
   store m (to_word (STACK_BASE + SP c)) (A c)).
Proof. intros H. dispatch H PHA. destruct c. reflexivity. Qed.

Lemma Execute_PLA c m :
  data m (PC c) = INS_PLA ->
  let sp := to_byte (SP c + 1) in
  let v := data m (to_word (STACK_BASE + sp)) in
  Execute c m =
  (4, set_TotalCycles (to_cycles (TotalCycles c + 4))
        (UpdateZeroAndNegativeFlags v
           (set_A v (set_SP sp (set_PC (to_word (PC c + 1)) c)))),
   m).
Proof.
  intros H. dispatch H PLA. run. autorewrite with regs. proj.
  destruct m. reflexivity.
Qed.

(** X6: PHA followed by PLA (the PLA not lying in the stack cell PHA
    writes) leaves A and SP as they were, sets Z and N from A, moves PC
    two bytes on and costs 3 + 4 cycles. *)
Theorem PHA_PLA c m :
  is_byte (SP c) ->
  data m (PC c) = INS_PHA ->
  data m (to_word (PC c + 1)) = INS_PLA ->
  to_word (PC c + 1) <> STACK_BASE + SP c ->
  let '(c', m') := steps 2 c m in
  A c' = A c /\ SP c' = SP c /\
  PC c' = to_word (PC c + 2) /\
  GetFlag FLAG_ZERO c' = (A c =? 0) /\
  GetFlag FLAG_NEGATIVE c' = Z.testbit (A c) 7 /\
  TotalCycles c' = to_cycles (TotalCycles c + 7) /\
  data m' (STACK_BASE + SP c) = A c.
Proof.
  intros Hsp H1 H2 Hne. cbn [steps].
  rewrite (Execute_PHA c m H1).
  rewrite stack_cell_word by assumption.
  rewrite Execute_PLA.
  2:{ cbn [PC set_TotalCycles set_SP set_PC data store].
      apply Z.eqb_neq in Hne. rewrite Hne. exact H2. }
  cbv zeta. proj.
  rewrite byte_pred_succ, stack_cell_word by assumption.
  cbn [data store]. rewrite Z.eqb_refl.
  autorewrite with regs. rewrite UpdateZN_Z, UpdateZN_N. proj.
  rewrite to_word_add_l, to_cycles_add_add.
  repeat split. f_equal. lia.
Qed.

Lemma PHA_PLA_witness :
  let '(c', m') := steps 2 (fst pha_pla_case) (snd pha_pla_case) in
  A c' = 0x42 /\ SP c' = 0xFD.
Proof.
  generalize (PHA_PLA (fst pha_pla_case) (snd pha_pla_case)
                ltac:(split; [discriminate | reflexivity])
                eq_refl eq_refl ltac:(discriminate)).
  destruct (steps 2 (fst pha_pla_case) (snd pha_pla_case)) as [c' m'].
  intros (HA & HS & _). split; [exact HA | exact HS].
Defined.

(* ------------------------------------------------------------------ *)
(** ** JSR and RTS *)

Lemma Execute_JSR c m :
  data m (PC c) = INS_JSR ->
  let operand := to_word (PC c + 1) in
  let target :=
    to_word (Z.lor (Z.shiftl (data m (to_word (operand + 1))) 8) (data m operand)) in
  let ret := to_word (to_word (operand + 2) - 1) in
  Execute c m =
  (6, set_TotalCycles (to_cycles (TotalCycles c + 6))
        (set_SP (to_byte (to_byte (SP c - 1) - 1)) (set_PC target c)),
   store (store m (to_word (STACK_BASE + SP c)) (Z.land (Z.shiftr ret 8) 0xFF))
         (to_word (STACK_BASE + to_byte (SP c - 1))) (Z.land ret 0xFF)).
Proof. intros H. dispatch H (AddrAbsolute >>= JSR). destruct c, m. reflexivity. Qed.

Lemma Execute_RTS c m :
  data m (PC c) = INS_RTS ->
  let sp1 := to_byte (SP c + 1) in
  let sp2 := to_byte (sp1 + 1) in
  let ret := to_word (Z.lor (Z.shiftl (data m (to_word (STACK_BASE + sp2))) 8)
                            (data m (to_word (STACK_BASE + sp1)))) in
  Execute c m =
  (6, set_TotalCycles (to_cycles (TotalCycles c + 6))
        (set_SP sp2 (set_PC (to_word (ret + 1)) c)),
   m).
Proof. intros H. dispatch H RTS. destruct c, m. reflexivity. Qed.

Lemma to_word_idem z : to_word (to_word z) = to_word z.
Proof. unfold to_word. apply Z.mod_mod. lia. Qed.

(** X7: JSR to a target holding RTS (the target not being one of the two
    stack cells JSR writes) followed by that RTS brings PC to the
    instruction after the JSR, three bytes on, with SP, A, X, Y and P as
    they were; the two steps cost 6 + 6 cycles. *)
Theorem JSR_RTS c m :
  is_byte (SP c) ->
  data m (PC c) = INS_JSR ->
  let operand := to_word (PC c + 1) in
  let target :=
    to_word (Z.lor (Z.shiftl (data m (to_word (operand + 1))) 8) (data m operand)) in
  data m target = INS_RTS ->
  target <> STACK_BASE + SP c ->
  target <> STACK_BASE + to_byte (SP c - 1) ->
  let '(c', m') := steps 2 c m in
  PC c' = to_word (PC c + 3) /\ SP c' = SP c /\
  A c' = A c /\ X c' = X c /\ Y c' = Y c /\ P c' = P c /\
  TotalCycles c' = to_cycles (TotalCycles c + 12).
Proof.
  intros Hsp H1 operand target H2 Hn1 Hn2. cbn [steps].
  rewrite (Execute_JSR c m H1). cbv zeta. fold operand. fold target.
  rewrite stack_cell_word by assumption.
  rewrite (stack_cell_word (to_byte (SP c - 1))) by apply to_byte_is_byte.
  set (ret := to_word (to_word (operand + 2) - 1)).
  assert (Hret : is_word ret) by apply to_word_is_word.
  rewrite Execute_RTS.
  2:{ proj. cbn [data store]. apply Z.eqb_neq in Hn1, Hn2.
      rewrite Hn1, Hn2. exact H2. }
  cbv zeta. proj.
  assert (E1 : to_byte (to_byte (to_byte (SP c - 1) - 1) + 1) = to_byte (SP c - 1))
    by (apply byte_pred_succ, to_byte_is_byte).
  rewrite E1, byte_pred_succ by assumption.
  rewrite stack_cell_word by assumption.
  rewrite (stack_cell_word (to_byte (SP c - 1))) by apply to_byte_is_byte.
  cbn [data store]. rewrite !Z.eqb_refl.
  assert (Hne : (STACK_BASE + SP c =? STACK_BASE + to_byte (SP c - 1)) = false).
  { apply Z.eqb_neq. unfold to_byte, is_byte in *. Z.div_mod_to_equations. lia. }
  rewrite Hne.
  rewrite word_of_bytes, word_bytes
    by (assumption || (rewrite land_FF; apply to_byte_is_byte)).
  rewrite to_cycles_add_add.
  repeat split.
  subst ret operand. unfold to_word. 
  rewrite <- (Z.mod_mod (PC c + 3) 65536) by lia.
  Z.div_mod_to_equations. lia.
Qed.

Lemma JSR_RTS_witness :
  let '(c', m') := steps 2 (fst jsr_rts_case) (snd jsr_rts_case) in
  PC c' = 0x1003 /\ SP c' = 0xFD.
Proof.
  generalize (JSR_RTS (fst jsr_rts_case) (snd jsr_rts_case)
                ltac:(split; [discriminate | reflexivity])
                eq_refl eq_refl ltac:(discriminate) ltac:(discriminate)).
  destruct (steps 2 (fst jsr_rts_case) (snd jsr_rts_case)) as [c' m'].
  intros (HP & HS & _). split; [exact HP | exact HS].
Defined.

(* ------------------------------------------------------------------ *)
(** ** What a step leaves alone *)

Section Frame.
Variable R : State -> State -> Prop.
Hypothesis R_refl : forall s, R s s.
Hypothesis R_trans : forall s1 s2 s3, R s1 s2 -> R s2 s3 -> R s1 s3.

Lemma frame_ret {T} (x : T) : frame R (ret x).
Proof. intros s. apply R_refl. Qed.

Lemma frame_get {T} (f : CPU -> T) : frame R (get f).
Proof. intros s. apply R_refl. Qed.

Lemma frame_bind {T U} (m : M T) (k : T -> M U) :
  frame R m -> (forall x, frame R (k x)) -> frame R (bind m k).
Proof.
  intros Hm Hk s. unfold bind. specialize (Hm s).
  destruct (m s) as [x s1]. cbn [snd] in Hm.
  exact (R_trans _ _ _ Hm (Hk x s1)).
Qed.

Lemma frame_when b m : frame R m -> frame R (when b m).
Proof. intros Hm. destruct b; [exact Hm | apply frame_ret]. Qed.

Lemma frame_switch (Q : Z -> bool) x (cases : list (Z * M unit)) d :
  Forall (fun cb => Q (fst cb) = false -> frame R (snd cb)) cases ->
  frame R d -> Q x = false -> frame R (switch x cases d).
Proof.
  intros Hc Hd Hx. induction Hc as [|[label body] rest Hb _ IH]; cbn.
  - exact Hd.
  - destruct (Z.eqb_spec x label) as [->|_]; [exact (Hb Hx) | exact IH].
Qed.
End Frame.

Lemma same_memory_refl s : same_memory s s.
Proof. reflexivity. Qed.
Lemma same_memory_trans s1 s2 s3 :
  same_memory s1 s2 -> same_memory s2 s3 -> same_memory s1 s3.
Proof. unfold same_memory. congruence. Qed.
Lemma same_TotalCycles_refl s : same_TotalCycles s s.
Proof. reflexivity. Qed.
Lemma same_TotalCycles_trans s1 s2 s3 :
  same_TotalCycles s1 s2 -> same_TotalCycles s2 s3 -> same_TotalCycles s1 s3.
Proof. unfold same_TotalCycles. congruence. Qed.

(** Break a computation into its primitive accesses; [prim] settles each
    of them. *)
Ltac frame_steps refl trans prim :=
  repeat lazymatch goal with
  | |- frame _ (bind _ _) => apply (frame_bind _ trans); [|intro]
  | |- frame _ (ret _) => apply (frame_ret _ refl)
  | |- frame _ (get _) => apply (frame_get _ refl)
  | |- frame _ (when _ _) => apply (frame_when _ refl)
  | |- frame _ (if ?b then _ else _) => destruct b
  | |- frame _ (let _ := _ in _) => cbv zeta
  | |- frame _ _ => intros ?s; prim
  end.

Ltac memory_prim := reflexivity.
Ltac total_prim :=
  unfold same_TotalCycles, modify; cbn [snd cpu];
  autorewrite with regs; reflexivity.

Lemma Execute_cases_keep_TotalCycles :
  Forall (fun cb => (fun _ : Z => false) (fst cb) = false ->
                    frame same_TotalCycles (snd cb)) Execute_cases.
Proof.
  unfold Execute_cases.
  repeat (apply Forall_cons; [cbn [snd]; intros _|]); try apply Forall_nil.
  all: unfold PLP, RTI; unfold_instructions; unfold_helpers.
  all: frame_steps same_TotalCycles_refl same_TotalCycles_trans total_prim.
Qed.

Lemma Execute_cases_keep_memory :
  Forall (fun cb => is_writing_opcode (fst cb) = false ->
                    frame same_memory (snd cb)) Execute_cases.
Proof.
  unfold Execute_cases.
  repeat (apply Forall_cons; [cbn [fst snd]; intros Hw|]); try apply Forall_nil.
  all: try discriminate Hw.
  all: clear Hw; unfold PLP, RTI; unfold_instructions; unfold_helpers.
  all: frame_steps same_memory_refl same_memory_trans memory_prim.
Qed.

(** X8: every step returns between 2 and 7 cycles, and [TotalCycles]
    grows by exactly the returned count (in the 64-bit counter). *)
Theorem step_cost c m :
  let '(used, c', _) := Execute c m in
  2 <= used <= 7 /\ TotalCycles c' = to_cycles (TotalCycles c + used).
Proof.
  pose proof (Execute_cycles_bounds c m) as Hb.
  rewrite Execute_eq in *. cbv zeta in *. cbn [fst] in Hb. split; [exact Hb|].
  proj. f_equal. f_equal.
  apply (frame_switch same_TotalCycles (fun _ => false) (data m (PC c))
           Execute_cases Execute_default Execute_cases_keep_TotalCycles);
    [|reflexivity].
  intros s. reflexivity.
Qed.

(** X9: only the stores, the read-modify-write instructions on memory,
    PHA, PHP, JSR and BRK write: a step on any other opcode byte hands the
    memory back unchanged. *)
Theorem reading_step_keeps_memory c m :
  is_writing_opcode (data m (PC c)) = false ->
  snd (Execute c m) = m.
Proof.
  intros H. rewrite Execute_eq. cbv zeta. cbn [snd].
  apply (frame_switch same_memory is_writing_opcode (data m (PC c))
           Execute_cases Execute_default Execute_cases_keep_memory);
    [|exact H].
  intros s. reflexivity.
Qed.

Lemma reading_step_keeps_memory_witness :
  snd (Execute (fst loop_branch) (snd loop_branch)) = snd loop_branch.
Proof.
  exact (reading_step_keeps_memory (fst loop_branch) (snd loop_branch) eq_refl).
Defined.

Lemma writing_opcodes_legal :
  forallb is_legal_opcode writing_opcodes = true /\
  length writing_opcodes = 41%nat.
Proof. split; reflexivity. Qed.

(* ------------------------------------------------------------------ *)
(** ** Loads through the indexed addressing modes *)

Lemma loaded_UpdateZN v t c :
  loaded v (set_TotalCycles t (UpdateZeroAndNegativeFlags v c)).
Proof.
  unfold loaded. autorewrite with regs. rewrite UpdateZN_Z, UpdateZN_N.
  split; reflexivity.
Qed.

Ltac load_step H body :=
  dispatch H body; unfold addCycleOnPageCross_default; run;
  autorewrite with regs; proj.

(** X10: LDA absolute,X and LDA absolute,Y load from base + index (in
    16-bit arithmetic), set Z and N from the loaded byte, and cost 4 cycles
    when base and effective address share a page and 5 when they do not. *)
Theorem LDA_absolute_indexed c m :
  wf_memory m ->
  let operand := to_word (PC c + 1) in
  let base := data m operand + 256 * data m (to_word (operand + 1)) in
  forall index,
    (data m (PC c) = INS_LDA_ABSX /\ index = X c) \/
    (data m (PC c) = INS_LDA_ABSY /\ index = Y c) ->
    let ea := to_word (base + index) in
    let '(used, c', _) := Execute c m in
    A c' = data m ea /\ loaded (data m ea) c' /\
    used = (if base / 256 =? ea / 256 then 4 else 5) /\
    PC c' = to_word (PC c + 3).
Proof.
  intros Hm operand base index Hop ea.
  assert (Hbase : is_word base).
  { pose proof (Hm operand). pose proof (Hm (to_word (operand + 1))).
    unfold base, is_word, is_byte in *. lia. }
  assert (Hpage : page_differs base ea = negb (base / 256 =? ea / 256))
    by (apply page_differs_div; [assumption | apply to_word_is_word]).
  assert (Hpc : to_word (to_word (PC c + 1) + 2) = to_word (PC c + 3))
    by (rewrite to_word_add_l; f_equal; lia).
  destruct Hop as [[H ->] | [H ->]].
  - load_step H (AddrAbsoluteX_dflt >>= LDA).
    fold operand. rewrite (word_of_bytes _ _ (Hm _) (Hm _)).
    fold base. fold ea. rewrite Hpage.
    destruct (base / 256 =? ea / 256); cbn [negb]; run;
      autorewrite with regs; proj;
      (split; [reflexivity|]; split; [apply loaded_UpdateZN|];
       split; [reflexivity | exact Hpc]).
  - load_step H (AddrAbsoluteY_dflt >>= LDA).
    fold operand. rewrite (word_of_bytes _ _ (Hm _) (Hm _)).
    fold base. fold ea. rewrite Hpage.
    destruct (base / 256 =? ea / 256); cbn [negb]; run;
      autorewrite with regs; proj;
      (split; [reflexivity|]; split; [apply loaded_UpdateZN|];
       split; [reflexivity | exact Hpc]).
Qed.

Lemma wf_lda_absx_case : wf_memory (snd lda_absx_case).
Proof.
  cbn [snd lda_absx_case].
  repeat apply wf_memory_poke; try apply wf_memory_new.
  all: repeat (apply Forall_cons || apply Forall_nil); byte_literal.
Defined.

Lemma LDA_absolute_indexed_witness :
  let '(used, c', _) := Execute (fst lda_absx_case) (snd lda_absx_case) in
  A c' = 0x99 /\ used = 5.
Proof.
  generalize (LDA_absolute_indexed (fst lda_absx_case) (snd lda_absx_case)
                wf_lda_absx_case 0x20 (or_introl (conj eq_refl eq_refl))).
  cbv zeta.
  destruct (Execute (fst lda_absx_case) (snd lda_absx_case)) as [[used c'] m'].
  intros (HA & _ & Hu & _). split; [exact HA | exact Hu].
Defined.

(** X11: zero-page indexed addressing wraps inside page zero: LDA zp,X
    and LDX zp,Y load from (operand + index) mod 256, and cost 4 cycles. *)
Theorem zero_page_indexed c m :
  let operand := data m (to_word (PC c + 1)) in
  (data m (PC c) = INS_LDA_ZPX ->
   let ea := to_byte (operand + X c) in
   let '(used, c', _) := Execute c m in
   is_byte ea /\ A c' = data m ea /\ loaded (data m ea) c' /\ used = 4) /\
  (data m (PC c) = INS_LDX_ZPY ->
   let ea := to_byte (operand + Y c) in
   let '(used, c', _) := Execute c m in
   is_byte ea /\ X c' = data m ea /\ loaded (data m ea) c' /\ used = 4).
Proof.
  intros operand. split; intros H ea.
  - load_step H (AddrZeroPageX >>= LDA). fold operand. fold ea.
    split; [apply to_byte_is_byte|]. split; [reflexivity|].
    split; [apply loaded_UpdateZN | reflexivity].
  - load_step H (AddrZeroPageY >>= LDX). fold operand. fold ea.
    split; [apply to_byte_is_byte|]. split; [reflexivity|].
    split; [apply loaded_UpdateZN | reflexivity].
Qed.

(** X12: LDA (zp,X) takes its pointer at (operand + X) mod 256 and reads
    the pointer's high byte from the next zero-page cell, wrapping from
    0xFF to 0x00; the step costs 6 cycles. *)
Theorem LDA_indexed_indirect c m :
  wf_memory m ->
  data m (PC c) = INS_LDA_INDX ->
  let pointer := to_byte (data m (to_word (PC c + 1)) + X c) in
  let ea := data m pointer + 256 * data m (to_byte (pointer + 1)) in
  let '(used, c', _) := Execute c m in
  A c' = data m ea /\ loaded (data m ea) c' /\ used = 6.
Proof.
  intros Hm H pointer ea. load_step H (AddrIndexedIndirect >>= LDA).
  fold pointer. rewrite land_FF. change ((pointer + 1) mod 256) with (to_byte (pointer + 1)).
  rewrite (word_of_bytes _ _ (Hm _) (Hm _)). fold ea.
  split; [reflexivity|]. split; [apply loaded_UpdateZN | reflexivity].
Qed.

(** X13: LDA (zp),Y reads its base address from the zero-page cells
    operand and (operand + 1) mod 256, loads from base + Y, and costs 5
    cycles, or 6 when adding Y crosses a page. *)
Theorem LDA_indirect_indexed c m :
  wf_memory m ->
  data m (PC c) = INS_LDA_INDY ->
  let pointer := data m (to_word (PC c + 1)) in
  let base := data m pointer + 256 * data m (to_byte (pointer + 1)) in
  let ea := to_word (base + Y c) in
  let '(used, c', _) := Execute c m in
  A c' = data m ea /\ loaded (data m ea) c' /\
  used = (if base / 256 =? ea / 256 then 5 else 6).
Proof.
  intros Hm H pointer base ea.
  assert (Hbase : is_word base).
  { pose proof (Hm pointer). pose proof (Hm (to_byte (pointer + 1))).
    unfold base, is_word, is_byte in *. lia. }
  assert (Hpage : page_differs base ea = negb (base / 256 =? ea / 256))
    by (apply page_differs_div; [assumption | apply to_word_is_word]).
  load_step H (AddrIndirectIndexed_dflt >>= LDA).
  fold pointer. rewrite land_FF.
  change ((pointer + 1) mod 256) with (to_byte (pointer + 1)).
  rewrite (word_of_bytes _ _ (Hm _) (Hm _)). fold base. fold ea. rewrite Hpage.
  destruct (base / 256 =? ea / 256); cbn [negb]; run;
    autorewrite with regs; proj;
    (split; [reflexivity|]; split; [apply loaded_UpdateZN | reflexivity]).
Qed.

(** Memories built by [poke] from byte literals hold bytes. *)
Ltac wf_poked :=
  cbn [snd];
  repeat apply wf_memory_poke; try apply wf_memory_new;
  repeat (apply Forall_cons || apply Forall_nil); byte_literal.

Lemma zero_page_indexed_witness :
  let '(used, c', _) := Execute (fst lda_zpx_case) (snd lda_zpx_case) in
  A c' = 0x77.
Proof.
  generalize (proj1 (zero_page_indexed (fst lda_zpx_case) (snd lda_zpx_case))
                eq_refl).
  cbv zeta.
  destruct (Execute (fst lda_zpx_case) (snd lda_zpx_case)) as [[used c'] m'].
  intros (_ & HA & _). exact HA.
Defined.

Lemma LDA_indexed_indirect_witness :
  wf_memory (snd lda_indx_case) /\
  let '(used, c', _) := Execute (fst lda_indx_case) (snd lda_indx_case) in
  A c' = 0x5A.
Proof.
  assert (Hm : wf_memory (snd lda_indx_case)) by (unfold lda_indx_case; wf_poked).
  split; [exact Hm|].
  generalize (LDA_indexed_indirect (fst lda_indx_case) (snd lda_indx_case)
                Hm eq_refl).
  cbv zeta.
  destruct (Execute (fst lda_indx_case) (snd lda_indx_case)) as [[used c'] m'].
  intros (HA & _). exact HA.
Defined.

Lemma LDA_indirect_indexed_witness :
  wf_memory (snd lda_indy_case) /\
  let '(used, c', _) := Execute (fst lda_indy_case) (snd lda_indy_case) in
  A c' = 0x5A /\ used = 6.
Proof.
  assert (Hm : wf_memory (snd lda_indy_case)) by (unfold lda_indy_case; wf_poked).
  split; [exact Hm|].
  generalize (LDA_indirect_indexed (fst lda_indy_case) (snd lda_indy_case)
                Hm eq_refl).
  cbv zeta.
  destruct (Execute (fst lda_indy_case) (snd lda_indy_case)) as [[used c'] m'].
  intros (HA & _ & Hu). split; [exact HA | exact Hu].
Defined.

(* ------------------------------------------------------------------ *)
(** ** Binary arithmetic and comparisons *)

Lemma testbit_7 x : Z.testbit x 7 = (128 <=? x mod 256).
Proof.
  destruct (Z.testbit x 7) eqn:E.
  - apply Z.testbit_true in E; [|lia]. change (2 ^ 7) with 128 in E.
    symmetry. apply Z.leb_le. Z.div_mod_to_equations. lia.
  - apply Z.testbit_false in E; [|lia]. change (2 ^ 7) with 128 in E.
    symmetry. apply Z.leb_gt. Z.div_mod_to_equations. lia.
Qed.

Lemma observe_after_binary a' bC bV c :
  observe (UpdateZeroAndNegativeFlags a'
             (set_A a' (SetFlag FLAG_OVERFLOW bV (SetFlag FLAG_CARRY bC c)))) =
  mkALU a' bC (Z.testbit a' 7) (a' =? 0) bV.
Proof.
  unfold observe. autorewrite with regs. rewrite UpdateZN_Z, UpdateZN_N.
  rewrite !GetFlag_UpdateZN by tauto. autorewrite with regs. proj.
  flag_bits. rewrite !GetFlag_SetFlag by lia. reflexivity.
Qed.

(** Bit 7 of [(a ^ s) & (m ^ s)]: the operands agree in sign and the sum
    does not. *)
Lemma overflow_bit a m s :
  nonzero (Z.land (Z.land (Z.lxor a s) (Z.lxor m s)) 0x80) =
  xorb (128 <=? a mod 256) (128 <=? s mod 256)
  && xorb (128 <=? m mod 256) (128 <=? s mod 256).
Proof.
  rewrite nonzero_land_80, Z.land_spec, !Z.lxor_spec, !testbit_7. reflexivity.
Qed.

Lemma signed_byte b :
  is_byte b -> to_signed_byte b = if 128 <=? b then b - 256 else b.
Proof.
  intros Hb. unfold to_signed_byte. rewrite to_byte_small by assumption.
  destruct (Z.ltb_spec b 128), (Z.leb_spec 128 b); lia.
Qed.

(** X14: with D clear, ADC leaves A = (A + M + C) mod 256, C = the carry
    out of bit 7, Z and N from the new A, and V set exactly when the sum
    of A and M read as signed bytes, plus C, is outside -128..127. *)
Theorem ADC_binary s address :
  GetFlag FLAG_DECIMAL (cpu s) = false ->
  is_byte (A (cpu s)) -> is_byte (data (memory s) address) ->
  observe (cpu (snd (ADC address s))) =
  ADC_binary_spec (A (cpu s)) (data (memory s) address)
                  (GetFlag FLAG_CARRY (cpu s)).
Proof.
  intros HD Ha Hv. run. rewrite HD.
  remember (A (cpu s)) as a eqn:Ea. remember (data (memory s) address) as v eqn:Ev.
  unfold ADC_binary_spec.
  remember (if GetFlag FLAG_CARRY (cpu s) then 1 else 0) as cin eqn:Ec.
  assert (Hc : 0 <= cin <= 1)
    by (rewrite Ec; destruct (GetFlag FLAG_CARRY (cpu s)); lia).
  clear Ea Ev Ec. run. autorewrite with regs. proj.
  rewrite observe_after_binary, overflow_bit, testbit_7.
  rewrite !signed_byte by assumption.
  unfold is_byte in *. cbv delta [Byte Word] in *.
  rewrite (to_word_small (a + v + cin)) by (unfold is_word; lia).
  rewrite land_FF, Z.gtb_ltb.
  rewrite (to_byte_small ((a + v + cin) mod 256)) by apply to_byte_is_byte.
  rewrite Z.mod_mod by lia.
  rewrite (Z.mod_small a 256), (Z.mod_small v 256) by lia.
  f_equal.
  destruct (Z.leb_spec 128 a), (Z.leb_spec 128 v),
    (Z.leb_spec 128 ((a + v + cin) mod 256)); cbn [xorb andb negb];
    symmetry;
    repeat match goal with
    | |- context [?x <=? ?y] => destruct (Z.leb_spec x y); cbn [andb negb]
    end; try reflexivity; exfalso; Z.div_mod_to_equations; lia.
Qed.

Lemma lxor_FF_byte v : is_byte v -> Z.lxor v 0xFF = 255 - v.
Proof.
  intros Hv.
  assert (H : Z.land v (Z.lxor v 0xFF) = 0).
  { apply Z.bits_inj'. intros n Hn.
    rewrite Z.land_spec, Z.lxor_spec, Z.bits_0.
    destruct (Z.ltb_spec n 8).
    - change 0xFF with (Z.ones 8). rewrite Z.ones_spec_low by lia.
      destruct (Z.testbit v n); reflexivity.
    - rewrite (byte_bits_high v n) by assumption. reflexivity. }
  apply Z.add_nocarry_lxor in H.
  rewrite <- Z.lxor_assoc, Z.lxor_nilpotent, Z.lxor_0_l in H. lia.
Qed.

(** X15: with D clear, SBC leaves A = (A - M - (1 - C)) mod 256, C set
    exactly when no borrow was needed, Z and N from the new A, and V set
    exactly when the signed difference is outside -128..127. *)
Theorem SBC_binary s address :
  GetFlag FLAG_DECIMAL (cpu s) = false ->
  is_byte (A (cpu s)) -> is_byte (data (memory s) address) ->
  observe (cpu (snd (SBC address s))) =
  SBC_binary_spec (A (cpu s)) (data (memory s) address)
                  (GetFlag FLAG_CARRY (cpu s)).
Proof.
  intros HD Ha Hv. run. rewrite HD.
  remember (A (cpu s)) as a eqn:Ea. remember (data (memory s) address) as v eqn:Ev.
  unfold SBC_binary_spec.
  assert (Hc : (if GetFlag FLAG_CARRY (cpu s) then 1 else 0)
               = 1 - (if GetFlag FLAG_CARRY (cpu s) then 0 else 1))
    by (destruct (GetFlag FLAG_CARRY (cpu s)); reflexivity).
  rewrite Hc.
  remember (if GetFlag FLAG_CARRY (cpu s) then 0 else 1) as borrow eqn:Eb.
  assert (Hb : 0 <= borrow <= 1)
    by (rewrite Eb; destruct (GetFlag FLAG_CARRY (cpu s)); lia).
  clear Ea Ev Eb Hc. run. autorewrite with regs. proj.
  rewrite observe_after_binary, overflow_bit, testbit_7.
  rewrite !signed_byte by assumption.
  rewrite lxor_FF_byte by assumption.
  unfold is_byte in *. cbv delta [Byte Word] in *.
  rewrite (to_word_small (a + (255 - v) + (1 - borrow))) by (unfold is_word; lia).
  rewrite land_FF, Z.gtb_ltb.
  rewrite (to_byte_small ((a + (255 - v) + (1 - borrow)) mod 256))
    by apply to_byte_is_byte.
  rewrite Z.mod_mod by lia.
  replace ((a + (255 - v) + (1 - borrow)) mod 256) with ((a - v - borrow) mod 256)
    by (Z.div_mod_to_equations; lia).
  rewrite (Z.mod_small a 256), (Z.mod_small (255 - v) 256) by lia.
  f_equal.
  - destruct (Z.ltb_spec 255 (a + (255 - v) + (1 - borrow))),
      (Z.leb_spec 0 (a - v - borrow)); try reflexivity; lia.
  - destruct (Z.leb_spec 128 a), (Z.leb_spec 128 v), (Z.leb_spec 128 (255 - v)),
      (Z.leb_spec 128 ((a - v - borrow) mod 256)); cbn [xorb andb negb];
      try lia; symmetry;
      repeat match goal with
      | |- context [?x <=? ?y] => destruct (Z.leb_spec x y); cbn [andb negb]
      end; try reflexivity; exfalso; Z.div_mod_to_equations; lia.
Qed.

Lemma CompareRegister_flags r v c :
  compared r v (CompareRegister r v c) /\
  (forall f, f = FLAG_OVERFLOW \/ f = FLAG_DECIMAL \/ f = FLAG_INTERRUPT \/
             f = FLAG_BREAK \/ f = FLAG_UNUSED ->
             GetFlag f (CompareRegister r v c) = GetFlag f c).
Proof.
  unfold compared, CompareRegister. split.
  - rewrite nonzero_land_80, testbit_7. flag_bits.
    rewrite !GetFlag_SetFlag by lia. cbn [Z.eqb Pos.eqb].
    rewrite Z.geb_leb. repeat split.
    f_equal. unfold to_word. Z.div_mod_to_equations. lia.
  - flag_bits. intros f [-> | [-> | [-> | [-> | ->]]]];
      rewrite !GetFlag_SetFlag by lia; reflexivity.
Qed.

(** X16: CMP, CPX and CPY set C iff the register is at least the operand,
    Z iff they are equal and N to bit 7 of their difference mod 256; they
    leave A, X, Y, SP and PC alone, and CMP leaves V alone. *)
Theorem compare_instructions s address :
  let v := data (memory s) address in
  let c := cpu s in
  (compared (A c) v (cpu (snd (CMP address s))) /\
   compared (X c) v (cpu (snd (CPX address s))) /\
   compared (Y c) v (cpu (snd (CPY address s)))) /\
  (same_registers c (cpu (snd (CMP address s))) /\
   same_registers c (cpu (snd (CPX address s))) /\
   same_registers c (cpu (snd (CPY address s)))) /\
  GetFlag FLAG_OVERFLOW (cpu (snd (CMP address s))) = GetFlag FLAG_OVERFLOW c.
Proof.
  intros v c. subst v c. run. unfold same_registers. autorewrite with regs.
  split; [|split; [repeat split|]].
  - repeat split; apply CompareRegister_flags.
  - apply (proj2 (CompareRegister_flags _ _ _)). tauto.
Qed.

Lemma ADC_binary_witness :
  observe (cpu (snd (ADC 0x0010 adc_binary_case))) =
  mkALU 0xA0 false true false true.
Proof.
  exact (ADC_binary adc_binary_case 0x0010 eq_refl
           ltac:(cbn; byte_literal) ltac:(cbn; byte_literal)).
Defined.

Lemma SBC_binary_witness :
  observe (cpu (snd (SBC 0x0010 sbc_binary_case))) =
  mkALU 0xA0 false true false true.
Proof.
  exact (SBC_binary sbc_binary_case 0x0010 eq_refl
           ltac:(cbn; byte_literal) ltac:(cbn; byte_literal)).
Defined.

(* ------------------------------------------------------------------ *)
(** ** Decimal arithmetic on BCD operands *)

Lemma bcd_in_bytes b : is_bcd b -> In b bcd_bytes.
Proof.
  unfold is_bcd, bcd_bytes. intros Hb.
  assert (E : b = bcd_encode (Z.of_nat (Z.to_nat (bcd_value b)))).
  { unfold bcd_value, bcd_encode. rewrite Z2Nat.id by (Z.div_mod_to_equations; lia).
    Z.div_mod_to_equations. lia. }
  rewrite E. apply in_map, in_map, in_seq.
  unfold bcd_value. Z.div_mod_to_equations. lia.
Qed.

Lemma bcd_cases (f : Z -> Z -> bool) :
  forallb (fun a => forallb (f a) bcd_bytes) bcd_bytes = true ->
  forall a v, is_bcd a -> is_bcd v -> f a v = true.
Proof.
  intros H a v Ha Hv. rewrite forallb_forall in H.
  specialize (H a (bcd_in_bytes a Ha)). rewrite forallb_forall in H.
  exact (H v (bcd_in_bytes v Hv)).
Qed.

Lemma guarded_reflect (g : bool) (x y : Z) (b c : bool) :
  implb g ((x =? y) && Bool.eqb b c) = true -> g = true -> x = y /\ b = c.
Proof.
  intros H ->. cbn in H. apply andb_true_iff in H. destruct H as [H1 H2].
  split; [apply Z.eqb_eq, H1 | apply Bool.eqb_prop, H2].
Qed.

(** Settle a statement about two BCD bytes by running through the 100 x 100
    of them. *)
Ltac by_bcd a v Ha Hv :=
  revert a v Ha Hv; apply bcd_cases; vm_compute; reflexivity.

(** X17: with D set and both operands BCD, ADC leaves in A the BCD of
    (A + M + C) mod 100 and in C whether the sum reached 100, as long as
    the sum is at most 159; beyond that the code does not adjust the high
    nibble any more: 90 + 90 leaves A = 0x20. *)
Theorem ADC_decimal_bcd :
  (forall s address,
     GetFlag FLAG_DECIMAL (cpu s) = true ->
     let a := A (cpu s) in
     let v := data (memory s) address in
     let total := bcd_value a + bcd_value v
                  + (if GetFlag FLAG_CARRY (cpu s) then 1 else 0) in
     is_bcd a -> is_bcd v -> total <= 159 ->
     let c' := cpu (snd (ADC address s)) in
     A c' = bcd_encode (total mod 100) /\
     GetFlag FLAG_CARRY c' = (100 <=? total)) /\
  A (cpu (snd (ADC 0x0010 bcd_overflow_case))) = 0x20.
Proof.
  split; [|vm_compute; reflexivity].
  intros s address HD a v total Ha Hv Htot c'. subst c'.
  run. rewrite HD. fold a. fold v.
  remember (GetFlag FLAG_CARRY (cpu s)) as carry eqn:Ec. run.
  rewrite !GetFlag_set_A. flag_bits. rewrite !GetFlag_SetFlag by lia.
  cbn [Z.eqb Pos.eqb].
  apply Z.leb_le in Htot. revert Htot. subst total.
  apply guarded_reflect.
  clearbody a v. clear HD Ec.
  destruct carry; by_bcd a v Ha Hv.
Qed.

Lemma pair_reflect (x y : Z) (b c : bool) :
  (x =? y) && Bool.eqb b c = true -> x = y /\ b = c.
Proof.
  intros H. apply andb_true_iff in H. destruct H as [H1 H2].
  split; [apply Z.eqb_eq, H1 | apply Bool.eqb_prop, H2].
Qed.

(** X18: with D set and both operands BCD, SBC leaves in A the BCD of
    (A - M - (1 - C)) mod 100, sets C exactly when no borrow was needed,
    and takes Z and N from the new A. *)
Theorem SBC_decimal_bcd s address :
  GetFlag FLAG_DECIMAL (cpu s) = true ->
  let a := A (cpu s) in
  let v := data (memory s) address in
  let diff := bcd_value a - bcd_value v
              - (if GetFlag FLAG_CARRY (cpu s) then 0 else 1) in
  is_bcd a -> is_bcd v ->
  let c' := cpu (snd (SBC address s)) in
  (A c' = bcd_encode (diff mod 100) /\
   GetFlag FLAG_CARRY c' = (0 <=? diff)) /\
  GetFlag FLAG_ZERO c' = (A c' =? 0) /\
  GetFlag FLAG_NEGATIVE c' = Z.testbit (A c') 7.
Proof.
  intros HD a v diff Ha Hv c'. subst c'.
  run. rewrite HD. fold a. fold v.
  remember (GetFlag FLAG_CARRY (cpu s)) as carry eqn:Ec. run.
  autorewrite with regs. proj. rewrite UpdateZN_Z, UpdateZN_N.
  split; [|split; reflexivity].
  rewrite GetFlag_UpdateZN by tauto. rewrite GetFlag_set_A.
  flag_bits. rewrite GetFlag_SetFlag by lia. cbn [Z.eqb Pos.eqb].
  subst diff. apply pair_reflect.
  clearbody a v. clear HD Ec.
  destruct carry; by_bcd a v Ha Hv.
Qed.

(** Decide [is_bcd] or an order between literals by computation. *)
Ltac bcd_literal := unfold is_bcd; cbn; repeat split; discriminate.

Lemma ADC_decimal_bcd_witness :
  A (cpu (snd (ADC 0x1001 (mkState (fst bcd_add_case) (snd bcd_add_case) 0))))
  = 0x42.
Proof.
  refine (proj1 (proj1 ADC_decimal_bcd
                   (mkState (fst bcd_add_case) (snd bcd_add_case) 0) 0x1001
                   eq_refl _ _ _)); bcd_literal.
Defined.

Lemma SBC_decimal_bcd_witness :
  A (cpu (snd (SBC 0x0010 bcd_sub_case))) = 0x25.
Proof.
  refine (proj1 (proj1 (SBC_decimal_bcd bcd_sub_case 0x0010 eq_refl _ _)));
    bcd_literal.
Defined.

(* ------------------------------------------------------------------ *)
(** ** Rotates through the carry *)

Lemma byte_cases (f : Z -> bool) :
  forallb f all_bytes = true -> forall b, is_byte b -> f b = true.
Proof.
  unfold all_bytes, is_byte. intros H b Hb.
  rewrite forallb_forall in H. apply H.
  rewrite <- (Z2Nat.id b) by lia. apply in_map. apply in_seq. lia.
Qed.

Ltac norm_regs := proj; repeat (progress autorewrite with regs; proj).

Lemma Execute_ROL_ACC c m :
  data m (PC c) = INS_ROL_ACC ->
  let a' := to_byte (Z.lor (Z.shiftl (A c) 1)
                           (if GetFlag FLAG_CARRY c then 1 else 0)) in
  Execute c m =
  (2, set_TotalCycles (to_cycles (TotalCycles c + 2))
        (UpdateZeroAndNegativeFlags a'
           (set_A a' (SetFlag FLAG_CARRY (nonzero (Z.land (A c) 0x80))
                        (set_PC (to_word (PC c + 1)) c)))),
   m).
Proof.
  intros H. dispatch H ROL_ACC. run. norm_regs. destruct m. reflexivity.
Qed.

Lemma Execute_ROR_ACC c m :
  data m (PC c) = INS_ROR_ACC ->
  let a' := to_byte (Z.lor (Z.shiftr (A c) 1)
                           (if GetFlag FLAG_CARRY c then 0x80 else 0)) in
  Execute c m =
  (2, set_TotalCycles (to_cycles (TotalCycles c + 2))
        (UpdateZeroAndNegativeFlags a'
           (set_A a' (SetFlag FLAG_CARRY (nonzero (Z.land (A c) 0x01))
                        (set_PC (to_word (PC c + 1)) c)))),
   m).
Proof.
  intros H. dispatch H ROR_ACC. run. norm_regs. destruct m. reflexivity.
Qed.

Lemma GetFlag_CARRY_SetFlag b c : GetFlag FLAG_CARRY (SetFlag FLAG_CARRY b c) = b.
Proof. flag_bits. rewrite GetFlag_SetFlag by lia. reflexivity. Qed.

Lemma rotate_there_and_back a (carry : bool) :
  is_byte a ->
  let a' := to_byte (Z.lor (Z.shiftl a 1) (if carry then 1 else 0)) in
  to_byte (Z.lor (Z.shiftr a' 1) (if nonzero (Z.land a 0x80) then 0x80 else 0)) = a
  /\ nonzero (Z.land a' 0x01) = carry.
Proof.
  intros Ha. cbv zeta.
  assert (H : rotate_check carry a = true).
  { apply byte_cases; [|exact Ha]. destruct carry; vm_compute; reflexivity. }
  unfold rotate_check in H. cbv zeta in H.
  apply andb_true_iff in H. destruct H as [H1 H2].
  split; [apply Z.eqb_eq, H1 | apply Bool.eqb_prop, H2].
Qed.

(** X19: ROL A followed by ROR A brings back the accumulator and the
    carry: the bit rotated out into C comes back in, Z tells whether A is
    zero, PC is two bytes on and memory is untouched. *)
Theorem ROL_ROR c m :
  is_byte (A c) ->
  data m (PC c) = INS_ROL_ACC ->
  data m (to_word (PC c + 1)) = INS_ROR_ACC ->
  let '(c', m') := steps 2 c m in
  A c' = A c /\ GetFlag FLAG_CARRY c' = GetFlag FLAG_CARRY c /\
  GetFlag FLAG_ZERO c' = (A c =? 0) /\
  PC c' = to_word (PC c + 2) /\ m' = m.
Proof.
  intros Ha H1 H2. cbn [steps].
  rewrite (Execute_ROL_ACC c m H1). cbv zeta.
  rewrite Execute_ROR_ACC by (norm_regs; exact H2).
  cbv zeta. norm_regs.
  rewrite UpdateZN_Z, !GetFlag_UpdateZN by tauto.
  norm_regs. rewrite !GetFlag_CARRY_SetFlag. norm_regs.
  destruct (rotate_there_and_back (A c) (GetFlag FLAG_CARRY c) Ha) as [E1 E2].
  cbv zeta in E1, E2. rewrite E1, E2, to_word_add_l.
  repeat split. f_equal. lia.
Qed.

Lemma ROL_ROR_witness :
  let '(c', m') := steps 2 (fst rol_ror_case) (snd rol_ror_case) in
  A c' = 0xB5 /\ GetFlag FLAG_CARRY c' = true.
Proof.
  generalize (ROL_ROR (fst rol_ror_case) (snd rol_ror_case)
                ltac:(cbn; byte_literal) eq_refl eq_refl).
  destruct (steps 2 (fst rol_ror_case) (snd rol_ror_case)) as [c' m'].
  intros (HA & HC & _). split; [exact HA | exact HC].
Defined.

(* ------------------------------------------------------------------ *)
(** ** PHP and PLP, BRK and RTI *)

Lemma Execute_PHP c m :
  data m (PC c) = INS_PHP ->
  Execute c m =
  (3, set_TotalCycles (to_cycles (TotalCycles c + 3))
        (set_SP (to_byte (SP c - 1)) (set_PC (to_word (PC c + 1)) c)),
   store m (to_word (STACK_BASE + SP c))
         (to_byte (Z.lor (Z.lor (P c) FLAG_BREAK) FLAG_UNUSED))).
Proof. intros H. dispatch H PHP. destruct c. reflexivity. Qed.

Lemma Execute_PLP c m :
  data m (PC c) = INS_PLP ->
  let sp := to_byte (SP c + 1) in
  let v := data m (to_word (STACK_BASE + sp)) in
  Execute c m =
  (4, set_TotalCycles (to_cycles (TotalCycles c + 4))
        (SetFlag FLAG_UNUSED true
           (set_P v (set_SP sp (set_PC (to_word (PC c + 1)) c)))),
   m).
Proof.
  intros H. dispatch H PLP. run. norm_regs. destruct m. reflexivity.
Qed.

Lemma status_pushed p :
  is_byte p ->
  to_byte (Z.lor (to_byte (Z.lor (Z.lor p FLAG_BREAK) FLAG_UNUSED)) FLAG_UNUSED)
  = Z.lor p 0x30.
Proof.
  intros Hp. apply Z.eqb_eq. change (status_check p = true).
  apply byte_cases; [vm_compute; reflexivity | exact Hp].
Qed.

Lemma status_stored p :
  is_byte p ->
  to_byte (Z.lor (Z.lor p FLAG_BREAK) FLAG_UNUSED) = Z.lor p 0x30.
Proof.
  intros Hp. apply Z.eqb_eq. change (stored_check p = true).
  apply byte_cases; [vm_compute; reflexivity | exact Hp].
Qed.

(** X20: PHP followed by PLP (the PLP not lying in the stack cell PHP
    writes) leaves P as it was but with Break and Unused set, which is the
    byte PHP stored at 0x0100 + SP; SP, A, X and Y are as before and the
    two steps cost 3 + 4 cycles. *)
Theorem PHP_PLP c m :
  is_byte (SP c) -> is_byte (P c) ->
  data m (PC c) = INS_PHP ->
  data m (to_word (PC c + 1)) = INS_PLP ->
  to_word (PC c + 1) <> STACK_BASE + SP c ->
  let '(c', m') := steps 2 c m in
  P c' = Z.lor (P c) 0x30 /\ SP c' = SP c /\
  A c' = A c /\ X c' = X c /\ Y c' = Y c /\
  PC c' = to_word (PC c + 2) /\
  TotalCycles c' = to_cycles (TotalCycles c + 7) /\
  data m' (STACK_BASE + SP c) = Z.lor (P c) 0x30.
Proof.
  intros Hsp Hp H1 H2 Hne. cbn [steps].
  rewrite (Execute_PHP c m H1).
  rewrite stack_cell_word by assumption.
  rewrite Execute_PLP.
  2:{ cbn [PC set_TotalCycles set_SP set_PC data store].
      apply Z.eqb_neq in Hne. rewrite Hne. exact H2. }
  cbv zeta. proj.
  rewrite byte_pred_succ, stack_cell_word by assumption.
  cbn [data store]. rewrite Z.eqb_refl.
  norm_regs. unfold SetFlag. proj.
  rewrite status_pushed by assumption.
  rewrite to_word_add_l, to_cycles_add_add.
  repeat split.
  - f_equal. lia.
  - apply status_stored, Hp.
Qed.

Lemma PHP_PLP_witness :
  let '(c', m') := steps 2 (fst php_plp_case) (snd php_plp_case) in
  P c' = 0xF3 /\ SP c' = 0xFD.
Proof.
  generalize (PHP_PLP (fst php_plp_case) (snd php_plp_case)
                ltac:(split; [discriminate | reflexivity])
                ltac:(split; [discriminate | reflexivity])
                eq_refl eq_refl ltac:(discriminate)).
  destruct (steps 2 (fst php_plp_case) (snd php_plp_case)) as [c' m'].
  intros (HP & HS & _). split; [exact HP | exact HS].
Defined.

Lemma Execute_BRK c m :
  data m (PC c) = INS_BRK ->
  let pc := to_word (to_word (PC c + 1) + 1) in
  let sp1 := to_byte (SP c - 1) in
  let sp2 := to_byte (sp1 - 1) in
  let m' :=
    store (store (store m (to_word (STACK_BASE + SP c))
                          (Z.land (Z.shiftr pc 8) 0xFF))
                 (to_word (STACK_BASE + sp1)) (Z.land pc 0xFF))
          (to_word (STACK_BASE + sp2))
          (to_byte (Z.lor (Z.lor (P c) FLAG_BREAK) FLAG_UNUSED)) in
  let target :=
    to_word (Z.lor (Z.shiftl (data m' (to_word (VECTOR_IRQ_BRK + 1))) 8)
                   (data m' VECTOR_IRQ_BRK)) in
  Execute c m =
  (7, set_TotalCycles (to_cycles (TotalCycles c + 7))
        (set_PC target
           (SetFlag FLAG_INTERRUPT true (set_SP (to_byte (sp2 - 1)) c))),
   m').
Proof. intros H. dispatch H BRK. destruct c, m. reflexivity. Qed.

Lemma Execute_RTI c m :
  data m (PC c) = INS_RTI ->
  let sp1 := to_byte (SP c + 1) in
  let sp2 := to_byte (sp1 + 1) in
  let sp3 := to_byte (sp2 + 1) in
  let pc := to_word (Z.lor (Z.shiftl (data m (to_word (STACK_BASE + sp3))) 8)
                           (data m (to_word (STACK_BASE + sp2)))) in
  Execute c m =
  (5, set_TotalCycles (to_cycles (TotalCycles c + 5))
        (set_PC pc
           (set_SP sp3
              (SetFlag FLAG_UNUSED true
                 (set_P (data m (to_word (STACK_BASE + sp1))) c)))),
   m).
Proof. intros H. dispatch H RTI. destruct c, m. reflexivity. Qed.

Lemma stack_cells_apart b :
  is_byte b -> (STACK_BASE + b =? STACK_BASE + to_byte (b - 1)) = false.
Proof.
  intros H. apply Z.eqb_neq. unfold to_byte, is_byte in *.
  Z.div_mod_to_equations. lia.
Qed.

Lemma stack_cells_apart2 b :
  is_byte b ->
  (STACK_BASE + b =? STACK_BASE + to_byte (to_byte (b - 1) - 1)) = false.
Proof.
  intros H. apply Z.eqb_neq. unfold to_byte, is_byte in *.
  Z.div_mod_to_equations. lia.
Qed.

Lemma vector_not_on_stack v b :
  0xFF00 <= v -> is_byte b -> (v =? STACK_BASE + b) = false.
Proof.
  intros Hv H. apply Z.eqb_neq. unfold is_byte, STACK_BASE in *. lia.
Qed.

(** X21: BRK whose handler (the word at 0xFFFE/0xFFFF, outside the three
    stack cells BRK writes) is an RTI: after the two steps PC is two bytes
    past the BRK, SP, A, X and Y are as before, and P is the old P with
    Break and Unused set: the Interrupt flag BRK sets is undone by the
    popped status. The pair costs 7 + 5 cycles. *)
Theorem BRK_RTI c m :
  is_byte (SP c) -> is_byte (P c) ->
  data m (PC c) = INS_BRK ->
  let handler :=
    to_word (Z.lor (Z.shiftl (data m (to_word (VECTOR_IRQ_BRK + 1))) 8)
                   (data m VECTOR_IRQ_BRK)) in
  data m handler = INS_RTI ->
  handler <> STACK_BASE + SP c ->
  handler <> STACK_BASE + to_byte (SP c - 1) ->
  handler <> STACK_BASE + to_byte (to_byte (SP c - 1) - 1) ->
  let '(c', m') := steps 2 c m in
  PC c' = to_word (PC c + 2) /\ SP c' = SP c /\
  P c' = Z.lor (P c) 0x30 /\
  A c' = A c /\ X c' = X c /\ Y c' = Y c /\
  TotalCycles c' = to_cycles (TotalCycles c + 12).
Proof.
  intros Hsp Hp H1 handler H2 Hn0 Hn1 Hn2. cbn [steps].
  rewrite (Execute_BRK c m H1). cbv zeta.
  set (pc := to_word (to_word (PC c + 1) + 1)).
  set (b1 := to_byte (SP c - 1)). set (b2 := to_byte (b1 - 1)).
  fold b1 in Hn1. fold b1 b2 in Hn2.
  assert (Hb1 : is_byte b1) by apply to_byte_is_byte.
  assert (Hb2 : is_byte b2) by apply to_byte_is_byte.
  rewrite !stack_cell_word by assumption.
  cbn [data store].
  change (to_word (VECTOR_IRQ_BRK + 1)) with 0xFFFF.
  change VECTOR_IRQ_BRK with 0xFFFE in *.
  rewrite !vector_not_on_stack by (assumption || lia).
  change (to_word (Z.lor (Z.shiftl (data m 0xFFFF) 8) (data m 0xFFFE)))
    with handler.
  rewrite Execute_RTI.
  2:{ norm_regs. cbn [data store]. apply Z.eqb_neq in Hn0, Hn1, Hn2.
      rewrite Hn0, Hn1, Hn2. exact H2. }
  cbv zeta. norm_regs.
  assert (E3 : to_byte (to_byte (b2 - 1) + 1) = b2) by (apply byte_pred_succ, Hb2).
  assert (E2 : to_byte (b2 + 1) = b1) by (apply byte_pred_succ, Hb1).
  assert (E1 : to_byte (b1 + 1) = SP c) by (apply byte_pred_succ, Hsp).
  rewrite E3, E2, E1.
  rewrite !stack_cell_word by assumption.
  cbn [data store]. rewrite !Z.eqb_refl.
  pose proof (stack_cells_apart (SP c) Hsp) as A01. fold b1 in A01.
  pose proof (stack_cells_apart b1 Hb1) as A12. fold b2 in A12.
  pose proof (stack_cells_apart2 (SP c) Hsp) as A02. fold b1 b2 in A02.
  rewrite ?A01, ?A12, ?A02.
  assert (A10 : (STACK_BASE + b1 =? STACK_BASE + b2) = false) by exact A12.
  unfold SetFlag. norm_regs.
  rewrite status_pushed by assumption.
  assert (Hpc : is_word pc) by apply to_word_is_word.
  rewrite word_of_bytes, word_bytes
    by (assumption || (rewrite land_FF; apply to_byte_is_byte)).
  rewrite to_cycles_add_add.
  repeat split.
  subst pc. rewrite to_word_add_l. f_equal. lia.
Qed.

Lemma BRK_RTI_witness :
  let '(c', m') := steps 2 (fst brk_rti_case) (snd brk_rti_case) in
  PC c' = 0x1002 /\ SP c' = 0xFD /\ P c' = 0x31.
Proof.
  generalize (BRK_RTI (fst brk_rti_case) (snd brk_rti_case)
                ltac:(split; [discriminate | reflexivity])
                ltac:(split; [discriminate | reflexivity])
                eq_refl eq_refl ltac:(discriminate) ltac:(discriminate)
                ltac:(discriminate)).
  destruct (steps 2 (fst brk_rti_case) (snd brk_rti_case)) as [c' m'].
  intros (HP & HS & HF & _). repeat split; assumption.
Defined.

(* ------------------------------------------------------------------ *)
(** ** The cycle counter over a run *)

Lemma Execute_TotalCycles c m :
  TotalCycles (snd (fst (Execute c m)))
  = to_cycles (TotalCycles c + fst (fst (Execute c m))).
Proof.
  rewrite Execute_eq. cbv zeta. proj. f_equal. f_equal.
  apply (frame_switch same_TotalCycles (fun _ => false) (data m (PC c))
           Execute_cases Execute_default Execute_cases_keep_TotalCycles);
    [|reflexivity].
  intros s. reflexivity.
Qed.

Lemma Execute_loop_TotalCycles budget : forall fuel executed c m r c' m',
  0 <= TotalCycles c < 2 ^ 64 ->
  Execute_loop fuel budget executed c m = Some (r, c', m') ->
  0 <= TotalCycles c' < 2 ^ 64 /\
  to_cycles (TotalCycles c' + executed) = to_cycles (TotalCycles c + r).
Proof.
  induction fuel as [|fuel IH]; intros executed c m r c' m' HT;
    cbn [Execute_loop]; destruct (executed <? budget).
  - discriminate.
  - intros [= <- <- <-]. split; [exact HT | reflexivity].
  - pose proof (Execute_TotalCycles c m) as E.
    destruct (Execute c m) as [[k c1] m1]. cbn [fst snd] in E.
    intros H. apply IH in H.
    2:{ rewrite E. unfold to_cycles. apply Z.mod_pos_bound. lia. }
    destruct H as [H1 H2]. split; [exact H1|].
    rewrite E in H2. unfold to_cycles in *. Z.div_mod_to_equations. lia.
  - intros [= <- <- <-]. split; [exact HT | reflexivity].
Qed.

(** X22: when the run loop returns, [TotalCycles] has grown by exactly
    the count it returns (in the 64-bit counter), however many
    instructions ran. *)
Theorem Execute_cycles_TotalCycles fuel budget c m r c' m' :
  0 <= TotalCycles c < 2 ^ 64 ->
  Execute_cycles fuel budget c m = Some (r, c', m') ->
  TotalCycles c' = to_cycles (TotalCycles c + r).
Proof.
  intros HT H. unfold Execute_cycles in H.
  destruct (Execute_loop_TotalCycles _ _ _ _ _ _ _ _ HT H) as [R E].
  rewrite <- E, Z.add_0_r. symmetry. apply to_cycles_small, R.
Qed.

Lemma Execute_cycles_TotalCycles_witness :
  Execute_cycles 3 5 CPU_new nop_memory
  = Some (6, set_TotalCycles 6 (set_PC 3 CPU_new), nop_memory) /\
  TotalCycles (set_TotalCycles 6 (set_PC 3 CPU_new))
  = to_cycles (TotalCycles CPU_new + 6).
Proof.
  split; [reflexivity|].
  apply (Execute_cycles_TotalCycles 3 5 CPU_new nop_memory 6 _ nop_memory);
    [cbn; lia | reflexivity].
Defined.

(* ------------------------------------------------------------------ *)
(** ** main.cpp: Example_LoopTest *)

Lemma LoopTest_while_skip j : forall k iteration c m,
  (forall i, (i < j)%nat -> PC (fst (steps i c m)) <> 0x1007) ->
  LoopTest_while (j + k) iteration c m =
  LoopTest_while k (iteration + Z.of_nat j)
                 (fst (steps j c m)) (snd (steps j c m)).
Proof.
  induction j as [|j IH]; intros k iteration c m H.
  - cbn [steps fst snd Nat.add]. f_equal. cbn. lia.
  - cbn [Nat.add LoopTest_while steps].
    pose proof (H O ltac:(lia)) as H0. cbn [steps fst] in H0.
    apply Z.eqb_neq in H0. rewrite H0. cbn [negb].
    assert (Hs : forall i, (i < j)%nat ->
                 PC (fst (steps i (snd (fst (Execute c m))) (snd (Execute c m))))
                 <> 0x1007).
    { intros i Hi. specialize (H (S i) ltac:(lia)). cbn [steps] in H.
      destruct (Execute c m) as [[u c1] m1]. exact H. }
    destruct (Execute c m) as [[u c1] m1]. cbn [fst snd] in Hs.
    rewrite IH by exact Hs. f_equal. lia.
Qed.

Lemma breaking_step c m :
  breaking c m ->
  breaking (snd (fst (Execute c m))) (snd (Execute c m)).
Proof.
  intros (Hpc & Hx & Hsp & H0 & Hlo & Hhi).
  assert (H : data m (PC c) = INS_BRK) by (rewrite Hpc; exact H0).
  rewrite (Execute_BRK c m H). cbv zeta. cbn [fst snd].
  set (b1 := to_byte (SP c - 1)). set (b2 := to_byte (b1 - 1)).
  assert (Hb1 : is_byte b1) by apply to_byte_is_byte.
  assert (Hb2 : is_byte b2) by apply to_byte_is_byte.
  rewrite !stack_cell_word by assumption.
  unfold breaking. norm_regs. cbn [data store].
  change (to_word (VECTOR_IRQ_BRK + 1)) with 0xFFFF in *.
  change VECTOR_IRQ_BRK with 0xFFFE in *.
  rewrite !vector_not_on_stack by (assumption || lia).
  assert (Z0 : forall b, is_byte b -> (0 =? STACK_BASE + b) = false).
  { intros b Hb. apply Z.eqb_neq. unfold is_byte, STACK_BASE in *. lia. }
  rewrite !Z0 by assumption.
  rewrite Hlo, Hhi.
  repeat split; try assumption; try apply to_byte_is_byte.
Qed.

Lemma breaking_loop k : forall iteration c m,
  breaking c m ->
  let '(iteration', c', m') := LoopTest_while k iteration c m in
  iteration' = iteration + Z.of_nat k /\ breaking c' m'.
Proof.
  induction k as [|k IH]; intros iteration c m H; cbn [LoopTest_while].
  - split; [lia | exact H].
  - assert (E : (PC c =? 0x1007) = false)
      by (destruct H as [-> _]; reflexivity).
    rewrite E. cbn [negb].
    pose proof (breaking_step c m H) as H'.
    destruct (Execute c m) as [[u c1] m1]. cbn [fst snd] in H'.
    specialize (IH (iteration + 1) c1 m1 H').
    destruct (LoopTest_while k (iteration + 1) c1 m1) as [[it' c'] m'].
    split; [lia | tauto].
Qed.

Lemma LoopTest_breaks :
  let '(c, m) := boot LoopTest_program in
  (forall i, (i < 5)%nat -> PC (fst (steps i c m)) <> 0x1007) /\
  PC (fst (steps 4 c m)) = 0x1001 /\
  breaking (fst (steps 5 c m)) (snd (steps 5 c m)).
Proof.
  destruct (boot LoopTest_program) as [c m] eqn:E.
  assert (Ec : c = fst (boot LoopTest_program)) by (rewrite E; reflexivity).
  assert (Em : m = snd (boot LoopTest_program)) by (rewrite E; reflexivity).
  subst c m. clear E. split; [|split].
  - intros i Hi.
    do 5 (destruct i as [|i]; [vm_compute; discriminate|]). lia.
  - vm_compute. reflexivity.
  - unfold breaking, is_byte. vm_compute. repeat split; discriminate.
Qed.

(** X23: Example_LoopTest of main.cpp never reaches the address 0x1007
    its loop waits for: the branch offset 0xFA leads to 0x1001, the zero
    operand of LDX, which runs as BRK; the empty IRQ/BRK vector sends PC to
    0x0000, where BRK follows BRK. Whatever the iteration cap (5 or
    more), the loop runs to the cap and the example ends with X = 1 and
    PC = 0. *)
Theorem Example_LoopTest_runs_to_the_cap maxIterations :
  (5 <= maxIterations)%nat ->
  PC (fst (steps 4 (fst (boot LoopTest_program)) (snd (boot LoopTest_program))))
  = 0x1001 /\
  let '(iteration, c, m) := LoopTest_run maxIterations in
  iteration = Z.of_nat maxIterations /\ X c = 1 /\ PC c = 0.
Proof.
  intros Hn. split; [vm_compute; reflexivity|]. unfold LoopTest_run.
  pose proof LoopTest_breaks as H.
  destruct (boot LoopTest_program) as [c m].
  destruct H as (Hskip & _ & Hbrk).
  replace maxIterations with (5 + (maxIterations - 5))%nat by lia.
  rewrite (LoopTest_while_skip 5 _ 0 c m Hskip).
  pose proof (breaking_loop (maxIterations - 5) (0 + Z.of_nat 5) _ _ Hbrk) as HL.
  destruct (LoopTest_while _ _ _ _) as [[it c'] m'].
  destruct HL as [Hit Hb'].
  pose proof (breaking_step c' m' Hb') as (Hpc & Hx & _).
  destruct (Execute c' m') as [[u c''] m'']. cbn [fst snd] in Hpc, Hx.
  split; [lia | split; assumption].
Qed.

Lemma Example_LoopTest_runs_to_the_cap_witness :
  let '(iteration, c, m) := Example_LoopTest in
  iteration = 50 /\ X c = 1 /\ PC c = 0.
Proof.
  unfold Example_LoopTest.
  destruct (Example_LoopTest_runs_to_the_cap 50 ltac:(lia)) as [_ H]. exact H.
Defined.

(* ------------------------------------------------------------------ *)
(** ** Values within the widths the code declares *)

Lemma in_range_ret {T} (Q : T -> Prop) (x : T) : Q x -> in_range Q (ret x).
Proof. intros H s Hs. split; assumption. Qed.

Lemma in_range_bind {T U} (Q : T -> Prop) (R : U -> Prop) (m : M T) (k : T -> M U) :
  in_range Q m -> (forall x, Q x -> in_range R (k x)) -> in_range R (bind m k).
Proof.
  intros Hm Hk s Hs. unfold bind. destruct (Hm s Hs) as [Hq Hs'].
  destruct (m s) as [x s']. apply Hk; assumption.
Qed.

Lemma in_range_get {T} (f : CPU -> T) :
  in_range (fun v => exists c, wf_cpu c /\ v = f c) (get f).
Proof. intros s Hs. split; [|exact Hs]. exists (cpu s). split; [apply Hs | reflexivity]. Qed.

Lemma in_range_modify f :
  (forall c, wf_cpu c -> wf_cpu (f c)) -> in_range (fun _ => True) (modify f).
Proof.
  intros Hf s (Hc & Hm & Hy). split; [exact I|].
  split; [apply Hf, Hc | split; [exact Hm | exact Hy]].
Qed.

Lemma in_range_tick n : in_range (fun _ => True) (tick n).
Proof.
  intros s (Hc & Hm & Hy). split; [exact I|]. split; [exact Hc|].
  split; [exact Hm|]. apply to_cycles_range.
Qed.

Lemma in_range_ReadByte a : in_range is_byte (ReadByte a).
Proof.
  intros s (Hc & Hm & Hy). split; [apply Hm|]. split; [exact Hc|].
  split; [exact Hm|]. apply to_cycles_range.
Qed.

Lemma in_range_ReadWord a : in_range is_word (ReadWord a).
Proof.
  intros s (Hc & Hm & Hy). split; [apply to_word_is_word|]. split; [exact Hc|].
  split; [exact Hm|]. apply to_cycles_range.
Qed.

Lemma in_range_WriteByte a v : is_byte v -> in_range (fun _ => True) (WriteByte a v).
Proof.
  intros Hv s (Hc & Hm & Hy). split; [exact I|]. split; [exact Hc|].
  split; [apply wf_memory_store; assumption | apply to_cycles_range].
Qed.

Lemma in_range_when b m :
  in_range (fun _ => True) m -> in_range (fun _ => True) (when b m).
Proof. intros Hm. destruct b; [exact Hm | apply in_range_ret; exact I]. Qed.

Lemma in_range_switch x (cases : list (Z * M unit)) d :
  Forall (fun cb => in_range (fun _ => True) (snd cb)) cases ->
  in_range (fun _ => True) d ->
  in_range (fun _ => True) (switch x cases d).
Proof.
  intros Hc Hd. induction Hc as [|[label body] rest Hb _ IH]; cbn.
  - exact Hd.
  - destruct (x =? label); [exact Hb | exact IH].
Qed.

(** Register updates that keep the widths. *)
Lemma wf_set_A v c : is_byte v -> wf_cpu c -> wf_cpu (set_A v c).
Proof. unfold wf_cpu. destruct c. cbn. tauto. Qed.
Lemma wf_set_X v c : is_byte v -> wf_cpu c -> wf_cpu (set_X v c).
Proof. unfold wf_cpu. destruct c. cbn. tauto. Qed.
Lemma wf_set_Y v c : is_byte v -> wf_cpu c -> wf_cpu (set_Y v c).
Proof. unfold wf_cpu. destruct c. cbn. tauto. Qed.
Lemma wf_set_SP v c : is_byte v -> wf_cpu c -> wf_cpu (set_SP v c).
Proof. unfold wf_cpu. destruct c. cbn. tauto. Qed.
Lemma wf_set_P v c : is_byte v -> wf_cpu c -> wf_cpu (set_P v c).
Proof. unfold wf_cpu. destruct c. cbn. tauto. Qed.
Lemma wf_set_PC v c : is_word v -> wf_cpu c -> wf_cpu (set_PC v c).
Proof. unfold wf_cpu. destruct c. cbn. tauto. Qed.
Lemma wf_set_TotalCycles v c :
  0 <= v < 2 ^ 64 -> wf_cpu c -> wf_cpu (set_TotalCycles v c).
Proof. unfold wf_cpu. destruct c. cbn. tauto. Qed.

Lemma wf_SetFlag f b c : wf_cpu c -> wf_cpu (SetFlag f b c).
Proof.
  intros H. unfold SetFlag.
  destruct b; apply wf_set_P; trivial; apply to_byte_is_byte.
Qed.

Lemma wf_UpdateZN v c : wf_cpu c -> wf_cpu (UpdateZeroAndNegativeFlags v c).
Proof. intros H. unfold UpdateZeroAndNegativeFlags. repeat apply wf_SetFlag. exact H. Qed.

Lemma wf_CompareRegister r v c : wf_cpu c -> wf_cpu (CompareRegister r v c).
Proof. intros H. unfold CompareRegister. cbv zeta. repeat apply wf_SetFlag. exact H. Qed.

Lemma wf_A c : wf_cpu c -> is_byte (A c).
Proof. unfold wf_cpu. tauto. Qed.
Lemma wf_X c : wf_cpu c -> is_byte (X c).
Proof. unfold wf_cpu. tauto. Qed.
Lemma wf_Y c : wf_cpu c -> is_byte (Y c).
Proof. unfold wf_cpu. tauto. Qed.
Lemma wf_SP c : wf_cpu c -> is_byte (SP c).
Proof. unfold wf_cpu. tauto. Qed.
Lemma wf_P c : wf_cpu c -> is_byte (P c).
Proof. unfold wf_cpu. tauto. Qed.
Lemma wf_PC c : wf_cpu c -> is_word (PC c).
Proof. unfold wf_cpu. tauto. Qed.

Lemma is_byte_land_FF z : is_byte (Z.land z 0xFF).
Proof. rewrite land_FF. apply to_byte_is_byte. Qed.

Ltac range_value :=
  first [ assumption
        | apply to_byte_is_byte
        | apply to_word_is_word
        | apply is_byte_land_FF
        | apply wf_A; assumption | apply wf_X; assumption
        | apply wf_Y; assumption | apply wf_SP; assumption
        | apply wf_P; assumption | apply wf_PC; assumption ].

Ltac range_cpu :=
  repeat lazymatch goal with
  | |- wf_cpu (SetFlag _ _ _) => apply wf_SetFlag
  | |- wf_cpu (UpdateZeroAndNegativeFlags _ _) => apply wf_UpdateZN
  | |- wf_cpu (CompareRegister _ _ _) => apply wf_CompareRegister
  | |- wf_cpu (set_A _ _) => apply wf_set_A; [range_value|]
  | |- wf_cpu (set_X _ _) => apply wf_set_X; [range_value|]
  | |- wf_cpu (set_Y _ _) => apply wf_set_Y; [range_value|]
  | |- wf_cpu (set_SP _ _) => apply wf_set_SP; [range_value|]
  | |- wf_cpu (set_P _ _) => apply wf_set_P; [range_value|]
  | |- wf_cpu (set_PC _ _) => apply wf_set_PC; [range_value|]
  | |- wf_cpu _ => assumption
  end.

Ltac range_step :=
  lazymatch goal with
  | |- in_range _ (bind _ _) =>
      eapply in_range_bind; [| intros ? ?]
  | |- in_range _ (ret _) =>
      first [ apply (in_range_ret is_byte); solve [range_value]
            | apply (in_range_ret is_word); solve [range_value]
            | apply in_range_ret; exact I ]
  | |- in_range _ (get _) => apply in_range_get
  | |- in_range _ (tick _) => apply in_range_tick
  | |- in_range _ (ReadByte _) => apply in_range_ReadByte
  | |- in_range _ (ReadWord _) => apply in_range_ReadWord
  | |- in_range _ (WriteByte _ _) => apply in_range_WriteByte; solve [range_value]
  | |- in_range _ (when _ _) => apply in_range_when
  | |- in_range _ (modify _) =>
      apply in_range_modify; intros ? ?; cbv beta; solve [range_cpu]
  | |- in_range _ (if ?b then _ else _) => destruct b
  | |- in_range _ (let _ := _ in _) => cbv zeta
  end.

Ltac open_get :=
  cbv beta in *;
  repeat match goal with
  | H : exists c, wf_cpu c /\ _ = _ |- _ =>
      let c := fresh "c" in let Hc := fresh "Hc" in
      destruct H as (c & Hc & ->)
  end.

Ltac range := repeat (open_get; range_step).

Lemma Execute_cases_in_range :
  Forall (fun cb => in_range (fun _ => True) (snd cb)) Execute_cases.
Proof.
  unfold Execute_cases.
  repeat (apply Forall_cons; [cbn [snd]|]); try apply Forall_nil.
  all: unfold PLP, RTI; unfold_instructions; unfold_helpers.
  all: range.
Qed.

Lemma Execute_in_range c m :
  wf_cpu c -> wf_memory m ->
  wf_cpu (snd (fst (Execute c m))) /\ wf_memory (snd (Execute c m)).
Proof.
  intros Hc Hm. rewrite Execute_eq. cbv zeta. cbn [fst snd].
  assert (H : in_range (fun _ => True)
                (switch (data m (PC c)) Execute_cases Execute_default)).
  { apply in_range_switch; [exact Execute_cases_in_range|].
    unfold Execute_default. apply in_range_tick. }
  destruct (H (mkState (set_PC (to_word (PC c + 1)) c) m (to_cycles (0 + 1))))
    as (_ & Hc' & Hm' & _).
  { split; [|split]; cbn [cpu memory cycles].
    - apply wf_set_PC; [apply to_word_is_word | exact Hc].
    - exact Hm.
    - apply to_cycles_range. }
  split; [|exact Hm'].
  apply wf_set_TotalCycles; [apply to_cycles_range | exact Hc'].
Qed.

(** X24: registers and memory cells never leave the widths the code
    declares: from registers that fit their types ([Byte] below 2^8, PC
    below 2^16, TotalCycles below 2^64) and a memory of bytes, any number
    of steps, over any opcodes, gives registers and memory that fit
    again. *)
Theorem steps_in_range n : forall c m,
  wf_cpu c -> wf_memory m ->
  wf_cpu (fst (steps n c m)) /\ wf_memory (snd (steps n c m)).
Proof.
  induction n as [|n IH]; intros c m Hc Hm; cbn [steps].
  - split; assumption.
  - destruct (Execute_in_range c m Hc Hm) as [Hc' Hm'].
    destruct (Execute c m) as [[k c1] m1]. cbn [fst snd] in Hc', Hm'.
    apply IH; assumption.
Qed.

Lemma steps_in_range_witness :
  wf_cpu (fst (steps 1 (fst lda_im_case) (snd lda_im_case))) /\
  wf_memory (snd (steps 1 (fst lda_im_case) (snd lda_im_case))).
Proof.
  apply (steps_in_range 1 (fst lda_im_case) (snd lda_im_case)).
  - unfold wf_cpu, is_byte, is_word. cbn. lia.
  - apply wf_memory_poke; [apply wf_memory_new|].
    repeat (apply Forall_cons; [byte_literal|]). apply Forall_nil.
Defined.

(* ------------------------------------------------------------------ *)
(** ** Pairs of instructions on one cell or register *)

Lemma Execute_STA_ZP c m :
  data m (PC c) = INS_STA_ZP ->
  let address := data m (to_word (PC c + 1)) in
  Execute c m =
  (3, set_TotalCycles (to_cycles (TotalCycles c + 3))
        (set_PC (to_word (to_word (PC c + 1) + 1)) c),
   store m address (A c)).
Proof. intros H. dispatch H (AddrZeroPage >>= STA). destruct c, m. reflexivity. Qed.

Lemma Execute_LDX_ZP c m :
  data m (PC c) = INS_LDX_ZP ->
  let v := data m (data m (to_word (PC c + 1))) in
  Execute c m =
  (3, set_TotalCycles (to_cycles (TotalCycles c + 3))
        (UpdateZeroAndNegativeFlags v
           (set_X v (set_PC (to_word (to_word (PC c + 1) + 1)) c))),
   m).
Proof.
  intros H. dispatch H (AddrZeroPage >>= LDX). run. norm_regs.
  destruct m. reflexivity.
Qed.

Lemma Execute_INC_ZP c m :
  data m (PC c) = INS_INC_ZP ->
  let address := data m (to_word (PC c + 1)) in
  let v := to_byte (data m address + 1) in
  Execute c m =
  (5, set_TotalCycles (to_cycles (TotalCycles c + 5))
        (UpdateZeroAndNegativeFlags v
           (set_PC (to_word (to_word (PC c + 1) + 1)) c)),
   store m address v).
Proof.
  intros H. dispatch H (AddrZeroPage >>= INC). run. norm_regs.
  destruct m. reflexivity.
Qed.

Lemma Execute_DEC_ZP c m :
  data m (PC c) = INS_DEC_ZP ->
  let address := data m (to_word (PC c + 1)) in
  let v := to_byte (data m address - 1) in
  Execute c m =
  (5, set_TotalCycles (to_cycles (TotalCycles c + 5))
        (UpdateZeroAndNegativeFlags v
           (set_PC (to_word (to_word (PC c + 1) + 1)) c)),
   store m address v).
Proof.
  intros H. dispatch H (AddrZeroPage >>= DEC). run. norm_regs.
  destruct m. reflexivity.
Qed.

Lemma Execute_EOR_IM c m :
  data m (PC c) = INS_EOR_IM ->
  let v := to_byte (Z.lxor (A c) (data m (to_word (PC c + 1)))) in
  Execute c m =
  (3, set_TotalCycles (to_cycles (TotalCycles c + 3))
        (UpdateZeroAndNegativeFlags v
           (set_A v (set_PC (to_word (to_word (PC c + 1) + 1)) c))),
   m).
Proof.
  intros H. dispatch H (AddrImmediate >>= EOR). run. norm_regs.
  destruct m. reflexivity.
Qed.

(** X25: STA to a zero-page cell followed by LDX from the same cell (the
    cell not holding the LDX instruction itself) copies A to X: the cell
    and X hold A, no other cell changes, Z and N describe A, and the two
    steps cost 3 + 3 cycles. *)
Theorem STA_LDX c m :
  data m (PC c) = INS_STA_ZP ->
  let address := data m (to_word (PC c + 1)) in
  data m (to_word (PC c + 2)) = INS_LDX_ZP ->
  data m (to_word (PC c + 3)) = address ->
  address <> to_word (PC c + 2) -> address <> to_word (PC c + 3) ->
  let '(c', m') := steps 2 c m in
  X c' = A c /\ A c' = A c /\ data m' address = A c /\
  (forall a, a <> address -> data m' a = data m a) /\
  GetFlag FLAG_ZERO c' = (A c =? 0) /\
  GetFlag FLAG_NEGATIVE c' = Z.testbit (A c) 7 /\
  PC c' = to_word (PC c + 4) /\
  TotalCycles c' = to_cycles (TotalCycles c + 6).
Proof.
  intros H1 address H2 H3 Hn2 Hn3. cbn [steps].
  rewrite (Execute_STA_ZP c m H1). cbv zeta. fold address.
  assert (E2 : to_word (to_word (PC c + 1) + 1) = to_word (PC c + 2))
    by (rewrite to_word_add_l; f_equal; lia).
  assert (E3 : to_word (to_word (PC c + 2) + 1) = to_word (PC c + 3))
    by (rewrite to_word_add_l; f_equal; lia).
  assert (E4 : to_word (to_word (PC c + 3) + 1) = to_word (PC c + 4))
    by (rewrite to_word_add_l; f_equal; lia).
  rewrite E2.
  apply not_eq_sym, Z.eqb_neq in Hn2. apply not_eq_sym, Z.eqb_neq in Hn3.
  rewrite Execute_LDX_ZP
    by (norm_regs; cbn [data store]; rewrite Hn2; exact H2).
  cbv zeta. norm_regs. cbn [data store]. rewrite E3, Hn3, H3, Z.eqb_refl.
  rewrite UpdateZN_Z, UpdateZN_N, E4, to_cycles_add_add.
  repeat split.
  intros a Ha. apply Z.eqb_neq in Ha. rewrite Ha. reflexivity.
Qed.

Lemma STA_LDX_witness :
  let '(c', m') := steps 2 (fst sta_ldx_case) (snd sta_ldx_case) in
  X c' = 0x9C /\ data m' 0x10 = 0x9C.
Proof.
  generalize (STA_LDX (fst sta_ldx_case) (snd sta_ldx_case)
                eq_refl eq_refl eq_refl ltac:(discriminate) ltac:(discriminate)).
  destruct (steps 2 (fst sta_ldx_case) (snd sta_ldx_case)) as [c' m'].
  intros (HX & _ & HM & _). split; [exact HX | exact HM].
Defined.

Lemma byte_succ_pred b : is_byte b -> to_byte (to_byte (b + 1) - 1) = b.
Proof. unfold is_byte, to_byte. intros. Z.div_mod_to_equations. lia. Qed.

(** X26: INC on a zero-page cell followed by DEC on the same cell leaves
    every byte of memory as it was, also across the wrap from 0xFF to
    0x00; Z and N describe the cell's value, A, X and Y are untouched and
    the two steps cost 5 + 5 cycles. *)
Theorem INC_DEC c m :
  data m (PC c) = INS_INC_ZP ->
  let address := data m (to_word (PC c + 1)) in
  data m (to_word (PC c + 2)) = INS_DEC_ZP ->
  data m (to_word (PC c + 3)) = address ->
  address <> to_word (PC c + 2) -> address <> to_word (PC c + 3) ->
  is_byte (data m address) ->
  let '(c', m') := steps 2 c m in
  (forall a, data m' a = data m a) /\
  GetFlag FLAG_ZERO c' = (data m address =? 0) /\
  GetFlag FLAG_NEGATIVE c' = Z.testbit (data m address) 7 /\
  A c' = A c /\ X c' = X c /\ Y c' = Y c /\
  PC c' = to_word (PC c + 4) /\
  TotalCycles c' = to_cycles (TotalCycles c + 10).
Proof.
  intros H1 address H2 H3 Hn2 Hn3 Hv. cbn [steps].
  rewrite (Execute_INC_ZP c m H1). cbv zeta. fold address.
  assert (E2 : to_word (to_word (PC c + 1) + 1) = to_word (PC c + 2))
    by (rewrite to_word_add_l; f_equal; lia).
  assert (E3 : to_word (to_word (PC c + 2) + 1) = to_word (PC c + 3))
    by (rewrite to_word_add_l; f_equal; lia).
  assert (E4 : to_word (to_word (PC c + 3) + 1) = to_word (PC c + 4))
    by (rewrite to_word_add_l; f_equal; lia).
  rewrite E2.
  apply not_eq_sym, Z.eqb_neq in Hn2. apply not_eq_sym, Z.eqb_neq in Hn3.
  rewrite Execute_DEC_ZP
    by (norm_regs; cbn [data store]; rewrite Hn2; exact H2).
  cbv zeta. norm_regs. cbn [data store]. rewrite E3, Hn3, H3, Z.eqb_refl.
  rewrite byte_succ_pred by exact Hv.
  rewrite UpdateZN_Z, UpdateZN_N, E4, to_cycles_add_add.
  repeat split.
  intros a. destruct (Z.eqb_spec a address) as [->|]; reflexivity.
Qed.

Lemma INC_DEC_witness :
  let '(c', m') := steps 2 (fst inc_dec_case) (snd inc_dec_case) in
  data m' 0x10 = 0xFF /\ GetFlag FLAG_NEGATIVE c' = true.
Proof.
  generalize (INC_DEC (fst inc_dec_case) (snd inc_dec_case)
                eq_refl eq_refl eq_refl ltac:(discriminate) ltac:(discriminate)
                ltac:(split; [discriminate | reflexivity])).
  destruct (steps 2 (fst inc_dec_case) (snd inc_dec_case)) as [c' m'].
  intros (HM & _ & HN & _). split; [apply HM | exact HN].
Defined.

Lemma lxor_byte a v : is_byte a -> is_byte v -> to_byte (Z.lxor a v) = Z.lxor a v.
Proof.
  unfold is_byte. intros Ha Hv. unfold to_byte. change 256 with (2 ^ 8).
  rewrite <- Z.land_ones by lia. apply Z.bits_inj'. intros n Hn.
  rewrite Z.land_spec, Z.lxor_spec.
  destruct (Z.ltb_spec n 8).
  - rewrite Z.ones_spec_low by lia. apply andb_true_r.
  - rewrite Z.ones_spec_high, andb_false_r by lia.
    rewrite (Z.bits_above_log2 a n), (Z.bits_above_log2 v n); try reflexivity;
      try lia.
    + destruct (Z.eq_dec v 0) as [->|]; [cbn; lia|].
      apply Z.log2_lt_pow2; try lia.
      apply Z.lt_le_trans with (2 ^ 8); [lia | apply Z.pow_le_mono_r; lia].
    + destruct (Z.eq_dec a 0) as [->|]; [cbn; lia|].
      apply Z.log2_lt_pow2; try lia.
      apply Z.lt_le_trans with (2 ^ 8); [lia | apply Z.pow_le_mono_r; lia].
Qed.

(** X27: EOR with the same immediate operand twice brings A back, with Z
    and N describing A; memory is untouched. *)
Theorem EOR_EOR c m :
  is_byte (A c) ->
  data m (PC c) = INS_EOR_IM ->
  let operand := data m (to_word (PC c + 1)) in
  is_byte operand ->
  data m (to_word (PC c + 2)) = INS_EOR_IM ->
  data m (to_word (PC c + 3)) = operand ->
  let '(c', m') := steps 2 c m in
  A c' = A c /\
  GetFlag FLAG_ZERO c' = (A c =? 0) /\
  GetFlag FLAG_NEGATIVE c' = Z.testbit (A c) 7 /\
  PC c' = to_word (PC c + 4) /\ m' = m.
Proof.
  intros Ha H1 operand Hv H2 H3. cbn [steps].
  rewrite (Execute_EOR_IM c m H1). cbv zeta. fold operand.
  assert (E2 : to_word (to_word (PC c + 1) + 1) = to_word (PC c + 2))
    by (rewrite to_word_add_l; f_equal; lia).
  assert (E3 : to_word (to_word (PC c + 2) + 1) = to_word (PC c + 3))
    by (rewrite to_word_add_l; f_equal; lia).
  assert (E4 : to_word (to_word (PC c + 3) + 1) = to_word (PC c + 4))
    by (rewrite to_word_add_l; f_equal; lia).
  rewrite E2.
  rewrite Execute_EOR_IM by (norm_regs; exact H2).
  cbv zeta. norm_regs. rewrite E3, H3, E4.
  rewrite (lxor_byte (A c) operand) by assumption.
  rewrite Z.lxor_assoc, Z.lxor_nilpotent, Z.lxor_0_r.
  rewrite to_byte_small by exact Ha.
  rewrite UpdateZN_Z, UpdateZN_N.
  repeat split.
Qed.

Lemma EOR_EOR_witness :
  let '(c', m') := steps 2 (fst eor_eor_case) (snd eor_eor_case) in
  A c' = 0xC3.
Proof.
  generalize (EOR_EOR (fst eor_eor_case) (snd eor_eor_case)
                ltac:(split; [discriminate | reflexivity]) eq_refl
                ltac:(split; [discriminate | reflexivity]) eq_refl eq_refl).
  destruct (steps 2 (fst eor_eor_case) (snd eor_eor_case)) as [c' m'].
  intros (HA & _). exact HA.
Defined.

(* ------------------------------------------------------------------ *)
(** ** The decode table: cost and length per opcode *)

Lemma switch_by_label {T} (Q : Z -> T -> Prop) x (cases : list (Z * T)) d :
  Forall (fun cb => Q (fst cb) (snd cb)) cases -> Q x d ->
  Q x (switch x cases d).
Proof.
  intros Hc Hd. induction Hc as [|[label body] rest Hb _ IH]; cbn.
  - exact Hd.
  - destruct (Z.eqb_spec x label) as [->|_]; [exact Hb | exact IH].
Qed.

Lemma Execute_cases_exact_charge :
  Forall (fun cb => has_variable_cost (fst cb) = false ->
                    exists lo hi, charges lo hi (snd cb) /\ lo = hi /\
                                  1 <= lo <= 6)
         Execute_cases.
Proof.
  unfold Execute_cases.
  repeat (apply Forall_cons; [cbn [fst snd]; intros Hv|]); try apply Forall_nil.
  all: try discriminate Hv.
  all: clear Hv; unfold PLP, RTI; unfold_instructions; unfold_helpers.
  all: unfold when; cbv iota.
  all: do 2 eexists; split; [charge | split; [reflexivity | lia]].
Qed.

Lemma cost_fixed opcode :
  has_variable_cost opcode = false ->
  exists n, 2 <= n <= 7 /\
    forall c m, data m (PC c) = opcode -> fst (fst (Execute c m)) = n.
Proof.
  intros Hv.
  assert (H : exists lo hi,
             charges lo hi (switch opcode Execute_cases Execute_default) /\
             lo = hi /\ 1 <= lo <= 6).
  { revert Hv.
    apply (switch_by_label
             (fun x (body : M unit) => has_variable_cost x = false ->
                exists lo hi, charges lo hi body /\ lo = hi /\ 1 <= lo <= 6)).
    - exact Execute_cases_exact_charge.
    - intros _. exists 1, 1. unfold Execute_default.
      split; [apply charges_tick; lia | lia]. }
  destruct H as (lo & hi & Hc & <- & Hlo).
  exists (1 + lo). split; [lia|].
  intros c m Hop. rewrite Execute_eq, Hop. cbv zeta. cbn [fst].
  specialize (Hc (mkState (set_PC (to_word (PC c + 1)) c) m (to_cycles (0 + 1)))).
  change (to_cycles (0 + 1)) with 1 in *. cbn [cycles] in Hc. lia.
Qed.

(** X28: apart from the reads with a page-cross penalty and the branches,
    the cycles a step returns are fixed by the opcode byte alone, whatever
    the registers and the rest of memory: they are the cycles of a step
    on registers as constructed over a memory filled with that byte. *)
Theorem cost_by_opcode c m :
  has_variable_cost (data m (PC c)) = false ->
  fst (fst (Execute c m)) = opcode_cost (data m (PC c)).
Proof.
  intros Hv. destruct (cost_fixed _ Hv) as (n & _ & Hn).
  unfold opcode_cost. rewrite (Hn c m eq_refl). symmetry. apply Hn. reflexivity.
Qed.

Lemma cost_by_opcode_witness :
  fst (fst (Execute (fst lda_im_case) (snd lda_im_case))) = 3.
Proof. exact (cost_by_opcode (fst lda_im_case) (snd lda_im_case) eq_refl). Defined.

(* ------------------------------------------------------------------ *)

Lemma advances_still {T} (m : M T) :
  (forall s, PC (cpu (snd (m s))) = PC (cpu s)) -> advances 0 m.
Proof.
  intros H s Hs. rewrite H, Z.add_0_r. symmetry. apply to_word_small, Hs.
Qed.

Lemma advances_ret {T} (x : T) : advances 0 (ret x).
Proof. apply advances_still. reflexivity. Qed.

Lemma advances_get {T} (f : CPU -> T) : advances 0 (get f).
Proof. apply advances_still. reflexivity. Qed.

Lemma advances_tick n : advances 0 (tick n).
Proof. apply advances_still. reflexivity. Qed.

Lemma advances_ReadByte a : advances 0 (ReadByte a).
Proof. apply advances_still. reflexivity. Qed.

Lemma advances_ReadWord a : advances 0 (ReadWord a).
Proof. apply advances_still. reflexivity. Qed.

Lemma advances_WriteByte a v : advances 0 (WriteByte a v).
Proof. apply advances_still. reflexivity. Qed.

Lemma advances_keep f : (forall c, PC (f c) = PC c) -> advances 0 (modify f).
Proof. intros H. apply advances_still. intros s. apply H. Qed.

Lemma advances_fetch n :
  advances n (modify (fun c => set_PC (to_word (PC c + n)) c)).
Proof. intros s _. reflexivity. Qed.

Lemma advances_bind {T U} a b (m : M T) (k : T -> M U) :
  advances a m -> (forall x, advances b (k x)) -> advances (a + b) (bind m k).
Proof.
  intros Hm Hk s Hs. unfold bind. specialize (Hm s Hs).
  destruct (m s) as [x s1]. cbn [snd] in Hm.
  rewrite (Hk x s1) by (rewrite Hm; apply to_word_is_word).
  rewrite Hm, to_word_add_l. f_equal. lia.
Qed.

Lemma advances_if {T} a b (c : bool) (m1 m2 : M T) :
  advances a m1 -> advances b m2 -> a = b -> advances a (if c then m1 else m2).
Proof. intros H1 H2 <-. destruct c; assumption. Qed.

Ltac advance :=
  lazymatch goal with
  | |- advances _ (bind _ _) =>
      eapply advances_bind; [advance | intro; advance]
  | |- advances _ (ret _) => apply advances_ret
  | |- advances _ (get _) => apply advances_get
  | |- advances _ (tick _) => apply advances_tick
  | |- advances _ (ReadByte _) => apply advances_ReadByte
  | |- advances _ (ReadWord _) => apply advances_ReadWord
  | |- advances _ (WriteByte _ _) => apply advances_WriteByte
  | |- advances _ (modify (fun c => set_PC (to_word (PC c + _)) c)) =>
      apply advances_fetch
  | |- advances _ (modify _) =>
      apply advances_keep; intro; norm_regs; reflexivity
  | |- advances _ (if _ then _ else _) =>
      eapply advances_if; [advance | advance | reflexivity]
  | |- advances _ (let _ := _ in _) => cbv zeta; advance
  end.

Lemma Execute_cases_advance :
  Forall (fun cb => changes_flow (fst cb) = false ->
                    exists n, advances n (snd cb) /\ 0 <= n <= 2)
         Execute_cases.
Proof.
  unfold Execute_cases.
  repeat (apply Forall_cons; [cbn [fst snd]; intros Hv|]); try apply Forall_nil.
  all: try discriminate Hv.
  all: clear Hv; unfold PLP; unfold_instructions; unfold_helpers.
  all: unfold when.
  all: eexists; split; [advance | lia].
Qed.

Lemma length_fixed opcode :
  changes_flow opcode = false ->
  exists n, 1 <= n <= 3 /\
    forall c m, data m (PC c) = opcode ->
                PC (snd (fst (Execute c m))) = to_word (PC c + n).
Proof.
  intros Hv.
  assert (H : exists n,
             advances n (switch opcode Execute_cases Execute_default) /\
             0 <= n <= 2).
  { revert Hv.
    apply (switch_by_label
             (fun x (body : M unit) => changes_flow x = false ->
                exists n, advances n body /\ 0 <= n <= 2)).
    - exact Execute_cases_advance.
    - intros _. exists 0. split; [apply advances_tick | lia]. }
  destruct H as (n & Ha & Hn).
  exists (1 + n). split; [lia|].
  intros c m Hop. rewrite Execute_eq, Hop. cbv zeta. cbn [fst snd]. proj.
  rewrite (Ha (mkState (set_PC (to_word (PC c + 1)) c) m (to_cycles (0 + 1))))
    by (proj; apply to_word_is_word).
  proj. rewrite to_word_add_l. f_equal. lia.
Qed.

(** X29: apart from jumps, calls, returns, BRK and branches, a step moves
    PC on (in 16-bit arithmetic) by a length of 1, 2 or 3 bytes fixed by
    the opcode byte alone: the PC a step from address 0 reaches over a
    memory filled with that byte. *)
Theorem length_by_opcode c m :
  changes_flow (data m (PC c)) = false ->
  PC (snd (fst (Execute c m))) = to_word (PC c + opcode_length (data m (PC c)))
  /\ 1 <= opcode_length (data m (PC c)) <= 3.
Proof.
  intros Hv. destruct (length_fixed _ Hv) as (n & Hr & Hn).
  assert (E : opcode_length (data m (PC c)) = n).
  { unfold opcode_length.
    rewrite (Hn CPU_new (mkMemory (fun _ => data m (PC c))) eq_refl).
    cbn [PC CPU_new]. apply to_word_small. unfold is_word. lia. }
  rewrite E. split; [apply Hn; reflexivity | exact Hr].
Qed.

Lemma length_by_opcode_witness :
  PC (snd (fst (Execute (fst lda_im_case) (snd lda_im_case)))) = 0x1002.
Proof.
  exact (proj1 (length_by_opcode (fst lda_im_case) (snd lda_im_case) eq_refl)).
Defined.
